(** * The sealed-bid auction game of [app.js]: model and verified properties

    A shallow embedding of the round-resolution engine of the betting game
    server ([src/app.js], the current version of the file: game modes
    all-pay, standard and Vickrey).

    Conventions of the embedding.
    - JavaScript numbers that hold money, bids and round counters are
      integers ([Z]); [roundsWon] and [roundsToWin] are rationals ([Q]): the
      credits 0.5, 0.4, 0.3 and 0.2 are taken as exact decimals, and the
      rounding of their sums in binary floating point is not modelled.
    - A JavaScript object used as a dictionary ([games], [game.bets],
      [game.lastRoundBets], [game.actualPayments]) is a [gmap] keyed by
      strings; [undefined] is [None].  The enumeration order of
      [Object.entries] is the one of [map_to_list]; it only shows in the
      order of the list [roundWinners].
    - The routes run to completion one after the other; each is a function
      from the registry of games (and the session of the caller) to the new
      registry and the response.  A [TypeError] raised in the middle of a
      handler (a property read on [undefined]) is the result [None]. *)

From Stdlib Require Import ZArith QArith Ascii String List Lia.
From stdpp Require Import base option list strings gmap.

Open Scope string_scope.
Open Scope list_scope.
Open Scope Z_scope.

(** ** Data model *)

(** An entry of [game.players]. *)
Record Player := mkPlayer {
  id : string;
  name : string;
  money : Z;
  roundsWon : Q;
  host : bool
}.

(** [game.status]: one of the four string literals the code assigns. *)
Inductive Status := waiting | betting | roundComplete | gameComplete.

Global Instance Status_eq_dec : EqDecision Status.
Proof. solve_decision. Defined.

(** An entry of [games].  [game_id] is the field [id] of the source;
    [roundWinner] (always [null] in this version) is left out.  The fields
    that the creation route does not set start as [undefined]: [None], the
    empty object or [false], which is how every reader of them treats
    [undefined]. *)
Record Game := mkGame {
  game_id : string;
  createdAt : Z;
  gameMode : string;
  players : list Player;
  currentRound : Z;
  totalRounds : Z;
  roundsToWin : Q;
  status : Status;
  bets : gmap string Z;
  roundWinners : option (list string);
  overallWinner : option Player;
  lastRoundBets : gmap string Z;
  showRoundResults : bool;
  secondHighestBid : option Z;
  thirdHighestBid : option Z;
  actualPayments : gmap string Z
}.

(** Field assignments [game.f = v]. *)
Definition set_players (v : list Player) (g : Game) : Game :=
  mkGame (game_id g) (createdAt g) (gameMode g) v (currentRound g)
    (totalRounds g) (roundsToWin g) (status g) (bets g) (roundWinners g)
    (overallWinner g) (lastRoundBets g) (showRoundResults g)
    (secondHighestBid g) (thirdHighestBid g) (actualPayments g).

Definition set_currentRound (v : Z) (g : Game) : Game :=
  mkGame (game_id g) (createdAt g) (gameMode g) (players g) v
    (totalRounds g) (roundsToWin g) (status g) (bets g) (roundWinners g)
    (overallWinner g) (lastRoundBets g) (showRoundResults g)
    (secondHighestBid g) (thirdHighestBid g) (actualPayments g).

Definition set_totalRounds (v : Z) (g : Game) : Game :=
  mkGame (game_id g) (createdAt g) (gameMode g) (players g) (currentRound g)
    v (roundsToWin g) (status g) (bets g) (roundWinners g)
    (overallWinner g) (lastRoundBets g) (showRoundResults g)
    (secondHighestBid g) (thirdHighestBid g) (actualPayments g).

Definition set_status (v : Status) (g : Game) : Game :=
  mkGame (game_id g) (createdAt g) (gameMode g) (players g) (currentRound g)
    (totalRounds g) (roundsToWin g) v (bets g) (roundWinners g)
    (overallWinner g) (lastRoundBets g) (showRoundResults g)
    (secondHighestBid g) (thirdHighestBid g) (actualPayments g).

Definition set_bets (v : gmap string Z) (g : Game) : Game :=
  mkGame (game_id g) (createdAt g) (gameMode g) (players g) (currentRound g)
    (totalRounds g) (roundsToWin g) (status g) v (roundWinners g)
    (overallWinner g) (lastRoundBets g) (showRoundResults g)
    (secondHighestBid g) (thirdHighestBid g) (actualPayments g).

Definition set_roundWinners (v : option (list string)) (g : Game) : Game :=
  mkGame (game_id g) (createdAt g) (gameMode g) (players g) (currentRound g)
    (totalRounds g) (roundsToWin g) (status g) (bets g) v
    (overallWinner g) (lastRoundBets g) (showRoundResults g)
    (secondHighestBid g) (thirdHighestBid g) (actualPayments g).

Definition set_overallWinner (v : option Player) (g : Game) : Game :=
  mkGame (game_id g) (createdAt g) (gameMode g) (players g) (currentRound g)
    (totalRounds g) (roundsToWin g) (status g) (bets g) (roundWinners g)
    v (lastRoundBets g) (showRoundResults g)
    (secondHighestBid g) (thirdHighestBid g) (actualPayments g).

Definition set_lastRoundBets (v : gmap string Z) (g : Game) : Game :=
  mkGame (game_id g) (createdAt g) (gameMode g) (players g) (currentRound g)
    (totalRounds g) (roundsToWin g) (status g) (bets g) (roundWinners g)
    (overallWinner g) v (showRoundResults g)
    (secondHighestBid g) (thirdHighestBid g) (actualPayments g).

Definition set_showRoundResults (v : bool) (g : Game) : Game :=
  mkGame (game_id g) (createdAt g) (gameMode g) (players g) (currentRound g)
    (totalRounds g) (roundsToWin g) (status g) (bets g) (roundWinners g)
    (overallWinner g) (lastRoundBets g) v
    (secondHighestBid g) (thirdHighestBid g) (actualPayments g).

Definition set_secondHighestBid (v : option Z) (g : Game) : Game :=
  mkGame (game_id g) (createdAt g) (gameMode g) (players g) (currentRound g)
    (totalRounds g) (roundsToWin g) (status g) (bets g) (roundWinners g)
    (overallWinner g) (lastRoundBets g) (showRoundResults g)
    v (thirdHighestBid g) (actualPayments g).

Definition set_thirdHighestBid (v : option Z) (g : Game) : Game :=
  mkGame (game_id g) (createdAt g) (gameMode g) (players g) (currentRound g)
    (totalRounds g) (roundsToWin g) (status g) (bets g) (roundWinners g)
    (overallWinner g) (lastRoundBets g) (showRoundResults g)
    (secondHighestBid g) v (actualPayments g).

Definition set_actualPayments (v : gmap string Z) (g : Game) : Game :=
  mkGame (game_id g) (createdAt g) (gameMode g) (players g) (currentRound g)
    (totalRounds g) (roundsToWin g) (status g) (bets g) (roundWinners g)
    (overallWinner g) (lastRoundBets g) (showRoundResults g)
    (secondHighestBid g) (thirdHighestBid g) v.

(** Assignments to the fields of a player object. *)
Definition set_money (v : Z) (p : Player) : Player :=
  mkPlayer (id p) (name p) v (roundsWon p) (host p).

Definition set_roundsWon (v : Q) (p : Player) : Player :=
  mkPlayer (id p) (name p) (money p) v (host p).

(** ** Helpers of the source *)

(** [getTotalRoundsForPlayerCount(playerCount)]. *)
Definition getTotalRoundsForPlayerCount (playerCount : Z) : Z :=
  if playerCount <=? 2 then 5
  else if playerCount =? 3 then 7
  else 9.

(** [getFractionalWinAmount(numWinners)]. *)
Definition getFractionalWinAmount (numWinners : Z) : Q :=
  if numWinners <=? 1 then 1%Q
  else if numWinners =? 2 then 0.5%Q
  else if numWinners =? 3 then 0.4%Q
  else if numWinners =? 4 then 0.3%Q
  else 0.2%Q.

(** [shouldEndGame(game)]. *)
Definition shouldEndGame (game : Game) : bool :=
  if bool_decide (gameMode game = "all-pay") then
    existsb (fun p => Qle_bool (roundsToWin game) (roundsWon p)) (players game)
    || (currentRound game >=? totalRounds game)
  else
    currentRound game >=? totalRounds game.

(** [Math.max(...xs)]; [None] is the [-Infinity] of the empty call. *)
Definition Math_max (xs : list Q) : option Q :=
  match xs with
  | [] => None
  | x :: xs' => Some (fold_left (fun m y => if Qle_bool m y then y else m) xs' x)
  end.

(** [xs.reduce(f)] without an initial value: a [TypeError] on the empty
    array. *)
Definition reduce {A} (f : A -> A -> A) (xs : list A) : option A :=
  match xs with
  | [] => None
  | x :: xs' => Some (fold_left f xs' x)
  end.

(** [determineOverallWinner(game)].  [game.overallWinner] refers to the
    chosen player object; no route changes a player while it is set (only
    the reset does, and it clears the field first), so the field holds the
    player as it is at this point. *)
Definition determineOverallWinner (game : Game) : option Game :=
  let playerWith3Wins :=
    if bool_decide (gameMode game = "all-pay") then
      List.find (fun p => Qle_bool (roundsToWin game) (roundsWon p)) (players game)
    else None in
  match playerWith3Wins with
  | Some p => Some (set_overallWinner (Some p) game)
  | None =>
    let maxWins := Math_max (map roundsWon (players game)) in
    let playersWithMostWins :=
      List.filter (fun p => match maxWins with
                            | Some m => Qeq_bool (roundsWon p) m
                            | None => false
                            end) (players game) in
    match playersWithMostWins with
    | [p] => Some (set_overallWinner (Some p) game)
    | _ =>
      winnerByMoney ← reduce (fun prev current =>
                        if money prev >? money current then prev else current)
                      playersWithMostWins;
      Some (set_overallWinner (Some winnerByMoney) game)
    end
  end.

(** ** Settlement of a round *)

(** An element of the array [bids] of [completeRound]. *)
Record Bid := mkBid { playerId : string; amount : Z }.

(** [bids.sort((a, b) => b.amount - a.amount)]: the sort is stable, so it is
    the insertion of each bid before the first one of a smaller or equal
    amount among those that follow it. *)
Fixpoint insert_desc (b : Bid) (l : list Bid) : list Bid :=
  match l with
  | [] => [b]
  | c :: l' => if amount b <? amount c then c :: insert_desc b l'
               else b :: c :: l'
  end.

Definition sort_desc (l : list Bid) : list Bid := foldr insert_desc [] l.

(** [Object.entries(o).map(([playerId, amount]) => ({ playerId, amount }))]. *)
Definition entries (o : gmap string Z) : list Bid :=
  map (fun e => mkBid (fst e) (snd e)) (map_to_list o).

(** [const winner = game.players.find(p => p.id === winnerId)] followed by
    assignments [f] to the fields of [winner]: the first player with that
    id is changed in place; when there is none, [winner] is [undefined] and
    the first assignment raises a [TypeError]. *)
Fixpoint update_first (winnerId : string) (f : Player -> Player)
    (ps : list Player) : option (list Player) :=
  match ps with
  | [] => None
  | p :: ps' =>
    if bool_decide (id p = winnerId) then Some (f p :: ps')
    else cons p <$> update_first winnerId f ps'
  end.

(** [game.bets[player.id] || 0]. *)
Definition bet_or_0 (game : Game) (p : Player) : Z :=
  default 0 (bets game !! id p).

(** What the all-pay branch does for a winner: the winner is looked up and
    gets the credit [c] (a full win for a single winner, the fractional
    amount for each of several). *)
Definition credit (c : Q) (winner : Player) : Player :=
  set_roundsWon (roundsWon winner + c)%Q winner.

Definition credit_winner (c : Q) (winnerId : string) (game : Game) : option Game :=
  ps ← update_first winnerId (credit c) (players game);
  Some (set_players ps game).

(** What the standard and Vickrey branches do for a winner: the winner is
    looked up, pays [payment], the payment is recorded under the id of the
    winner, and the winner gets the credit [c]. *)
Definition charge (payment : Z) (c : Q) (winner : Player) : Player :=
  set_roundsWon (roundsWon winner + c)%Q
    (set_money (money winner - payment) winner).

Definition charge_winner (payment : Z) (c : Q) (winnerId : string)
    (game : Game) : option Game :=
  ps ← update_first winnerId (charge payment c) (players game);
  Some (set_actualPayments (<[winnerId := payment]> (actualPayments game))
          (set_players ps game)).

(** [xs.forEach(x => body)] for a body that may raise. *)
Fixpoint forEach {A} (body : A -> Game -> option Game) (xs : list A)
    (game : Game) : option Game :=
  match xs with
  | [] => Some game
  | x :: xs' => game' ← body x game; forEach body xs' game'
  end.

(** [game.players.forEach(player => { game.actualPayments[player.id] = v })]. *)
Definition record_payments (v : Player -> Z) (game : Game) : gmap string Z :=
  fold_left (fun o player => <[id player := v player]> o)
    (players game) (actualPayments game).

(** [completeRound(game)].  The timer it starts is the request
    [HideRoundResults] below. *)
Definition completeRound (game : Game) : option Game :=
  let game := set_showRoundResults true (set_lastRoundBets (bets game) game) in
  let bids := sort_desc (entries (bets game)) in
  match bids with
  | [] => Some (set_roundWinners (Some []) (set_status roundComplete game))
  | bid0 :: _ =>
    let highestBid := amount bid0 in
    let highestBidders :=
      map playerId (List.filter (fun bid => amount bid =? highestBid) bids) in
    let secondHighestBid :=
      if (Z.of_nat (length bids) >? 1)
      then amount <$> List.find (fun bid => amount bid <? highestBid) bids
      else None in
    let game := set_secondHighestBid secondHighestBid game in
    let thirdHighestBid :=
      if (Z.of_nat (length bids) >? 2) && (Z.of_nat (length highestBidders) >? 1)
      then
        let nonWinnerBids :=
          List.filter (fun bid => negb (bool_decide (playerId bid ∈ highestBidders)))
            bids in
        amount <$> head nonWinnerBids
      else None in
    let game := set_thirdHighestBid thirdHighestBid game in
    let game := set_actualPayments ∅ game in
    let fractionalWinAmount :=
      getFractionalWinAmount (Z.of_nat (length highestBidders)) in
    game ←
      (if bool_decide (gameMode game = "all-pay") then
         let game :=
           set_actualPayments (record_payments (bet_or_0 game) game)
             (set_players
                (map (fun player => set_money (money player - bet_or_0 game player) player)
                   (players game))
                game) in
         match highestBidders with
         | [w] => credit_winner 1%Q w game
         | _ :: _ :: _ =>
           forEach (credit_winner fractionalWinAmount) highestBidders game
         | [] => Some game
         end
       else if bool_decide (gameMode game = "standard") then
         let game := set_actualPayments (record_payments (fun _ => 0) game) game in
         match highestBidders with
         | [w] => charge_winner highestBid 1%Q w game
         | _ :: _ :: _ =>
           forEach (charge_winner highestBid fractionalWinAmount) highestBidders game
         | [] => Some game
         end
       else
         let game := set_actualPayments (record_payments (fun _ => 0) game) game in
         match highestBidders with
         | [w] =>
           let payment := default highestBid secondHighestBid in
           charge_winner payment 1%Q w game
         | _ :: _ :: _ =>
           let payment := default (default 0 secondHighestBid) thirdHighestBid in
           forEach (charge_winner payment fractionalWinAmount) highestBidders game
         | [] => Some game
         end);
    let game := set_roundWinners (Some highestBidders) game in
    let game := set_status roundComplete game in
    if shouldEndGame game then
      determineOverallWinner (set_status gameComplete game)
    else Some game
  end.

(** ** The routes *)

(** [req.session.user] and [req.session]. *)
Record User := mkUser {
  user_gameId : string;
  user_playerId : string;
  user_name : string
}.

Record Session := mkSession {
  user : option User;
  error : option string
}.

(** What a handler sends: [res.redirect(url)],
    [res.status(code).json({ error })], [res.json({ success: true })] or
    [res.json({ success: true, gameComplete: true })]. *)
Inductive Response :=
| Redirect (url : string)
| JsonError (code : Z) (message : string)
| JsonSuccess
| JsonGameComplete.

(** The outcome of a handler: the registry [games], the session and the
    response. *)
Definition Outcome : Type := gmap string Game * Session * Response.

(** [s.trim() === ''] on the UTF-8 bytes of [s]: every character is a
    WhiteSpace or a LineTerminator of ECMAScript. *)
Fixpoint all_whitespace (cs : list N) : bool :=
  match cs with
  | [] => true
  | c :: cs1 =>
    if ((9 <=? c) && (c <=? 13) || (c =? 32))%N then all_whitespace cs1
    else match cs1 with
    | [] => false
    | d :: cs2 =>
      if ((c =? 194) && (d =? 160))%N then all_whitespace cs2
      else match cs2 with
      | [] => false
      | e :: cs3 =>
        if ((c =? 225) && (d =? 154) && (e =? 128)
            || (c =? 226) && (d =? 128)
               && ((128 <=? e) && (e <=? 138) || (e =? 168) || (e =? 169)
                   || (e =? 175))
            || (c =? 226) && (d =? 129) && (e =? 159)
            || (c =? 227) && (d =? 128) && (e =? 128)
            || (c =? 239) && (d =? 187) && (e =? 191))%N
        then all_whitespace cs3 else false
      end
    end
  end.

(** [!username || username.trim() === ''] for a body field that is absent
    ([None]) or a string. *)
Definition blank (username : option string) : bool :=
  match username with
  | None => true
  | Some s => all_whitespace (map N_of_ascii (list_ascii_of_string s))
  end.

(** [s.toUpperCase()] on the letters of ASCII, the only ones of a game
    id. *)
Definition toUpperCase (s : string) : string :=
  string_of_list_ascii
    (map (fun c => let n := N_of_ascii c in
                   if ((97 <=? n) && (n <=? 122))%N then ascii_of_N (n - 32) else c)
       (list_ascii_of_string s)).

(** [game.players.find(p => p.id === user.playerId)]. *)
Definition find_player (playerId : string) (game : Game) : option Player :=
  List.find (fun p => bool_decide (id p = playerId)) (players game).

(** [app.post('/game/create')]; [gameId] and [playerId] are the values that
    [generateGameId()] and [generatePlayerId()] draw, [now] is
    [Date.now()]. *)
Definition create (gameId playerId : string) (now : Z)
    (username gameMode : option string)
    (games : gmap string Game) (session : Session) : Outcome :=
  let gameMode :=
    match gameMode with
    | Some m => if bool_decide (m = "") then "all-pay" else m
    | None => "all-pay"
    end in
  if blank username then
    (games, mkSession (user session) (Some "Please enter a username"),
     Redirect "/")
  else
    let username := default "" username in
    let initialRounds := getTotalRoundsForPlayerCount 1 in
    let game :=
      mkGame gameId now gameMode [mkPlayer playerId username 100 0 true]
        0 initialRounds 3 waiting ∅ None None ∅ false None None ∅ in
    (<[gameId := game]> games,
     mkSession (Some (mkUser gameId playerId username)) (error session),
     Redirect ("/game/" ++ gameId)%string).

(** [app.post('/game/join')]; [playerId] is the value that
    [generatePlayerId()] draws. *)
Definition join (playerId : string) (gameId username : option string)
    (games : gmap string Game) (session : Session) : Outcome :=
  let gameId :=
    match gameId with
    | Some i => if bool_decide (i = "") then None else Some (toUpperCase i)
    | None => None
    end in
  let fail message :=
    (games, mkSession (user session) (Some message), Redirect "/") in
  if blank username then fail "Please enter a username"
  else
    let username := default "" username in
    match gameId ≫= (fun i => (fun game => (i, game)) <$> games !! i) with
    | None => fail "Game not found"
    | Some (gameId, game) =>
      if negb (bool_decide (status game = waiting)) then
        fail "Game has already started"
      else if existsb (fun p => bool_decide (name p = username)) (players game) then
        fail "Username already taken in this game"
      else
        let newPlayer := mkPlayer playerId username 100 0 false in
        let game := set_players (players game ++ [newPlayer]) game in
        let game :=
          set_totalRounds
            (getTotalRoundsForPlayerCount (Z.of_nat (length (players game))))
            game in
        (<[gameId := game]> games,
         mkSession (Some (mkUser gameId playerId username)) (error session),
         Redirect ("/game/" ++ gameId)%string)
    end.

(** The checks that open the JSON routes: the game exists and the session
    is one of this game. *)
Definition lookup_game (gameId : string) (games : gmap string Game)
    (session : Session) : Response + Game * User :=
  match games !! gameId with
  | None => inl (JsonError 404 "Game not found")
  | Some game =>
    match user session with
    | None => inl (JsonError 403 "You are not in this game")
    | Some u =>
      if negb (bool_decide (user_gameId u = gameId))
      then inl (JsonError 403 "You are not in this game")
      else inr (game, u)
    end
  end.

(** [app.post('/game/:gameId/start')]. *)
Definition start (gameId : string)
    (games : gmap string Game) (session : Session) : Outcome :=
  match lookup_game gameId games session with
  | inl r => (games, session, r)
  | inr (game, u) =>
    match find_player (user_playerId u) game with
    | None => (games, session, JsonError 403 "Only the host can start the game")
    | Some player =>
      if negb (host player) then
        (games, session, JsonError 403 "Only the host can start the game")
      else if Z.of_nat (length (players game)) <? 2 then
        (games, session, JsonError 400 "Need at least 2 players to start")
      else if negb (bool_decide (status game = waiting)) then
        (games, session, JsonError 400 "Game has already started")
      else
        let game := set_bets ∅ (set_currentRound 1 (set_status betting game)) in
        (<[gameId := game]> games, session, JsonSuccess)
    end
  end.

(** [app.post('/game/:gameId/bet')]; [betAmount] is
    [parseInt(req.body.amount, 10)], [None] when it is [NaN]. *)
Definition bet (gameId : string) (betAmount : option Z)
    (games : gmap string Game) (session : Session) : option Outcome :=
  match lookup_game gameId games session with
  | inl r => Some (games, session, r)
  | inr (game, u) =>
    match find_player (user_playerId u) game with
    | None => Some (games, session, JsonError 404 "Player not found")
    | Some player =>
      if negb (bool_decide (status game = betting)) then
        Some (games, session, JsonError 400 "It is not betting time")
      else if bool_decide (is_Some (bets game !! id player)) then
        Some (games, session,
              JsonError 400 "You have already placed a bet this round")
      else
        match betAmount with
        | None => Some (games, session, JsonError 400 "Invalid bet amount")
        | Some betAmount =>
          if (betAmount <? 0) || (betAmount >? money player) then
            Some (games, session, JsonError 400 "Invalid bet amount")
          else
            let game := set_bets (<[id player := betAmount]> (bets game)) game in
            let allPlayersHaveBet :=
              forallb (fun p => bool_decide (is_Some (bets game !! id p)))
                (players game) in
            game ← (if allPlayersHaveBet then completeRound game else Some game);
            Some (<[gameId := game]> games, session, JsonSuccess)
        end
    end
  end.

(** [app.post('/game/:gameId/nextround')]. *)
Definition nextround (gameId : string)
    (games : gmap string Game) (session : Session) : option Outcome :=
  match lookup_game gameId games session with
  | inl r => Some (games, session, r)
  | inr (game, u) =>
    match find_player (user_playerId u) game with
    | None =>
      Some (games, session,
            JsonError 403 "Only the host can advance to the next round")
    | Some player =>
      if negb (host player) then
        Some (games, session,
              JsonError 403 "Only the host can advance to the next round")
      else if negb (bool_decide (status game = roundComplete)) then
        Some (games, session, JsonError 400 "Cannot start next round yet")
      else if shouldEndGame game then
        game ← determineOverallWinner (set_status gameComplete game);
        Some (<[gameId := game]> games, session, JsonGameComplete)
      else
        let game := set_currentRound (currentRound game + 1) game in
        let game := set_status betting game in
        let game := set_bets ∅ game in
        let game := set_roundWinners None game in
        let game := set_showRoundResults false game in
        Some (<[gameId := game]> games, session, JsonSuccess)
    end
  end.

(** [app.post('/game/:gameId/reset')]. *)
Definition reset (gameId : string)
    (games : gmap string Game) (session : Session) : Outcome :=
  match lookup_game gameId games session with
  | inl r => (games, session, r)
  | inr (game, u) =>
    match find_player (user_playerId u) game with
    | None => (games, session, JsonError 403 "Only the host can reset the game")
    | Some player =>
      if negb (host player) then
        (games, session, JsonError 403 "Only the host can reset the game")
      else
        let game :=
          set_players (map (fun p => set_roundsWon 0 (set_money 100 p))
                         (players game)) game in
        let game := set_currentRound 0 game in
        let game := set_status waiting game in
        let game := set_bets ∅ game in
        let game := set_roundWinners None game in
        let game := set_overallWinner None game in
        let game := set_lastRoundBets ∅ game in
        let game := set_showRoundResults false game in
        let game := set_secondHighestBid None game in
        let game := set_actualPayments ∅ game in
        (<[gameId := game]> games, session, JsonSuccess)
    end
  end.

(** The callback of the timer that [completeRound] starts for the game
    [gameId]: [if (games[game.id]) games[game.id].showRoundResults = false]. *)
Definition hideRoundResults (gameId : string)
    (games : gmap string Game) : gmap string Game :=
  match games !! gameId with
  | Some game => <[gameId := set_showRoundResults false game]> games
  | None => games
  end.

(** The callback of [setInterval]: the games created more than a day
    before [now] are deleted. *)
Definition cleanUp (now : Z) (games : gmap string Game) : gmap string Game :=
  filter (fun e => ¬ (createdAt (snd e) ≠ 0
                      ∧ now - createdAt (snd e) > 24 * 60 * 60 * 1000))
    games.

(** ** Runs of the server *)

(** The events that change [games]: the POST routes with what they read
    from the request and what the random generators and the clock give
    them, and the two timer callbacks.  The GET routes only read [games]. *)
Inductive Request :=
| Create (gameId playerId : string) (now : Z) (username gameMode : option string)
| Join (playerId : string) (gameId username : option string)
| Start (gameId : string)
| PlaceBet (gameId : string) (betAmount : option Z)
| NextRound (gameId : string)
| Reset (gameId : string)
| HideRoundResults (gameId : string)
| CleanUp (now : Z).

Definition handle (r : Request) (session : Session)
    (games : gmap string Game) : option (gmap string Game) :=
  match r with
  | Create gameId playerId now username gameMode =>
    Some (create gameId playerId now username gameMode games session).1.1
  | Join playerId gameId username =>
    Some (join playerId gameId username games session).1.1
  | Start gameId => Some (start gameId games session).1.1
  | PlaceBet gameId betAmount =>
    (fun o : Outcome => o.1.1) <$> bet gameId betAmount games session
  | NextRound gameId =>
    (fun o : Outcome => o.1.1) <$> nextround gameId games session
  | Reset gameId => Some (reset gameId games session).1.1
  | HideRoundResults gameId => Some (hideRoundResults gameId games)
  | CleanUp now => Some (cleanUp now games)
  end.

(** A run: the requests are handled in turn, each with the session of its
    sender (any session: nothing is assumed on who sends what). *)
Fixpoint run (rs : list (Request * Session)) (games : gmap string Game)
    : option (gmap string Game) :=
  match rs with
  | [] => Some games
  | (r, session) :: rs' => games' ← handle r session games; run rs' games'
  end.

(** The registries that the server can be in: it starts with
    [games = {}]. *)
Definition reachable (games : gmap string Game) : Prop :=
  exists rs, run rs ∅ = Some games.

(** * Vocabulary of the properties *)

(** ** Positions in the list of players *)

(** [w] is the first element of [ps] that satisfies [P]. *)
Definition first_such {A} (P : A -> Prop) (ps : list A) (w : A) : Prop :=
  exists l1 l2, ps = l1 ++ w :: l2 /\ P w /\ forall q, q ∈ l1 -> ~ P q.

(** [w] is the last element of [ps] that satisfies [P]. *)
Definition last_such {A} (P : A -> Prop) (ps : list A) (w : A) : Prop :=
  exists l1 l2, ps = l1 ++ w :: l2 /\ P w /\ forall q, q ∈ l2 -> ~ P q.

(** The players that the resolver compares: [p] has the most wins, and the
    most money among the players with as many wins. *)
Definition top_player (g : Game) (p : Player) : Prop :=
  (forall q, q ∈ players g -> (roundsWon q <= roundsWon p)%Q)
  /\ (forall q, q ∈ players g -> (roundsWon q == roundsWon p)%Q ->
                money q <= money p).

(** The player that reached the number of wins that ends an all-pay game. *)
Definition has_won (g : Game) (p : Player) : Prop :=
  (roundsToWin g <= roundsWon p)%Q.


(** ** The ranking and the settlement, by parts *)

(** The ranking that [completeRound] computes from the ledger: the highest
    bid, the highest bidders, the second-highest and the third-highest
    bid; [None] for the empty ledger. *)
Definition ranking (o : gmap string Z)
    : option (Z * list string * option Z * option Z) :=
  let bids := sort_desc (entries o) in
  match bids with
  | [] => None
  | bid0 :: _ =>
    let highestBid := amount bid0 in
    let highestBidders :=
      map playerId (List.filter (fun bid => amount bid =? highestBid) bids) in
    let secondHighestBid :=
      if (Z.of_nat (length bids) >? 1)
      then amount <$> List.find (fun bid => amount bid <? highestBid) bids
      else None in
    let thirdHighestBid :=
      if (Z.of_nat (length bids) >? 2) && (Z.of_nat (length highestBidders) >? 1)
      then
        let nonWinnerBids :=
          List.filter (fun bid => negb (bool_decide (playerId bid ∈ highestBidders)))
            bids in
        amount <$> head nonWinnerBids
      else None in
    Some (highestBid, highestBidders, secondHighestBid, thirdHighestBid)
  end.

(** The successive lookups and updates of the winners, on the list of
    players alone. *)
Fixpoint update_all (ws : list string) (f : Player -> Player)
    (ps : list Player) : option (list Player) :=
  match ws with
  | [] => Some ps
  | w :: ws' => ps' ← update_first w f ps; update_all ws' f ps'
  end.

(** What a winner pays in the standard and Vickrey branches. *)
Definition winner_payment (mode : string) (highestBid : Z)
    (highestBidders : list string) (secondHighestBid thirdHighestBid : option Z)
    : Z :=
  if bool_decide (mode = "standard") then highestBid
  else match highestBidders with
       | [_] => default highestBid secondHighestBid
       | _ => default (default 0 secondHighestBid) thirdHighestBid
       end.

(** What the all-pay branch does to every player. *)
Definition pay_own_bid (o : gmap string Z) (p : Player) : Player :=
  set_money (money p - default 0 (o !! id p)) p.

(** The list of players after the settlement of a ranked ledger. *)
Definition settle_players (mode : string) (o : gmap string Z)
    (highestBid : Z) (highestBidders : list string)
    (secondHighestBid thirdHighestBid : option Z)
    (ps : list Player) : option (list Player) :=
  let c := getFractionalWinAmount (Z.of_nat (length highestBidders)) in
  if bool_decide (mode = "all-pay") then
    update_all highestBidders (credit c) (map (pay_own_bid o) ps)
  else
    update_all highestBidders
      (charge (winner_payment mode highestBid highestBidders
                 secondHighestBid thirdHighestBid) c) ps.

(** The payments that the settlement records in [game.actualPayments]. *)
Definition settle_payments (mode : string) (o : gmap string Z)
    (highestBid : Z) (highestBidders : list string)
    (secondHighestBid thirdHighestBid : option Z)
    (ps : list Player) : gmap string Z :=
  if bool_decide (mode = "all-pay") then
    fold_left (fun acc p => <[id p := default 0 (o !! id p)]> acc) ps ∅
  else
    fold_left
      (fun acc w => <[w := winner_payment mode highestBid highestBidders
                             secondHighestBid thirdHighestBid]> acc)
      highestBidders
      (fold_left (fun acc p => <[id p := 0]> acc) ps ∅).

(** The game after the settlement of a ranked ledger, before the
    termination predicate is evaluated. *)
Definition settled_game (g : Game) (highestBid : Z)
    (highestBidders : list string)
    (secondHighestBid thirdHighestBid : option Z) (ps : list Player) : Game :=
  set_status roundComplete
    (set_roundWinners (Some highestBidders)
       (set_actualPayments
          (settle_payments (gameMode g) (bets g) highestBid highestBidders
             secondHighestBid thirdHighestBid (players g))
          (set_players ps
             (set_thirdHighestBid thirdHighestBid
                (set_secondHighestBid secondHighestBid
                   (set_showRoundResults true
                      (set_lastRoundBets (bets g) g))))))).

(** The bids of a ranked list go down. *)
Fixpoint sorted_desc (l : list Bid) : Prop :=
  match l with
  | [] => True
  | b :: l' => Forall (fun c => amount c <= amount b) l' /\ sorted_desc l'
  end.

(** ** The ranks of a ledger, in the words of the rules *)

(** [h] is the highest bid of the ledger: the maximum of the amounts. *)
Definition is_highest (o : gmap string Z) (h : Z) : Prop :=
  (exists k, o !! k = Some h) /\ forall k b, o !! k = Some b -> b <= h.

(** [s] is the second-highest bid: the highest amount strictly less than
    the highest bid [h]. *)
Definition is_second_highest (o : gmap string Z) (h s : Z) : Prop :=
  (exists k, o !! k = Some s) /\ s < h
  /\ forall k b, o !! k = Some b -> b < h -> b <= s.

(** [t] is the third-highest bid: the highest bid among the players that
    are not highest bidders. *)
Definition is_third_highest (o : gmap string Z) (h t : Z) : Prop :=
  (exists k, o !! k = Some t /\ o !! k <> Some h)
  /\ forall k b, o !! k = Some b -> o !! k <> Some h -> b <= t.

(** Every bid of the ledger is the highest bid [h]. *)
Definition all_tied (o : gmap string Z) (h : Z) : Prop :=
  forall k b, o !! k = Some b -> b = h.

(** The Vickrey rule for what the highest bidder [k] pays: the
    second-highest bid when [k] is the only highest bidder; in a tie, the
    third-highest bid if there is one, else the second-highest bid if
    there is one, else 0. *)
Definition vickrey_rule (o : gmap string Z) (h : Z) (k : string) (pay : Z)
    : Prop :=
  ((forall k', o !! k' = Some h -> k' = k) ->
   forall s, is_second_highest o h s -> pay = s)
  /\ ((exists k', k' <> k /\ o !! k' = Some h) ->
      (forall t, is_third_highest o h t -> pay = t)
      /\ (~ (exists t, is_third_highest o h t) ->
          (forall s, is_second_highest o h s -> pay = s)
          /\ (~ (exists s, is_second_highest o h s) -> pay = 0))).



(** ** Well-formed games *)

(** The ids of the players are distinct, as [generatePlayerId] intends
    them, and every bid of the ledger is the bid of a player. *)
Definition wf_game (g : Game) : Prop :=
  NoDup (map id (players g))
  /\ forall k, is_Some (bets g !! k) -> k ∈ map id (players g).

(** What the settlement does to one player of a well-formed game. *)
Definition settle_player (mode : string) (o : gmap string Z)
    (highestBid : Z) (highestBidders : list string)
    (secondHighestBid thirdHighestBid : option Z) (p : Player) : Player :=
  let c := getFractionalWinAmount (Z.of_nat (length highestBidders)) in
  if bool_decide (mode = "all-pay") then
    if bool_decide (id p ∈ highestBidders)
    then credit c (pay_own_bid o p) else pay_own_bid o p
  else
    if bool_decide (id p ∈ highestBidders)
    then charge (winner_payment mode highestBid highestBidders
                   secondHighestBid thirdHighestBid) c p
    else p.


(** ** The conditions of the routes *)

(** The bid [amount] of the caller, who is [player] of [game], can be
    placed: the game exists and is in the betting phase, the session is
    one of this game and of one of its players, who has not bid in this
    round, and the amount is a number between 0 and the money of the
    player. *)
Definition acceptable_bid (gameId : string) (betAmount : option Z)
    (games : gmap string Game) (session : Session)
    (game : Game) (player : Player) (amount : Z) : Prop :=
  games !! gameId = Some game
  /\ (exists u, user session = Some u /\ user_gameId u = gameId
                /\ find_player (user_playerId u) game = Some player)
  /\ status game = betting
  /\ bets game !! id player = None
  /\ betAmount = Some amount
  /\ 0 <= amount <= money player.

(** The caller may reset [game]: the game exists, the session is one of
    this game and of one of its players, and that player is the host. *)
Definition reset_allowed (gameId : string) (games : gmap string Game)
    (session : Session) (game : Game) : Prop :=
  games !! gameId = Some game
  /\ exists u player, user session = Some u /\ user_gameId u = gameId
       /\ find_player (user_playerId u) game = Some player
       /\ host player = true.

(** Every bid of the ledger is the bid of a player of the game. *)
Definition known_bidders (g : Game) : Prop :=
  forall k, is_Some (bets g !! k) -> k ∈ map id (players g).

(** ** What the requests do to one game *)

(** The game that the creation route stores. *)
Definition new_game (gameId playerId : string) (now : Z)
    (username gameMode : string) : Game :=
  mkGame gameId now gameMode [mkPlayer playerId username 100 0 true]
    0 (getTotalRoundsForPlayerCount 1) 3 waiting ∅ None None ∅ false
    None None ∅.

(** The changes of a game of the registry, one constructor for each handler
    that changes a game: a player joins, the host starts the game, a player
    bids (and the round is settled when the ledger closes), the host
    advances (to the end of the game or to the next round), the host
    resets the game, the timer hides the results of the round. *)
Inductive game_step : Game -> Game -> Prop :=
| step_join (g : Game) (playerId username : string) :
    status g = waiting ->
    game_step g
      (set_totalRounds
         (getTotalRoundsForPlayerCount
            (Z.of_nat (length (players g ++ [mkPlayer playerId username 100 0 false]))))
         (set_players (players g ++ [mkPlayer playerId username 100 0 false]) g))
| step_start (g : Game) :
    status g = waiting -> (2 <= length (players g))%nat ->
    game_step g (set_bets ∅ (set_currentRound 1 (set_status betting g)))
| step_bid (g : Game) (playerId : string) (player : Player) (amount : Z) :
    status g = betting ->
    find_player playerId g = Some player ->
    bets g !! id player = None ->
    0 <= amount <= money player ->
    forallb (fun p => bool_decide
                        (is_Some (<[id player := amount]> (bets g) !! id p)))
      (players g) = false ->
    game_step g (set_bets (<[id player := amount]> (bets g)) g)
| step_last_bid (g g' : Game) (playerId : string) (player : Player) (amount : Z) :
    status g = betting ->
    find_player playerId g = Some player ->
    bets g !! id player = None ->
    0 <= amount <= money player ->
    forallb (fun p => bool_decide
                        (is_Some (<[id player := amount]> (bets g) !! id p)))
      (players g) = true ->
    completeRound (set_bets (<[id player := amount]> (bets g)) g) = Some g' ->
    game_step g g'
| step_end (g g' : Game) :
    status g = roundComplete -> shouldEndGame g = true ->
    determineOverallWinner (set_status gameComplete g) = Some g' ->
    game_step g g'
| step_next (g : Game) :
    status g = roundComplete -> shouldEndGame g = false ->
    game_step g
      (set_showRoundResults false
         (set_roundWinners None
            (set_bets ∅
               (set_status betting
                  (set_currentRound (currentRound g + 1) g)))))
| step_reset (g g' : Game) :
    players g' = map (fun p => set_roundsWon 0 (set_money 100 p)) (players g) ->
    currentRound g' = 0 -> status g' = waiting -> bets g' = ∅ ->
    gameMode g' = gameMode g -> totalRounds g' = totalRounds g ->
    roundsToWin g' = roundsToWin g ->
    game_step g g'
| step_hide (g : Game) :
    game_step g (set_showRoundResults false g).

(** ** Invariants of the games of the server *)

(** The money of the first player of [ps] with the id [k]: the player that
    [find] gives for that id. *)
Definition floor_of (k : string) (ps : list Player) : option Z :=
  money <$> List.find (fun p => bool_decide (id p = k)) ps.

(** No player is in debt, and a player has at least the money of the first
    player with the same id (when two ids coincide, a session of either
    player acts for the first one). *)
Definition solvent (ps : list Player) : Prop :=
  (forall p, p ∈ ps -> 0 <= money p)
  /\ (forall q m, q ∈ ps -> floor_of (id q) ps = Some m -> m <= money q).

(** The invariant behind [money >= 0]: the players are solvent; in the
    betting phase every bid of the ledger is the bid of a player and every
    player can afford the bid recorded under the id of that player; in the
    waiting phase every player has the initial 100. *)
Definition money_inv (g : Game) : Prop :=
  solvent (players g)
  /\ (status g = betting -> known_bidders g)
  /\ (status g = betting ->
      forall p b, p ∈ players g -> bets g !! id p = Some b -> 0 <= b <= money p)
  /\ (status g = waiting -> forall p, p ∈ players g -> money p = 100).

(** The invariant behind the number of rounds: it is the one for the
    number of players, and there is a player. *)
Definition rounds_inv (g : Game) : Prop :=
  totalRounds g = getTotalRoundsForPlayerCount (Z.of_nat (length (players g)))
  /\ roundsToWin g = 3%Q
  /\ players g <> [].

(** ** Sample games *)

(** A game in the state [status] with the given mode, players, round and
    ledger; the other fields are as the creation route sets them. *)
Definition sample_game (mode : string) (ps : list Player) (round : Z)
    (st : Status) (ledger : gmap string Z) : Game :=
  mkGame "ROOM01" 1700000000000 mode ps round
    (getTotalRoundsForPlayerCount (Z.of_nat (length ps))) 3 st ledger
    None None ∅ false None None ∅.

Definition ann : Player := mkPlayer "p1" "ann" 50 2.5 true.
Definition bob : Player := mkPlayer "p2" "bob" 50 2.5 false.

(** Two players with as many wins and as much money at the end of a
    standard game: in each of the five rounds both have bid 10. *)
Definition tied_game : Game :=
  sample_game "standard" [ann; bob] 5 roundComplete ∅.

(** A decision procedure for [wf_game], for the sample games. *)
Definition wf_gameb (g : Game) : bool :=
  bool_decide (NoDup (map id (players g)))
  && forallb (fun e => bool_decide (e.1 ∈ map id (players g)))
       (map_to_list (bets g)).

(** Three players in the first round, with the given mode and bids. *)
Definition p1 : Player := mkPlayer "p1" "ann" 100 0 true.
Definition p2 : Player := mkPlayer "p2" "bob" 100 0 false.
Definition p3 : Player := mkPlayer "p3" "cyd" 100 0 false.

Definition ledger3 (b1 b2 b3 : Z) : gmap string Z :=
  <["p3" := b3]> (<["p2" := b2]> (<["p1" := b1]> ∅)).

Definition round_of_three (mode : string) (b1 b2 b3 : Z) : Game :=
  sample_game mode [p1; p2; p3] 1 betting (ledger3 b1 b2 b3).

(** The game after [completeRound]. *)
Definition settled (g : Game) : Game := default g (completeRound g).


(** An all-pay round with two highest bidders, and a Vickrey round with
    two highest bidders and a third bid. *)
Definition all_pay_round : Game := round_of_three "all-pay" 50 30 50.
Definition vickrey_tie_round : Game := round_of_three "vickrey" 40 40 20.

(** A Vickrey round with a single highest bidder, and one in which the
    only two bids are tied (the third player has not bid). *)
Definition vickrey_round : Game := round_of_three "vickrey" 50 30 10.
Definition vickrey_pair_round : Game :=
  sample_game "vickrey" [p1; p2] 1 betting (<["p2" := 40]> (<["p1" := 40]> ∅)).

(** A registry with one game of three players in its third round, and the
    sessions of its players. *)
Definition ann3 : Player := mkPlayer "p1" "ann" 40 1.5 true.
Definition bob3 : Player := mkPlayer "p2" "bob" 75 0.5 false.
Definition cyd3 : Player := mkPlayer "p3" "cyd" 90 0 false.

Definition third_round : Game :=
  sample_game "standard" [ann3; bob3; cyd3] 3 betting (<["p2" := 20]> ∅).

Definition one_game : gmap string Game := {["ROOM01" := third_round]}.

Definition session_of (p : Player) : Session :=
  mkSession (Some (mkUser "ROOM01" (id p) (name p))) None.

(** A run of the server: a Vickrey game is created, two players join, the
    host starts it, and the three players bid 40, 40 and 20. *)
Definition no_session : Session := mkSession None None.

Definition sample_run : list (Request * Session) :=
  [(Create "ROOM01" "p1" 1700000000000 (Some "ann") (Some "vickrey"), no_session);
   (Join "p2" (Some "room01") (Some "bob"), no_session);
   (Join "p3" (Some "ROOM01") (Some "cyd"), no_session);
   (Start "ROOM01", session_of p1);
   (PlaceBet "ROOM01" (Some 40), session_of p1);
   (PlaceBet "ROOM01" (Some 40), session_of p2);
   (PlaceBet "ROOM01" (Some 20), session_of p3)].

Definition after_sample_run : gmap string Game :=
  default ∅ (run sample_run ∅).

(** A standard game of two players who bid 10 in each of the five
    rounds. *)
Definition ann_session : Session :=
  mkSession (Some (mkUser "ROOM02" "p1" "ann")) None.
Definition bob_session : Session :=
  mkSession (Some (mkUser "ROOM02" "p2" "bob")) None.

Definition tie_round : list (Request * Session) :=
  [(PlaceBet "ROOM02" (Some 10), ann_session);
   (PlaceBet "ROOM02" (Some 10), bob_session);
   (NextRound "ROOM02", ann_session)].

Definition tie_run : list (Request * Session) :=
  [(Create "ROOM02" "p1" 1700000000000 (Some "ann") (Some "standard"), no_session);
   (Join "p2" (Some "ROOM02") (Some "bob"), no_session);
   (Start "ROOM02", ann_session)]
  ++ tie_round ++ tie_round ++ tie_round ++ tie_round
  ++ [(PlaceBet "ROOM02" (Some 10), ann_session);
      (PlaceBet "ROOM02" (Some 10), bob_session)].
(** * The routes that only read *)

(** What the two pages are rendered with: [res.render('index', ...)] and
    [res.render('game', ...)]; or the redirection to the home page. *)
Inductive Page :=
| PageRedirect (url : string)
| RenderIndex (user : option User) (error : option string)
| RenderGame (game : Game) (player : Player) (error : option string).

(** [app.get('/')]: the page shows the error message of the session, and
    the message is deleted. *)
Definition home (session : Session) : Session * Page :=
  (mkSession (user session) None,
   RenderIndex (user session) (error session)).

(** [app.get('/game/:gameId')]. *)
Definition page (gameId : string) (games : gmap string Game)
    (session : Session) : Session * Page :=
  match games !! gameId with
  | None =>
    (mkSession (user session) (Some "Game not found"), PageRedirect "/")
  | Some game =>
    let refuse message :=
      (mkSession (user session) (Some message), PageRedirect "/") in
    match user session with
    | None => refuse "You are not in this game"
    | Some u =>
      if negb (bool_decide (user_gameId u = gameId)) then
        refuse "You are not in this game"
      else
        match find_player (user_playerId u) game with
        | None => refuse "Player not found"
        | Some player =>
          (mkSession (user session) None,
           RenderGame game player (error session))
        end
    end
  end.

(** An entry of [gameState.players], and [gameState.overallWinner]. *)
Record PlayerView := mkPlayerView {
  view_id : string;
  view_name : string;
  view_money : Z;
  view_roundsWon : Q;
  view_host : bool;
  hasBet : bool
}.

Record WinnerView := mkWinnerView {
  winner_id : string;
  winner_name : string;
  winner_roundsWon : Q;
  winner_money : Z
}.

(** The object [gameState] that the polling route sends. *)
Record GameState := mkGameState {
  state_players : list PlayerView;
  state_currentRound : Z;
  state_totalRounds : Z;
  state_roundsToWin : Q;
  state_status : Status;
  state_gameMode : string;
  state_roundWinners : option (list string);
  state_overallWinner : option WinnerView;
  myBet : option Z;
  isMyTurn : bool;
  amHost : bool;
  state_lastRoundBets : gmap string Z;
  state_showRoundResults : bool;
  state_secondHighestBid : option Z;
  state_actualPayments : gmap string Z
}.

(** [app.get('/game/:gameId/state')]: an error, or the state of the game
    as the player of the session may see it. *)
Definition state (gameId : string) (games : gmap string Game)
    (session : Session) : Response + GameState :=
  match lookup_game gameId games session with
  | inl r => inl r
  | inr (game, u) =>
    match find_player (user_playerId u) game with
    | None => inl (JsonError 404 "Player not found")
    | Some player =>
      inr (mkGameState
             (map (fun p =>
                     mkPlayerView (id p) (name p) (money p) (roundsWon p)
                       (host p) (bool_decide (is_Some (bets game !! id p))))
                (players game))
             (currentRound game) (totalRounds game) (roundsToWin game)
             (status game) (gameMode game) (roundWinners game)
             ((fun w => mkWinnerView (id w) (name w) (roundsWon w) (money w))
                <$> overallWinner game)
             (bets game !! id player)
             (bool_decide (status game = betting)
              && negb (bool_decide (is_Some (bets game !! id player))))
             (host player)
             (lastRoundBets game) (showRoundResults game)
             (secondHighestBid game) (actualPayments game))
    end
  end.

(** * The changes of a game, in full *)

(** The games that the join, start, next-round and reset routes store. *)
Definition joined (playerId username : string) (g : Game) : Game :=
  set_totalRounds
    (getTotalRoundsForPlayerCount
       (Z.of_nat (length (players g ++ [mkPlayer playerId username 100 0 false]))))
    (set_players (players g ++ [mkPlayer playerId username 100 0 false]) g).

Definition started (g : Game) : Game :=
  set_bets ∅ (set_currentRound 1 (set_status betting g)).

Definition advanced (g : Game) : Game :=
  set_showRoundResults false
    (set_roundWinners None
       (set_bets ∅
          (set_status betting (set_currentRound (currentRound g + 1) g)))).

Definition reset_game (g : Game) : Game :=
  set_actualPayments ∅
    (set_secondHighestBid None
       (set_showRoundResults false
          (set_lastRoundBets ∅
             (set_overallWinner None
                (set_roundWinners None
                   (set_bets ∅
                      (set_status waiting
                         (set_currentRound 0
                            (set_players
                               (map (fun p => set_roundsWon 0 (set_money 100 p))
                                  (players g))
                               g))))))))).

(** The ledger of [g] with the bid [amount] of [player], settled when it
    is the last bid of the round. *)
Definition with_bid (player : Player) (amount : Z) (g : Game) : option Game :=
  let g1 := set_bets (<[id player := amount]> (bets g)) g in
  if forallb (fun p => bool_decide (is_Some (bets g1 !! id p))) (players g1)
  then completeRound g1 else Some g1.

(** The caller is the host of [game]: the game is in the registry, the
    session is one of this game, and the first player with the id of the
    session has the host flag. *)
Definition is_host (gameId : string) (games : gmap string Game)
    (session : Session) (game : Game) : Prop :=
  games !! gameId = Some game
  /\ exists u player, user session = Some u /\ user_gameId u = gameId
       /\ find_player (user_playerId u) game = Some player
       /\ host player = true.

(** The changes of a game of the registry by the handlers, with all that
    the handlers check before them: a join needs a name that is not blank
    and not taken, and a reset gives [reset_game]. *)
Inductive game_change : Game -> Game -> Prop :=
| change_join (g : Game) (playerId username : string) :
    status g = waiting ->
    blank (Some username) = false ->
    (forall p, p ∈ players g -> name p <> username) ->
    game_change g (joined playerId username g)
| change_start (g : Game) :
    status g = waiting -> (2 <= length (players g))%nat ->
    game_change g (started g)
| change_bid (g g' : Game) (playerId : string) (player : Player) (amount : Z) :
    status g = betting ->
    find_player playerId g = Some player ->
    bets g !! id player = None ->
    0 <= amount <= money player ->
    with_bid player amount g = Some g' ->
    game_change g g'
| change_end (g g' : Game) :
    status g = roundComplete -> shouldEndGame g = true ->
    determineOverallWinner (set_status gameComplete g) = Some g' ->
    game_change g g'
| change_next (g : Game) :
    status g = roundComplete -> shouldEndGame g = false ->
    game_change g (advanced g)
| change_reset (g : Game) :
    (exists p, p ∈ players g /\ host p = true) ->
    game_change g (reset_game g)
| change_hide (g : Game) :
    game_change g (set_showRoundResults false g).

(** ** Invariants of the phases of a game *)

(** What the status of a game says of its round counter, of its ledger and
    of its players. *)
Definition phase_inv (g : Game) : Prop :=
  (status g = waiting ->
   currentRound g = 0 /\ bets g = ∅
   /\ forall p, p ∈ players g -> money p = 100 /\ roundsWon p = 0%Q)
  /\ (status g <> waiting ->
      1 <= currentRound g <= totalRounds g /\ (2 <= length (players g))%nat)
  /\ (status g = betting ->
      (exists p, p ∈ players g /\ bets g !! id p = None)
      /\ (gameMode g = "all-pay" ->
          forall p, p ∈ players g -> (roundsWon p < roundsToWin g)%Q))
  /\ (status g = roundComplete \/ status g = gameComplete ->
      (forall p, p ∈ players g -> is_Some (bets g !! id p))
      /\ lastRoundBets g = bets g
      /\ (shouldEndGame g = true <-> status g = gameComplete)).

(** The first of the host flags is set and no other is. *)
Definition host_first (hs : list bool) : Prop :=
  exists hs', hs = true :: hs' /\ forall h, h ∈ hs' -> h = false.

(** The players of a game: the first one is the host and no other is, no
    two have the same name, no name is blank, nobody has more than the
    initial 100 or a negative number of wins. *)
Definition players_inv (g : Game) : Prop :=
  (exists p ps, players g = p :: ps /\ host p = true
                /\ forall q, q ∈ ps -> host q = false)
  /\ NoDup (map name (players g))
  /\ (forall p, p ∈ players g -> blank (Some (name p)) = false)
  /\ (forall p, p ∈ players g -> money p <= 100 /\ (0 <= roundsWon p)%Q).

(** What is shown of the result: there is an overall winner exactly when
    the game is over, and it is the record of one of the players at that
    time; the results of a round are only shown after a round. *)
Definition result_inv (g : Game) : Prop :=
  (is_Some (overallWinner g) <-> status g = gameComplete)
  /\ (forall w, overallWinner g = Some w -> w ∈ players g)
  /\ (showRoundResults g = true ->
      status g = roundComplete \/ status g = gameComplete)
  /\ (is_Some (roundWinners g) <->
      status g = roundComplete \/ status g = gameComplete).


(** * Further vocabulary *)

(** ** What a settlement may do to a player *)

(** [p'] is [p] after a settlement of the ledger [o]: the same id, name and
    host flag, no fewer wins, and, when no bid of the ledger is negative,
    no more money. *)
Definition settles_to (o : gmap string Z) (p p' : Player) : Prop :=
  id p' = id p /\ name p' = name p /\ host p' = host p
  /\ (roundsWon p <= roundsWon p')%Q
  /\ ((forall k b, o !! k = Some b -> 0 <= b) -> money p' <= money p).


(** The same ledger as [vickrey_tie_round] in the two other modes. *)
Definition all_pay_tie_round : Game := round_of_three "all-pay" 40 40 20.
Definition standard_tie_round : Game := round_of_three "standard" 40 40 20.

(** The last round of an all-pay game in which [ann] has 2.5 wins before
    the round and ties it with [bob]. *)
Definition deciding_round : Game :=
  sample_game "all-pay"
    [mkPlayer "p1" "ann" 30 2.5 true; mkPlayer "p2" "bob" 60 1.5 false] 4
    betting (<["p2" := 20]> (<["p1" := 20]> ∅)).

(** ** What the routes need *)

(** [req.body.gameMode || 'all-pay']. *)
Definition mode_of (gameMode : option string) : string :=
  match gameMode with
  | Some m => if bool_decide (m = "") then "all-pay" else m
  | None => "all-pay"
  end.

(** The join route accepts the request: the code typed is, in upper case,
    the id of a game that is waiting for players, and the name is not
    blank and not the name of a player of that game. *)
Definition join_allowed (gameId username : option string)
    (games : gmap string Game) (i n : string) (game : Game) : Prop :=
  (exists i0, gameId = Some i0 /\ i0 <> "" /\ i = toUpperCase i0)
  /\ username = Some n /\ blank username = false
  /\ games !! i = Some game /\ status game = waiting
  /\ forall p, p ∈ players game -> name p <> n.

(** The start route accepts the request. *)
Definition start_allowed (gameId : string) (games : gmap string Game)
    (session : Session) (game : Game) : Prop :=
  is_host gameId games session game
  /\ (2 <= length (players game))%nat /\ status game = waiting.

(** The next-round route accepts the request. *)
Definition nextround_allowed (gameId : string) (games : gmap string Game)
    (session : Session) (game : Game) : Prop :=
  is_host gameId games session game /\ status game = roundComplete.

(** The invariant of the games of the server: the invariants above, and
    the field [id] of a game is its key in the registry. *)
Definition game_inv (gameId : string) (g : Game) : Prop :=
  rounds_inv g /\ money_inv g /\ phase_inv g /\ players_inv g
  /\ result_inv g /\ game_id g = gameId.

(** The game of the registry after [sample_run]. *)
Definition sample_result : Game :=
  default (new_game "ROOM01" "p1" 1700000000000 "ann" "vickrey")
    (after_sample_run !! "ROOM01").

(** The registry after the creation of a game that two players join, and
    its game. *)
Definition lobby_run : list (Request * Session) :=
  [(Create "ROOM01" "p1" 1700000000000 (Some "ann") (Some "vickrey"), no_session);
   (Join "p2" (Some "room01") (Some "bob"), no_session);
   (Join "p3" (Some "ROOM01") (Some "cyd"), no_session)].

Definition lobby : gmap string Game := default ∅ (run lobby_run ∅).

Definition lobby_game : Game :=
  default (new_game "ROOM01" "p1" 1700000000000 "ann" "vickrey")
    (lobby !! "ROOM01").

(** The registry after [tie_run], a standard game of five tied rounds, and
    its game. *)
Definition after_tie_run : gmap string Game := default ∅ (run tie_run ∅).

Definition tie_result : Game :=
  default (new_game "ROOM02" "p1" 1700000000000 "ann" "standard")
    (after_tie_run !! "ROOM02").

(** The registry [one_game] after the bid of 10 of [ann3], and after the
    bid of 30 of [cyd3] that follows. *)
Definition after_bid : gmap string Game :=
  default ∅ ((fun o : Outcome => o.1.1)
             <$> bet "ROOM01" (Some 10) one_game (session_of ann3)).

(** [one_game] with another bid of [bob3]. *)
Definition one_game_other_bid : gmap string Game :=
  {["ROOM01" := set_bets (<["p2" := 55]> ∅) third_round]}.

(** The difference between the ledgers [o1] and [o2] is hidden from the
    player [k]: the same players have bid, and the bid of [k] is the
    same. *)
Definition sealed_for (k : string) (o1 o2 : gmap string Z) : Prop :=
  (forall j, is_Some (o1 !! j) <-> is_Some (o2 !! j)) /\ o1 !! k = o2 !! k.

(** The letters of [s] are ASCII characters, as the ones of a game id
    are. *)
Definition ascii_only (s : string) : Prop :=
  Forall (fun c => (N_of_ascii c < 128)%N) (list_ascii_of_string s).

(** The player [p] is seen as [v] in the state of the game [g]. *)
Definition view_of (g : Game) (p : Player) (v : PlayerView) : Prop :=
  view_id v = id p /\ view_name v = name p /\ view_money v = money p
  /\ view_roundsWon v = roundsWon p /\ view_host v = host p
  /\ (hasBet v = true <-> is_Some (bets g !! id p)).

(** The registry after the host has started the game of [lobby]. *)
Definition started_lobby : gmap string Game :=
  default ∅ (handle (Start "ROOM01") (session_of p1) lobby).

(** ** Progress *)



(** * Properties *)

(** ** Positions in the list of players *)

Lemma find_first_such {A} (f : A -> bool) (ps : list A) (w : A) :
  List.find f ps = Some w -> first_such (fun p => f p = true) ps w.
Proof.
  induction ps as [|p ps IH]; simpl; [discriminate|].
  destruct (f p) eqn:Hp.
  - intros [= ->]. exists [], ps. split; [reflexivity|]. split; [assumption|].
    intros q Hq. inversion Hq.
  - intros Hw. destruct (IH Hw) as (l1 & l2 & -> & Hfw & Hl1).
    exists (p :: l1), l2. split; [reflexivity|]. split; [assumption|].
    intros q Hq. apply elem_of_cons in Hq as [->|Hq]; [congruence|auto].
Qed.

Lemma find_none_all {A} (f : A -> bool) (ps : list A) :
  List.find f ps = None -> forall p, p ∈ ps -> f p = false.
Proof.
  induction ps as [|q ps IH]; simpl; intros H p Hp; [inversion Hp|].
  destruct (f q) eqn:Hq; [discriminate|].
  apply elem_of_cons in Hp as [->|Hp]; auto.
Qed.

Lemma filter_split {A} (f : A -> bool) (ps : list A) (w : A) (k1 k2 : list A) :
  List.filter f ps = k1 ++ w :: k2 ->
  exists l1 l2, ps = l1 ++ w :: l2 /\ List.filter f l1 = k1
                /\ List.filter f l2 = k2 /\ f w = true.
Proof.
  revert k1. induction ps as [|p ps IH]; simpl; intros k1 H.
  - destruct k1; discriminate.
  - destruct (f p) eqn:Hp.
    + destruct k1 as [|a k1]; simpl in H.
      * injection H as -> Hk. exists [], ps. simpl. auto.
      * injection H as -> Hk. destruct (IH _ Hk) as (l1 & l2 & -> & H1 & H2 & Hw).
        exists (a :: l1), l2. simpl. rewrite Hp, H1. auto.
    + destruct (IH _ H) as (l1 & l2 & -> & H1 & H2 & Hw).
      exists (p :: l1), l2. simpl. rewrite Hp. auto.
Qed.

Lemma filter_nil_none {A} (f : A -> bool) (ps : list A) :
  List.filter f ps = [] -> forall p, p ∈ ps -> f p = false.
Proof.
  induction ps as [|q ps IH]; simpl; intros H p Hp; [inversion Hp|].
  destruct (f q) eqn:Hq; [discriminate|].
  apply elem_of_cons in Hp as [->|Hp]; auto.
Qed.

Lemma filter_elem {A} (f : A -> bool) (ps : list A) (p : A) :
  p ∈ List.filter f ps <-> p ∈ ps /\ f p = true.
Proof. rewrite !list_elem_of_In. apply filter_In. Qed.

Lemma NoDup_map_filter {A B} (pr : A -> B) (f : A -> bool) (l : list A) :
  NoDup (map pr l) -> NoDup (map pr (List.filter f l)).
Proof.
  induction l as [|b l IH]; simpl; [auto|]. intros Hnd.
  apply NoDup_cons in Hnd as [Hb Hl].
  destruct (f b); simpl; [|auto]. apply NoDup_cons. split; [|auto].
  intros Hin. apply Hb. apply list_elem_of_fmap in Hin as (c & Hc & Hin).
  apply filter_elem in Hin as [Hin _]. apply list_elem_of_fmap. eauto.
Qed.

(** ** The overall winner *)

Lemma Math_max_fold (xs : list Q) (x : Q) :
  let m := fold_left (fun m y => if Qle_bool m y then y else m) xs x in
  (forall y, y ∈ x :: xs -> (y <= m)%Q) /\ m ∈ x :: xs.
Proof.
  revert x. induction xs as [|y xs IH]; intros x; simpl.
  - split; [|left]. intros z Hz. apply list_elem_of_singleton in Hz as ->.
    apply Qle_refl.
  - destruct (Qle_bool x y) eqn:Hxy.
    + destruct (IH y) as [Hmax Hin]. split.
      * intros z Hz. apply elem_of_cons in Hz as [->|Hz]; [|auto].
        apply Qle_trans with y; [by apply Qle_bool_iff|]. apply Hmax. left.
      * by right.
    + destruct (IH x) as [Hmax Hin]. split.
      * intros z Hz. apply elem_of_cons in Hz as [->|Hz]; [apply Hmax; left|].
        apply elem_of_cons in Hz as [->|Hz]; [|apply Hmax; by right].
        apply Qle_trans with x; [|apply Hmax; left].
        apply Qlt_le_weak, Qnot_le_lt. intros Hle.
        apply Qle_bool_iff in Hle. congruence.
      * apply elem_of_cons in Hin as [->|Hin]; [left|by do 2 right].
Qed.

(** [Math.max] of the wins of a non-empty list of players is attained by
    one of them and bounds them all. *)
Lemma Math_max_spec (ps : list Player) :
  ps <> [] ->
  exists m, Math_max (map roundsWon ps) = Some m
            /\ (forall p, p ∈ ps -> (roundsWon p <= m)%Q)
            /\ exists p, p ∈ ps /\ roundsWon p = m.
Proof.
  destruct ps as [|p0 ps]; [congruence|]. intros _. simpl.
  eexists. split; [reflexivity|].
  destruct (Math_max_fold (map roundsWon ps) (roundsWon p0)) as [Hmax Hin].
  split.
  - intros p Hp. apply Hmax. change (roundsWon p ∈ map roundsWon (p0 :: ps)).
    apply list_elem_of_fmap. eauto.
  - change (roundsWon p0 :: map roundsWon ps) with (map roundsWon (p0 :: ps)) in Hin.
    apply list_elem_of_fmap in Hin as (p & Hp & Hin). eauto.
Qed.

(** The money tie-break: [reduce] keeps the current champion only when it
    has strictly more money, so it returns the last of the richest. *)
Lemma reduce_by_money (ps : list Player) :
  ps <> [] ->
  exists w,
    reduce (fun prev current =>
              if money prev >? money current then prev else current) ps = Some w
    /\ last_such (fun p => forall q, q ∈ ps -> money q <= money p) ps w.
Proof.
  destruct ps as [|p0 ps]; [congruence|]. intros _. simpl.
  eexists. split; [reflexivity|].
  set (pick := fun prev current : Player =>
                 if money prev >? money current then prev else current).
  (* the champion [x] stands after [done] and before the players [skipped]
     that lost against it *)
  assert (Hgen : forall rest done x skipped,
    (forall q, q ∈ done -> money q <= money x) ->
    (forall q, q ∈ skipped -> money q < money x) ->
    exists l1 l2,
      done ++ x :: skipped ++ rest = l1 ++ fold_left pick rest x :: l2
      /\ (forall q, q ∈ l1 -> money q <= money (fold_left pick rest x))
      /\ (forall q, q ∈ l2 -> money q < money (fold_left pick rest x))).
  { induction rest as [|y rest IH]; intros done x skipped Hdone Hskip; simpl.
    - exists done, skipped. rewrite app_nil_r. auto.
    - replace (pick x y) with (if money y <? money x then x else y)
        by (unfold pick; by rewrite Z.gtb_ltb).
      destruct (Z.ltb_spec (money y) (money x)) as [Hlt|Hge].
      + destruct (IH done x (skipped ++ [y])) as (l1 & l2 & Heq & H1 & H2);
          [assumption| |].
        { intros q Hq. rewrite elem_of_app, list_elem_of_singleton in Hq.
          destruct Hq as [Hq| ->]; auto. }
        exists l1, l2. rewrite <- app_assoc in Heq. auto.
      + destruct (IH (done ++ x :: skipped) y []) as (l1 & l2 & Heq & H1 & H2).
        { intros q Hq. rewrite elem_of_app, elem_of_cons in Hq.
          destruct Hq as [Hq|[->|Hq]]; [|lia|].
          - specialize (Hdone q Hq). lia.
          - specialize (Hskip q Hq). lia. }
        { intros q Hq. inversion Hq. }
        exists l1, l2. rewrite <- app_assoc in Heq. auto. }
  destruct (Hgen ps [] p0 []) as (l1 & l2 & Heq & H1 & H2).
  { intros q Hq. inversion Hq. }
  { intros q Hq. inversion Hq. }
  simpl in Heq. exists l1, l2. split; [assumption|]. split.
  - intros q Hq. rewrite Heq in Hq. rewrite elem_of_app, elem_of_cons in Hq.
    destruct Hq as [Hq|[->|Hq]]; [auto|lia|]. specialize (H2 q Hq). lia.
  - intros q Hq Hall. specialize (H2 q Hq).
    assert (money (fold_left pick ps p0) <= money q); [|lia].
    apply Hall. rewrite Heq, elem_of_app, elem_of_cons. auto.
Qed.

Lemma determineOverallWinner_players (g g' : Game) :
  determineOverallWinner g = Some g' ->
  exists w, g' = set_overallWinner (Some w) g /\ w ∈ players g.
Proof.
  unfold determineOverallWinner.
  destruct (if bool_decide (gameMode g = "all-pay") then _ else None)
    as [p|] eqn:H3.
  - intros [= <-]. exists p. split; [reflexivity|].
    case_bool_decide; [|discriminate].
    apply find_first_such in H3 as (l1 & l2 & -> & _).
    rewrite elem_of_app, elem_of_cons. auto.
  - set (L := List.filter _ (players g)).
    assert (HL : forall w, w ∈ L -> w ∈ players g).
    { intros w Hw. apply filter_elem in Hw. tauto. }
    destruct L as [|p [|p' L]]; simpl.
    + discriminate.
    + intros [= <-]. exists p. split; [reflexivity|]. apply HL. left.
    + intros [= <-]. eexists. split; [reflexivity|]. apply HL.
      destruct (reduce_by_money (p :: p' :: L)) as (w & Hw & l1 & l2 & Heq & _);
        [discriminate|].
      simpl in Hw. injection Hw as ->. rewrite Heq, elem_of_app, elem_of_cons. auto.
Qed.

(** C1 (as amended): with at least one player, the resolver sets
    [overallWinner] to exactly one player of the game.  In an all-pay game
    in which some player has [roundsWon >= roundsToWin], it is the first
    such player in join order.  Otherwise, in every mode, it is a player
    with the greatest [roundsWon]; among the players tied at that number,
    one with the greatest [money]; and among those again, the last one in
    join order. *)
Theorem overall_winner_resolved (g : Game) :
  players g <> [] ->
  exists w,
    determineOverallWinner g = Some (set_overallWinner (Some w) g)
    /\ w ∈ players g
    /\ (gameMode g = "all-pay" ->
        (exists p, p ∈ players g /\ has_won g p) ->
        first_such (has_won g) (players g) w)
    /\ (~ (gameMode g = "all-pay" /\ exists p, p ∈ players g /\ has_won g p) ->
        last_such (top_player g) (players g) w).
Proof.
  intros Hne. unfold determineOverallWinner.
  destruct (if bool_decide (gameMode g = "all-pay") then _ else None)
    as [p|] eqn:H3.
  - case_bool_decide as Hmode; [|discriminate].
    exists p. split; [reflexivity|].
    apply find_first_such in H3 as (l1 & l2 & Heq & Hp & Hl1).
    split; [rewrite Heq, elem_of_app, elem_of_cons; auto|]. split.
    + intros _ _. exists l1, l2. split; [assumption|]. unfold has_won. split.
      * by apply Qle_bool_iff.
      * intros q Hq Hwon. apply Qle_bool_iff in Hwon.
        specialize (Hl1 q Hq). congruence.
    + intros Hno. exfalso. apply Hno. split; [assumption|]. exists p.
      split; [rewrite Heq, elem_of_app, elem_of_cons; auto|].
      by apply Qle_bool_iff.
  - assert (Hnone : ~ (gameMode g = "all-pay"
                       /\ exists p, p ∈ players g /\ has_won g p)).
    { intros [Hmode (p & Hp & Hwon)]. rewrite bool_decide_eq_true_2 in H3 by done.
      apply (find_none_all _ _ H3) in Hp. apply Qle_bool_iff in Hwon.
      unfold has_won in *. congruence. }
    destruct (Math_max_spec (players g) Hne) as (m & -> & Hmax & pm & Hpm & Hpmm).
    set (L := List.filter (fun p => Qeq_bool (roundsWon p) m) (players g)).
    assert (HLne : L <> []).
    { intros HL. apply (filter_nil_none _ _ HL) in Hpm. rewrite Hpmm in Hpm.
      assert (Qeq_bool m m = true) by (apply Qeq_bool_iff; reflexivity).
      congruence. }
    destruct (reduce_by_money L HLne) as (w & Hw & k1 & k2 & HLeq & Hrich & Hlast).
    exists w. split.
    { destruct L as [|p [|p' L']] eqn:HLs; [congruence| |].
      - simpl in Hw. by injection Hw as ->.
      - simpl in *. by injection Hw as ->. }
    destruct (filter_split _ _ _ _ _ HLeq) as (l1 & l2 & Heq & Hk1 & Hk2 & Hwm).
    apply Qeq_bool_iff in Hwm.
    split; [rewrite Heq, elem_of_app, elem_of_cons; auto|].
    split; [intros Hmode Hex; exfalso; apply Hnone; auto|].
    intros _. exists l1, l2. split; [assumption|].
    assert (HinL : forall q, q ∈ players g -> (roundsWon q == m)%Q -> q ∈ L).
    { intros q Hq Hqm. apply filter_elem. split; [assumption|].
      by apply Qeq_bool_iff. }
    split.
    + split.
      * intros q Hq. rewrite Hwm. by apply Hmax.
      * intros q Hq Hqw. apply Hrich, HinL; [assumption|]. by rewrite Hqw.
    + intros q Hq [Hqmax Hqrich].
      assert (Hqg : q ∈ players g)
        by (rewrite Heq, elem_of_app, elem_of_cons; auto).
      assert (Hqm : (roundsWon q == m)%Q).
      { apply Qle_antisym; [by apply Hmax|]. rewrite <- Hpmm. by apply Hqmax. }
      apply (Hlast q).
      * rewrite <- Hk2. apply filter_elem. split; [assumption|].
        by apply Qeq_bool_iff.
      * intros q' Hq'. apply filter_elem in Hq' as [Hq'g Hq'm].
        apply Qeq_bool_iff in Hq'm. apply Hqrich; [assumption|].
        by rewrite Hq'm, Hqm.
Qed.

Lemma overall_winner_resolved_witness :
  exists w,
    determineOverallWinner tied_game = Some (set_overallWinner (Some w) tied_game)
    /\ w ∈ players tied_game
    /\ (gameMode tied_game = "all-pay" ->
        (exists p, p ∈ players tied_game /\ has_won tied_game p) ->
        first_such (has_won tied_game) (players tied_game) w)
    /\ (~ (gameMode tied_game = "all-pay"
           /\ exists p, p ∈ players tied_game /\ has_won tied_game p) ->
        last_such (top_player tied_game) (players tied_game) w).
Proof.
  apply (overall_winner_resolved tied_game). simpl. discriminate.
Defined.

(** C1 (as stated) fails: [ann] and [bob] are tied on wins and on money,
    [ann] joined first, and the resolver picks [bob]. *)
Lemma overall_winner_not_first_in_join_order :
  overallWinner <$> determineOverallWinner tied_game = Some (Some bob)
  /\ first_such (top_player tied_game) (players tied_game) ann
  /\ ~ first_such (top_player tied_game) (players tied_game) bob.
Proof.
  assert (Htop : top_player tied_game ann).
  { split; intros q Hq; simpl in Hq;
      repeat (apply elem_of_cons in Hq as [->|Hq]); try (by inversion Hq);
      simpl; try lia; apply Qle_refl. }
  split; [reflexivity|]. split.
  - exists [], [bob]. split; [reflexivity|]. split; [exact Htop|].
    intros q Hq. inversion Hq.
  - intros (l1 & l2 & Heq & _ & Hl1). simpl in Heq.
    destruct l1 as [|a l1]; [discriminate|].
    injection Heq as <- _. apply (Hl1 ann); [left|exact Htop].
Qed.

(** The tie of [tied_game] comes out of a run: two players of a standard
    game bid 10 in each of the five rounds; the game ends with 50 of money
    and 2.5 wins each, and the overall winner is [bob], who joined
    second. *)
Example tie_run_winner :
  (fun g => (status g, map money (players g),
             name <$> overallWinner g,
             forallb (fun p => Qeq_bool (roundsWon p) 2.5) (players g)))
  <$> default ∅ (run tie_run ∅) !! "ROOM02"
  = Some (gameComplete, [50; 50], Some "bob", true).
Proof. vm_compute. reflexivity. Qed.

(** ** The ranking of the bids *)

Lemma insert_desc_perm (b : Bid) (l : list Bid) : insert_desc b l ≡ₚ b :: l.
Proof.
  induction l as [|c l IH]; simpl; [reflexivity|].
  destruct (amount b <? amount c); [|reflexivity].
  rewrite IH. apply Permutation_swap.
Qed.

Lemma sort_desc_perm (l : list Bid) : sort_desc l ≡ₚ l.
Proof.
  induction l as [|b l IH]; simpl; [reflexivity|].
  rewrite insert_desc_perm. by rewrite IH.
Qed.

Lemma insert_desc_sorted (b : Bid) (l : list Bid) :
  sorted_desc l -> sorted_desc (insert_desc b l).
Proof.
  induction l as [|c l IH]; simpl; [auto|]. intros [Hc Hl].
  destruct (Z.ltb_spec (amount b) (amount c)) as [Hlt|Hge]; simpl.
  - split; [|auto]. rewrite insert_desc_perm. constructor; [lia|assumption].
  - split; [|auto]. constructor; [assumption|].
    eapply Forall_impl; [exact Hc|]. simpl. intros; lia.
Qed.

Lemma sort_desc_sorted (l : list Bid) : sorted_desc (sort_desc l).
Proof.
  induction l as [|b l IH]; simpl; [exact I|]. by apply insert_desc_sorted.
Qed.

Lemma find_head_filter {A} (f : A -> bool) (l : list A) :
  List.find f l = head (List.filter f l).
Proof. induction l as [|a l IH]; simpl; [reflexivity|]. by destruct (f a). Qed.

(** In a ranked list, the first bid that passes a test is the greatest of
    the bids that pass it. *)
Lemma head_filter_sorted (f : Bid -> bool) (l : list Bid) (b : Bid) :
  sorted_desc l ->
  head (List.filter f l) = Some b ->
  b ∈ l /\ f b = true
  /\ forall c, c ∈ l -> f c = true -> amount c <= amount b.
Proof.
  induction l as [|a l IH]; simpl; [discriminate|]. intros [Ha Hl].
  destruct (f a) eqn:Hfa; simpl.
  - intros [= ->]. split; [left|]. split; [assumption|].
    intros c Hc _. apply elem_of_cons in Hc as [->|Hc]; [lia|].
    rewrite Forall_forall in Ha. by apply Ha.
  - intros Hb. destruct (IH Hl Hb) as (Hin & Hfb & Hmax).
    split; [by right|]. split; [assumption|].
    intros c Hc Hfc. apply elem_of_cons in Hc as [->|Hc]; [congruence|auto].
Qed.

Lemma head_filter_none {A} (f : A -> bool) (l : list A) :
  head (List.filter f l) = None -> forall c, c ∈ l -> f c = false.
Proof.
  intros H. apply filter_nil_none. by destruct (List.filter f l).
Qed.

Lemma elem_of_entries (o : gmap string Z) (b : Bid) :
  b ∈ entries o <-> o !! playerId b = Some (amount b).
Proof.
  unfold entries. rewrite list_elem_of_fmap. split.
  - intros ([k v] & -> & Hkv). simpl. by apply elem_of_map_to_list.
  - intros Hb. exists (playerId b, amount b). split; [by destruct b|].
    by apply elem_of_map_to_list.
Qed.

Lemma entries_playerId (o : gmap string Z) :
  map playerId (entries o) = (map_to_list o).*1.
Proof.
  unfold entries. rewrite map_map. reflexivity.
Qed.

Lemma NoDup_entries (o : gmap string Z) : NoDup (map playerId (entries o)).
Proof. rewrite entries_playerId. apply NoDup_fst_map_to_list. Qed.

Lemma entries_nil (o : gmap string Z) : entries o = [] <-> o = ∅.
Proof.
  unfold entries. split.
  - intros H. apply map_to_list_empty_iff. by destruct (map_to_list o).
  - intros ->. by rewrite map_to_list_empty.
Qed.

Lemma elem_of_sorted_entries (o : gmap string Z) (b : Bid) :
  b ∈ sort_desc (entries o) <-> o !! playerId b = Some (amount b).
Proof. rewrite sort_desc_perm. apply elem_of_entries. Qed.

Lemma ranking_none (o : gmap string Z) : ranking o = None <-> o = ∅.
Proof.
  unfold ranking. rewrite <- entries_nil. split.
  - destruct (sort_desc (entries o)) eqn:Hs; [|discriminate]. intros _.
    apply Permutation_nil_r. rewrite <- Hs. by rewrite sort_desc_perm.
  - intros ->. reflexivity.
Qed.

Lemma filter_length_all {A} (f : A -> bool) (l : list A) :
  (length l <= length (List.filter f l))%nat -> forall x, x ∈ l -> f x = true.
Proof.
  induction l as [|a l IH]; simpl; intros Hlen x Hx; [inversion Hx|].
  pose proof (List.filter_length_le f l) as Hle.
  destruct (f a) eqn:Hfa; simpl in Hlen; [|lia].
  apply elem_of_cons in Hx as [->|Hx]; [assumption|].
  apply IH; [lia|assumption].
Qed.

(** The ranking computed by the code is the one of the rules. *)
Lemma ranking_spec_match (o : gmap string Z) :
  match ranking o with
  | None => True
  | Some (h, hb, s, t) =>
    is_highest o h
    /\ (forall k, k ∈ hb <-> o !! k = Some h)
    /\ NoDup hb
    /\ match s with
       | Some s => is_second_highest o h s
       | None => all_tied o h
       end
    /\ match t with
       | Some t => (2 <= length hb)%nat /\ is_third_highest o h t
       | None => (length hb <= 1)%nat \/ all_tied o h
       end
  end.
Proof.
  unfold ranking.
  pose proof (sort_desc_sorted (entries o)) as Hsorted.
  pose proof (elem_of_sorted_entries o) as Hin.
  assert (Hnd : NoDup (map playerId (sort_desc (entries o)))).
  { assert (Hp : map playerId (sort_desc (entries o)) ≡ₚ map playerId (entries o))
      by apply (fmap_Permutation playerId), sort_desc_perm.
    rewrite Hp. apply NoDup_entries. }
  destruct (sort_desc (entries o)) as [|bid0 rest] eqn:Hbids; [exact I|].
  cbv beta iota zeta.
  set (bids := bid0 :: rest) in *.
  set (h := amount bid0).
  set (hb := map playerId (List.filter (fun bid => amount bid =? h) bids)).
  assert (Hmax : forall c, c ∈ bids -> amount c <= h).
  { intros c Hc. destruct Hsorted as [Hall _].
    apply elem_of_cons in Hc as [->|Hc]; [unfold h; lia|].
    rewrite Forall_forall in Hall. by apply Hall. }
  assert (Hbid : forall k b, o !! k = Some b <-> mkBid k b ∈ bids).
  { intros k b. by rewrite Hin. }
  assert (Hhb : forall k, k ∈ hb <-> o !! k = Some h).
  { intros k. unfold hb. rewrite list_elem_of_fmap. split.
    - intros (b & -> & Hb). apply filter_elem in Hb as [Hb Hbh].
      apply Z.eqb_eq in Hbh. rewrite <- Hbh. by apply Hin.
    - intros Hk. exists (mkBid k h). split; [reflexivity|].
      apply filter_elem. split; [by apply Hbid|]. simpl. apply Z.eqb_refl. }
  assert (Hhigh : is_highest o h).
  { split.
    - exists (playerId bid0). apply Hin. left.
    - intros k b Hk. apply Hbid in Hk. apply (Hmax _ Hk). }
  split; [exact Hhigh|]. split; [exact Hhb|].
  split; [by apply NoDup_map_filter|].
  split.
  - (* the second-highest bid *)
    assert (Hs : (if Z.of_nat (length bids) >? 1
                  then amount <$> List.find (fun bid => amount bid <? h) bids
                  else None)
                 = amount <$> head (List.filter (fun bid => amount bid <? h) bids)).
    { rewrite find_head_filter. destruct (Z.of_nat (length bids) >? 1) eqn:Hlen;
        [reflexivity|].
      rewrite Z.gtb_ltb in Hlen. apply Z.ltb_ge in Hlen.
      destruct rest; [|simpl in Hlen; lia].
      subst bids. simpl. unfold h. by rewrite Z.ltb_irrefl. }
    rewrite Hs.
    destruct (head (List.filter (fun bid => amount bid <? h) bids)) as [b|] eqn:Hhead;
      simpl.
    + destruct (head_filter_sorted _ _ _ Hsorted Hhead) as (Hb & Hlt & Hbmax).
      apply Z.ltb_lt in Hlt. split; [|split; [assumption|]].
      * exists (playerId b). by apply Hin.
      * intros k c Hk Hc. apply Hbid in Hk.
        apply (Hbmax _ Hk). simpl. by apply Z.ltb_lt.
    + intros k b Hk. apply Hbid in Hk.
      pose proof (head_filter_none _ _ Hhead _ Hk) as Hge. simpl in Hge.
      apply Z.ltb_ge in Hge. specialize (Hmax _ Hk). simpl in Hmax. lia.
  - (* the third-highest bid *)
    destruct (Z.of_nat (length bids) >? 2) eqn:Hlen; cbn [andb].
    + destruct (Z.of_nat (length hb) >? 1) eqn:Hties; cbn [andb].
      * rewrite Z.gtb_ltb in Hties. apply Z.ltb_lt in Hties.
        destruct (head (List.filter
                    (fun bid => negb (bool_decide (playerId bid ∈ hb))) bids))
          as [b|] eqn:Hhead; cbn [fmap option_fmap option_map].
        -- destruct (head_filter_sorted _ _ _ Hsorted Hhead) as (Hb & Hnw & Hbmax).
           apply negb_true_iff, bool_decide_eq_false in Hnw.
           split; [lia|]. split.
           ++ exists (playerId b). split; [by apply Hin|]. by rewrite <- Hhb.
           ++ intros k c Hk Hc. apply Hbid in Hk. apply (Hbmax _ Hk). simpl.
              apply negb_true_iff, bool_decide_eq_false. by rewrite Hhb.
        -- right. intros k b Hk.
           pose proof Hk as Hk'. apply Hbid in Hk'.
           pose proof (head_filter_none _ _ Hhead _ Hk') as Hw. simpl in Hw.
           apply negb_false_iff, bool_decide_eq_true in Hw.
           apply Hhb in Hw. congruence.
      * left. rewrite Z.gtb_ltb in Hties. apply Z.ltb_ge in Hties. lia.
    + rewrite Z.gtb_ltb in Hlen. apply Z.ltb_ge in Hlen.
      destruct (le_lt_dec (length hb) 1) as [Hle|Hgt]; [by left|right].
      assert (Hall : forall x, x ∈ bids -> (amount x =? h) = true).
      { apply filter_length_all. unfold hb in Hgt. rewrite length_map in Hgt. lia. }
      intros k b Hk. apply Hbid in Hk. apply Hall in Hk. simpl in Hk. lia.
Qed.

Lemma ranking_spec (o : gmap string Z) h hb s t :
  ranking o = Some (h, hb, s, t) ->
  is_highest o h
  /\ (forall k, k ∈ hb <-> o !! k = Some h)
  /\ NoDup hb
  /\ match s with
     | Some s => is_second_highest o h s
     | None => all_tied o h
     end
  /\ match t with
     | Some t => (2 <= length hb)%nat /\ is_third_highest o h t
     | None => (length hb <= 1)%nat \/ all_tied o h
     end.
Proof. intros H. pose proof (ranking_spec_match o) as Hm. by rewrite H in Hm. Qed.

(** ** Updating the winners *)

Lemma update_first_NoDup (w : string) (f : Player -> Player) (ps : list Player) :
  NoDup (map id ps) -> w ∈ map id ps ->
  update_first w f ps
  = Some (map (fun p => if bool_decide (id p = w) then f p else p) ps).
Proof.
  induction ps as [|p ps IH]; simpl; intros Hnd Hw; [inversion Hw|].
  apply NoDup_cons in Hnd as [Hp Hnd].
  case_bool_decide as Hpw.
  - f_equal. f_equal. symmetry. rewrite <- (map_id ps) at 2.
    apply map_ext_in. intros q Hq. case_bool_decide; [|reflexivity].
    exfalso. apply Hp. apply list_elem_of_fmap. exists q.
    split; [congruence|by apply list_elem_of_In].
  - apply elem_of_cons in Hw as [->|Hw]; [congruence|].
    by rewrite IH.
Qed.

Lemma update_all_NoDup (ws : list string) (f : Player -> Player)
    (ps : list Player) :
  (forall p, id (f p) = id p) ->
  NoDup (map id ps) -> NoDup ws -> (forall w, w ∈ ws -> w ∈ map id ps) ->
  update_all ws f ps
  = Some (map (fun p => if bool_decide (id p ∈ ws) then f p else p) ps).
Proof.
  intros Hf. revert ps. induction ws as [|w ws IH]; simpl; intros ps Hnd Hws Hin.
  - f_equal. rewrite <- (map_id ps) at 1. apply map_ext. intros p.
    reflexivity.
  - apply NoDup_cons in Hws as [Hw Hws].
    rewrite update_first_NoDup by (auto; apply Hin; left). simpl.
    set (ps1 := map _ ps).
    assert (Hids : map id ps1 = map id ps).
    { unfold ps1. rewrite map_map. apply map_ext. intros p.
      case_bool_decide; [apply Hf|reflexivity]. }
    rewrite IH.
    + f_equal. unfold ps1. rewrite map_map. apply map_ext. intros p.
      destruct (decide (id p = w)) as [Hpw|Hpw].
      * rewrite (bool_decide_eq_true_2 (id p = w)) by assumption.
        rewrite Hf. rewrite (bool_decide_eq_false_2 (id p ∈ ws)) by congruence.
        rewrite bool_decide_eq_true_2; [reflexivity|]. rewrite Hpw. left.
      * rewrite (bool_decide_eq_false_2 (id p = w)) by assumption.
        rewrite (bool_decide_ext (id p ∈ w :: ws) (id p ∈ ws)); [reflexivity|].
        rewrite elem_of_cons. split; [|by auto]. intros [?|?]; [congruence|assumption].
    + by rewrite Hids.
    + assumption.
    + intros w' Hw'. rewrite Hids. apply Hin. by right.
Qed.

(** ** The settlement as a function of the list of players *)

Lemma credit_winner_eq (c : Q) (w : string) (g : Game) :
  credit_winner c w g
  = (fun ps => set_players ps g) <$> update_first w (credit c) (players g).
Proof. unfold credit_winner. by destruct (update_first _ _ _). Qed.

Lemma charge_winner_eq (payment : Z) (c : Q) (w : string) (g : Game) :
  charge_winner payment c w g
  = (fun ps => set_actualPayments (<[w := payment]> (actualPayments g))
                 (set_players ps g))
    <$> update_first w (charge payment c) (players g).
Proof. unfold charge_winner. by destruct (update_first _ _ _). Qed.

Lemma forEach_credit (c : Q) (ws : list string) (g : Game) :
  forEach (credit_winner c) ws g
  = (fun ps => set_players ps g) <$> update_all ws (credit c) (players g).
Proof.
  revert g. induction ws as [|w ws IH]; intros g; simpl.
  - by destruct g.
  - rewrite credit_winner_eq.
    destruct (update_first w (credit c) (players g)) as [ps|]; simpl; [|reflexivity].
    rewrite IH. simpl. by destruct (update_all ws (credit c) ps).
Qed.

Lemma forEach_charge (payment : Z) (c : Q) (ws : list string) (g : Game) :
  forEach (charge_winner payment c) ws g
  = (fun ps =>
       set_actualPayments
         (fold_left (fun o w => <[w := payment]> o) ws (actualPayments g))
         (set_players ps g))
    <$> update_all ws (charge payment c) (players g).
Proof.
  revert g. induction ws as [|w ws IH]; intros g; simpl.
  - by destruct g.
  - rewrite charge_winner_eq.
    destruct (update_first w (charge payment c) (players g)) as [ps|]; simpl;
      [|reflexivity].
    rewrite IH. simpl. by destruct (update_all ws (charge payment c) ps).
Qed.

Ltac game_simpl :=
  cbn [game_id createdAt gameMode players currentRound totalRounds roundsToWin
       status bets roundWinners overallWinner lastRoundBets showRoundResults
       secondHighestBid thirdHighestBid actualPayments
       set_players set_currentRound set_totalRounds set_status set_bets
       set_roundWinners set_overallWinner set_lastRoundBets
       set_showRoundResults set_secondHighestBid set_thirdHighestBid
       set_actualPayments] in *.

Lemma forEach_single {A} (body : A -> Game -> option Game) (x : A) (g : Game) :
  forEach body [x] g = body x g.
Proof. simpl. by destruct (body x g). Qed.

(** The two cases on [highestBidders.length] are one loop over the
    winners: the credit of a single winner is a full win. *)
Lemma winners_cases (body : Z -> Q -> string -> Game -> option Game)
    (p1 p2 : Z) (hb : list string) (g : Game) :
  match hb with
  | [w] => body p1 1%Q w g
  | _ :: _ :: _ =>
    forEach (body p2 (getFractionalWinAmount (Z.of_nat (length hb)))) hb g
  | [] => Some g
  end
  = forEach (body (match hb with [_] => p1 | _ => p2 end)
               (getFractionalWinAmount (Z.of_nat (length hb)))) hb g.
Proof.
  destruct hb as [|w [|w' hb]]; [reflexivity| |reflexivity].
  by rewrite forEach_single.
Qed.

(** [completeRound], by parts: the ranking of the ledger, the settlement
    of the players, and the termination predicate. *)
Lemma completeRound_unfold (g : Game) :
  completeRound g
  = match ranking (bets g) with
    | None =>
      Some (set_roundWinners (Some [])
              (set_status roundComplete
                 (set_showRoundResults true (set_lastRoundBets (bets g) g))))
    | Some (h, hb, s, t) =>
      ps ← settle_players (gameMode g) (bets g) h hb s t (players g);
      if shouldEndGame (settled_game g h hb s t ps)
      then determineOverallWinner
             (set_status gameComplete (settled_game g h hb s t ps))
      else Some (settled_game g h hb s t ps)
    end.
Proof.
  unfold completeRound, ranking. cbv zeta. game_simpl.
  destruct (sort_desc (entries (bets g))) as [|bid0 rest] eqn:Hbids;
    [reflexivity|].
  generalize (bid0 :: rest). intros bids.
  generalize (amount bid0). intros h.
  generalize (map playerId (List.filter (fun bid => amount bid =? h) bids)).
  intros hb.
  generalize (if Z.of_nat (length bids) >? 1
              then amount <$> List.find (fun bid => amount bid <? h) bids
              else None).
  intros s.
  generalize (if (Z.of_nat (length bids) >? 2) && (Z.of_nat (length hb) >? 1)
              then amount <$> head (List.filter
                     (fun bid => negb (bool_decide (playerId bid ∈ hb))) bids)
              else None).
  intros t.
  unfold settled_game, settle_players, settle_payments, winner_payment.
  case_bool_decide as Hallpay.
  - rewrite (winners_cases (fun _ => credit_winner) 0 0).
    rewrite forEach_credit. game_simpl.
    change (map (fun player => set_money (money player - bet_or_0 _ player) player)
              (players g))
      with (map (pay_own_bid (bets g)) (players g)).
    destruct (update_all hb (credit _) _) as [ps|]; [|reflexivity].
    by destruct g.
  - case_bool_decide as Hstd.
    + rewrite (winners_cases charge_winner h h).
      replace (match hb with [_] => h | _ => h end) with h
        by (by destruct hb as [|? [|? ?]]).
      rewrite forEach_charge. game_simpl.
      destruct (update_all hb (charge h _) _) as [ps|]; [|reflexivity].
      by destruct g.
    + rewrite (winners_cases charge_winner (default h s) (default (default 0 s) t)).
      rewrite forEach_charge. game_simpl.
      destruct (update_all hb (charge _ _) _) as [ps|]; [|reflexivity].
      by destruct g.
Qed.

(** What [completeRound] leaves in the game: the players are the settled
    ones, the status tells whether the game is over, and the ranking is
    recorded. *)
Lemma completeRound_settled (g g' : Game) :
  completeRound g = Some g' ->
  match ranking (bets g) with
  | None => players g' = players g /\ status g' = roundComplete
  | Some (h, hb, s, t) =>
    settle_players (gameMode g) (bets g) h hb s t (players g) = Some (players g')
    /\ status g' = (if shouldEndGame g' then gameComplete else roundComplete)
    /\ roundWinners g' = Some hb
    /\ secondHighestBid g' = s /\ thirdHighestBid g' = t
  end
  /\ game_id g' = game_id g /\ createdAt g' = createdAt g
  /\ gameMode g' = gameMode g /\ currentRound g' = currentRound g
  /\ totalRounds g' = totalRounds g /\ roundsToWin g' = roundsToWin g
  /\ bets g' = bets g /\ lastRoundBets g' = bets g
  /\ showRoundResults g' = true.
Proof.
  rewrite completeRound_unfold.
  destruct (ranking (bets g)) as [[[[h hb] s] t]|].
  2:{ intros [= <-]. game_simpl. tauto. }
  destruct (settle_players _ _ _ _ _ _ _) as [ps|]; [|discriminate].
  cbn [mbind option_bind].
  destruct (shouldEndGame (settled_game g h hb s t ps)) eqn:Hend.
  - intros Hw. apply determineOverallWinner_players in Hw as (w & -> & _).
    assert (Hsame : shouldEndGame
                      (set_overallWinner (Some w)
                         (set_status gameComplete (settled_game g h hb s t ps)))
                    = true).
    { rewrite <- Hend. unfold shouldEndGame, settled_game. game_simpl.
      reflexivity. }
    rewrite Hsame. unfold settled_game. game_simpl. tauto.
  - intros [= <-]. rewrite Hend. unfold settled_game. game_simpl. tauto.
Qed.

(** ** The settlement of a well-formed game *)


Lemma settle_players_wf (mode : string) (o : gmap string Z) h hb s t
    (ps : list Player) :
  NoDup (map id ps) -> (forall k, is_Some (o !! k) -> k ∈ map id ps) ->
  ranking o = Some (h, hb, s, t) ->
  settle_players mode o h hb s t ps
  = Some (map (settle_player mode o h hb s t) ps).
Proof.
  intros Hnd Hknown Hrank.
  destruct (ranking_spec _ _ _ _ _ Hrank) as (_ & Hhb & Hndhb & _).
  assert (Hin : forall w, w ∈ hb -> w ∈ map id ps).
  { intros w Hw. apply Hknown. apply Hhb in Hw. by eexists. }
  unfold settle_players, settle_player. case_bool_decide.
  - rewrite update_all_NoDup; try done.
    + f_equal. rewrite map_map. reflexivity.
    + rewrite map_map. exact Hnd.
    + intros w Hw. rewrite map_map. by apply Hin.
  - rewrite update_all_NoDup; done.
Qed.

(** The settled players of a well-formed game, one by one. *)
Lemma completeRound_wf (g g' : Game) h hb s t :
  wf_game g -> ranking (bets g) = Some (h, hb, s, t) ->
  completeRound g = Some g' ->
  players g' = map (settle_player (gameMode g) (bets g) h hb s t) (players g).
Proof.
  intros [Hnd Hknown] Hrank Hg'.
  pose proof (completeRound_settled _ _ Hg') as Hs. rewrite Hrank in Hs.
  destruct Hs as ((Hs & _) & _).
  rewrite settle_players_wf in Hs by assumption. by injection Hs.
Qed.

Lemma is_highest_ranking (o : gmap string Z) (h : Z) :
  is_highest o h ->
  exists hb s t, ranking o = Some (h, hb, s, t).
Proof.
  intros [[k Hk] Hmax].
  destruct (ranking o) as [[[[h' hb] s] t]|] eqn:Hrank.
  - destruct (ranking_spec _ _ _ _ _ Hrank) as ([[k' Hk'] Hmax'] & _).
    assert (h' = h) as -> by (specialize (Hmax _ _ Hk'); specialize (Hmax' _ _ Hk); lia).
    eauto.
  - apply ranking_none in Hrank. subst o. by rewrite lookup_empty in Hk.
Qed.

Lemma wf_gameb_spec (g : Game) : wf_gameb g = true -> wf_game g.
Proof.
  unfold wf_gameb, wf_game. intros H. apply andb_prop in H as [Hnd Hall].
  split; [by eapply bool_decide_eq_true_1|].
  intros k [b Hb]. rewrite forallb_forall in Hall.
  specialize (Hall (k, b)). simpl in Hall.
  eapply bool_decide_eq_true_1, Hall, list_elem_of_In.
  by apply elem_of_map_to_list.
Qed.

Lemma is_highest_check (o : gmap string Z) (h : Z) (k : string) :
  o !! k = Some h ->
  forallb (fun e => e.2 <=? h) (map_to_list o) = true ->
  is_highest o h.
Proof.
  intros Hk Hall. split; [eauto|]. intros k' b Hb.
  rewrite forallb_forall in Hall. specialize (Hall (k', b)). simpl in Hall.
  apply Z.leb_le, Hall, list_elem_of_In. by apply elem_of_map_to_list.
Qed.

(** ** All-pay settlement *)



(** ** The win credit of a round *)




Lemma settle_player_roundsWon (mode : string) (o : gmap string Z) h hb s t
    (p : Player) :
  roundsWon (settle_player mode o h hb s t p)
  = if bool_decide (id p ∈ hb)
    then (roundsWon p + getFractionalWinAmount (Z.of_nat (length hb)))%Q
    else roundsWon p.
Proof.
  unfold settle_player. by repeat case_bool_decide.
Qed.




(** ** Vickrey settlement *)

Lemma second_highest_unique (o : gmap string Z) (h s s' : Z) :
  is_second_highest o h s -> is_second_highest o h s' -> s = s'.
Proof.
  intros ([k Hk] & Hlt & Hmax) ([k' Hk'] & Hlt' & Hmax').
  specialize (Hmax _ _ Hk' Hlt'). specialize (Hmax' _ _ Hk Hlt). lia.
Qed.

Lemma third_highest_unique (o : gmap string Z) (h t t' : Z) :
  is_third_highest o h t -> is_third_highest o h t' -> t = t'.
Proof.
  intros ((k & Hk & Hne) & Hmax) ((k' & Hk' & Hne') & Hmax').
  specialize (Hmax _ _ Hk' Hne'). specialize (Hmax' _ _ Hk Hne). lia.
Qed.

(** The payment that the code computes for a highest bidder follows the
    Vickrey rule. *)
Lemma winner_payment_vickrey (o : gmap string Z) h hb s t (k : string) :
  ranking o = Some (h, hb, s, t) -> k ∈ hb ->
  vickrey_rule o h k (winner_payment "vickrey" h hb s t).
Proof.
  intros Hrank Hk.
  destruct (ranking_spec _ _ _ _ _ Hrank) as (Hhigh & Hhb & Hnd & Hs & Ht).
  unfold winner_payment. rewrite bool_decide_eq_false_2 by discriminate.
  split.
  - (* a single highest bidder *)
    intros Hsole s' Hs'.
    assert (hb = [k]) as ->.
    { destruct hb as [|k1 [|k2 hb]]; [inversion Hk| |].
      - f_equal. apply Hsole, Hhb. left.
      - exfalso. apply NoDup_cons in Hnd as [Hk1 _]. apply Hk1.
        assert (k1 = k) as -> by (apply Hsole, Hhb; left).
        assert (k2 = k) as -> by (apply Hsole, Hhb; right; left).
        left. }
    destruct s as [s|]; simpl.
    + by apply (second_highest_unique o h).
    + destruct Hs' as ([k' Hk'] & Hlt & _). specialize (Hs _ _ Hk'). lia.
  - (* a tie *)
    intros (k' & Hne & Hk').
    assert (Hlen : (2 <= length hb)%nat).
    { apply Hhb in Hk'. destruct hb as [|k1 [|k2 hb]]; [inversion Hk| |simpl; lia].
      apply list_elem_of_singleton in Hk, Hk'. congruence. }
    assert (Hpay : match hb with
                   | [_] => default h s
                   | _ => default (default 0 s) t
                   end = default (default 0 s) t).
    { destruct hb as [|k1 [|k2 hb]]; [reflexivity|simpl in Hlen; lia|reflexivity]. }
    rewrite Hpay. clear Hpay. split.
    + intros t' Ht'. destruct t as [t|]; simpl.
      * destruct Ht as [_ Ht]. by apply (third_highest_unique o h).
      * destruct Ht as [Ht|Ht]; [lia|].
        destruct Ht' as ((k3 & Hk3 & Hne3) & _). specialize (Ht _ _ Hk3).
        congruence.
    + intros Hnot. destruct t as [t|]; [exfalso; apply Hnot; exists t; tauto|].
      simpl. split.
      * intros s' Hs'. destruct s as [s|]; simpl.
        -- by apply (second_highest_unique o h).
        -- destruct Hs' as ([k3 Hk3] & Hlt & _). specialize (Hs _ _ Hk3). lia.
      * intros Hnos. destruct s as [s|]; [exfalso; apply Hnos; by exists s|].
        reflexivity.
Qed.

(** With a single highest bidder and another bid in the ledger, there is a
    second-highest bid for that bidder to pay. *)
Lemma second_highest_exists (o : gmap string Z) (h : Z) (k k' : string) :
  is_highest o h -> (forall k1, o !! k1 = Some h -> k1 = k) ->
  k' <> k -> is_Some (o !! k') ->
  exists s, is_second_highest o h s.
Proof.
  intros Hhigh Hsole Hne [b Hb].
  destruct (is_highest_ranking _ _ Hhigh) as (hb & s & t & Hrank).
  destruct (ranking_spec _ _ _ _ _ Hrank) as (_ & _ & _ & Hs & _).
  destruct s as [s|]; [by exists s|].
  exfalso. apply Hne, Hsole. by rewrite (Hs _ _ Hb) in Hb.
Qed.

(** C2: in a well-formed Vickrey game, the settlement of a non-empty
    ledger charges the highest bidders only, and each of them the amount
    of the Vickrey rule: the second-highest bid for a single highest
    bidder (there is one as soon as the ledger has another bid); for tied
    highest bidders the third-highest bid if it exists, else the
    second-highest bid if it exists, else 0. *)
Theorem vickrey_settlement (g g' : Game) (h : Z) :
  gameMode g = "vickrey" -> wf_game g -> is_highest (bets g) h ->
  completeRound g = Some g' ->
  forall i p, players g !! i = Some p ->
    exists p', players g' !! i = Some p'
      /\ id p' = id p
      /\ (bets g !! id p <> Some h -> money p' = money p)
      /\ (bets g !! id p = Some h ->
          vickrey_rule (bets g) h (id p) (money p - money p')
          /\ ((forall k, bets g !! k = Some h -> k = id p) ->
              (exists k, k <> id p /\ is_Some (bets g !! k)) ->
              exists s, is_second_highest (bets g) h s)).
Proof.
  intros Hmode Hwf Hhigh Hg' i p Hp.
  destruct (is_highest_ranking _ _ Hhigh) as (hb & s & t & Hrank).
  rewrite (completeRound_wf _ _ _ _ _ _ Hwf Hrank Hg').
  destruct (ranking_spec _ _ _ _ _ Hrank) as (_ & Hhb & _).
  eexists. split.
  { change (map ?f ?l) with (f <$> l). rewrite list_lookup_fmap, Hp. reflexivity. }
  unfold settle_player. rewrite Hmode.
  rewrite (bool_decide_eq_false_2 ("vickrey" = "all-pay")) by discriminate.
  case_bool_decide as Hwin.
  - split; [reflexivity|]. split; [intros Hno; by apply Hhb in Hwin|].
    intros _. split.
    + simpl.
      replace (money p - (money p - winner_payment "vickrey" h hb s t))
        with (winner_payment "vickrey" h hb s t) by lia.
      by apply winner_payment_vickrey.
    + intros Hsole (k & Hne & Hk).
      by apply (second_highest_exists (bets g) h (id p) k).
  - split; [reflexivity|]. split; [reflexivity|].
    intros Hh. by apply Hhb in Hh.
Qed.

Lemma vickrey_settlement_witness :
  exists p', players (settled vickrey_tie_round) !! 0%nat = Some p'
    /\ id p' = id p1
    /\ (bets vickrey_tie_round !! id p1 <> Some 40 -> money p' = money p1)
    /\ (bets vickrey_tie_round !! id p1 = Some 40 ->
        vickrey_rule (bets vickrey_tie_round) 40 (id p1) (money p1 - money p')
        /\ ((forall k, bets vickrey_tie_round !! k = Some 40 -> k = id p1) ->
            (exists k, k <> id p1 /\ is_Some (bets vickrey_tie_round !! k)) ->
            exists s, is_second_highest (bets vickrey_tie_round) 40 s)).
Proof.
  apply (vickrey_settlement vickrey_tie_round (settled vickrey_tie_round) 40).
  - reflexivity.
  - apply wf_gameb_spec. vm_compute. reflexivity.
  - apply (is_highest_check _ _ "p1"); vm_compute; reflexivity.
  - vm_compute. reflexivity.
  - reflexivity.
Defined.

(** The examples of the rules: with the bids 50, 30 and 10 the winner pays
    30; with 40, 40 and 20 both winners pay 20; with 40 and 40 alone both
    pay 0. *)
Example vickrey_50_30_10 :
  map money (players (settled vickrey_round)) = [70; 100; 100].
Proof. reflexivity. Qed.

Example vickrey_40_40_20 :
  map money (players (settled vickrey_tie_round)) = [80; 80; 100].
Proof. reflexivity. Qed.

Example vickrey_40_40 :
  map money (players (settled vickrey_pair_round)) = [100; 100].
Proof. reflexivity. Qed.

(** ** The termination predicate *)

Lemma existsb_elem {A} (f : A -> bool) (l : list A) :
  existsb f l = true <-> exists x, x ∈ l /\ f x = true.
Proof.
  rewrite existsb_exists. split; intros (x & Hx & Hf); exists x;
    (split; [by apply list_elem_of_In|assumption]).
Qed.

Lemma completeRound_status (g g' : Game) :
  bets g <> ∅ -> completeRound g = Some g' ->
  status g' = if shouldEndGame g' then gameComplete else roundComplete.
Proof.
  intros Hne Hg'. pose proof (completeRound_settled _ _ Hg') as Hs.
  destruct (ranking (bets g)) as [[[[h hb] s] t]|] eqn:Hrank.
  - tauto.
  - by apply ranking_none in Hrank.
Qed.

(** C5: with [roundsToWin = 3], the termination predicate holds in an
    all-pay game exactly when some player has [roundsWon >= 3] or
    [currentRound >= totalRounds], and in a standard or Vickrey game
    exactly when [currentRound >= totalRounds].  It is what decides the
    status after the settlement of a round with bids (game over or round
    complete) and what the advance to the next round tests first (game
    over, or the next round in the betting phase). *)
Theorem termination_predicate (g : Game) :
  roundsToWin g = 3%Q ->
  (gameMode g = "all-pay" ->
   (shouldEndGame g = true <->
    (exists p, p ∈ players g /\ (3 <= roundsWon p)%Q)
    \/ currentRound g >= totalRounds g))
  /\ (gameMode g = "standard" \/ gameMode g = "vickrey" ->
      (shouldEndGame g = true <-> currentRound g >= totalRounds g))
  /\ (forall ledger settled_game,
        bets ledger <> ∅ -> completeRound ledger = Some settled_game ->
        status settled_game
        = if shouldEndGame settled_game then gameComplete else roundComplete)
  /\ (forall gameId games session games' session' r,
        nextround gameId games session = Some (games', session', r) ->
        games !! gameId = Some g ->
        r = JsonSuccess \/ r = JsonGameComplete ->
        exists g', games' !! gameId = Some g'
          /\ status g' = (if shouldEndGame g then gameComplete else betting)
          /\ currentRound g'
             = if shouldEndGame g then currentRound g else currentRound g + 1).
Proof.
  intros H3. split; [|split; [|split]].
  - intros Hmode. unfold shouldEndGame.
    rewrite bool_decide_eq_true_2 by assumption.
    rewrite orb_true_iff, existsb_elem, Z.geb_le, H3.
    setoid_rewrite Qle_bool_iff. split; (intros [?|?]; [left|right]); done || lia.
  - intros Hmode. unfold shouldEndGame.
    rewrite bool_decide_eq_false_2 by (destruct Hmode as [-> | ->]; discriminate).
    rewrite Z.geb_le. lia.
  - intros ledger settled_game. apply completeRound_status.
  - intros gameId games session games' session' r Hnext Hg Hr.
    unfold nextround, lookup_game in Hnext. rewrite Hg in Hnext.
    destruct (user session) as [u|];
      [|injection Hnext as <- <- <-; by destruct Hr].
    destruct (negb (bool_decide (user_gameId u = gameId)));
      [injection Hnext as <- <- <-; by destruct Hr|].
    destruct (find_player (user_playerId u) g) as [player|];
      [|injection Hnext as <- <- <-; by destruct Hr].
    destruct (negb (host player));
      [injection Hnext as <- <- <-; by destruct Hr|].
    destruct (negb (bool_decide (status g = roundComplete)));
      [injection Hnext as <- <- <-; by destruct Hr|].
    change (shouldEndGame g) with (shouldEndGame g) in *.
    destruct (shouldEndGame g) eqn:Hend.
    + destruct (determineOverallWinner (set_status gameComplete g)) as [g1|] eqn:Hw;
        [|discriminate].
      simpl in Hnext. injection Hnext as <- <- <-.
      apply determineOverallWinner_players in Hw as (w & -> & _).
      eexists. split; [apply lookup_insert_eq|]. by game_simpl.
    + injection Hnext as <- <- <-.
      eexists. split; [apply lookup_insert_eq|]. by game_simpl.
Qed.

Lemma termination_predicate_witness :
  (gameMode all_pay_round = "all-pay" ->
   (shouldEndGame all_pay_round = true <->
    (exists p, p ∈ players all_pay_round /\ (3 <= roundsWon p)%Q)
    \/ currentRound all_pay_round >= totalRounds all_pay_round))
  /\ (gameMode all_pay_round = "standard" \/ gameMode all_pay_round = "vickrey" ->
      (shouldEndGame all_pay_round = true
       <-> currentRound all_pay_round >= totalRounds all_pay_round))
  /\ (forall ledger settled_game,
        bets ledger <> ∅ -> completeRound ledger = Some settled_game ->
        status settled_game
        = if shouldEndGame settled_game then gameComplete else roundComplete)
  /\ (forall gameId games session games' session' r,
        nextround gameId games session = Some (games', session', r) ->
        games !! gameId = Some all_pay_round ->
        r = JsonSuccess \/ r = JsonGameComplete ->
        exists g', games' !! gameId = Some g'
          /\ status g'
             = (if shouldEndGame all_pay_round then gameComplete else betting)
          /\ currentRound g'
             = if shouldEndGame all_pay_round then currentRound all_pay_round
               else currentRound all_pay_round + 1).
Proof. apply (termination_predicate all_pay_round). reflexivity. Defined.

(** ** The number of rounds *)

Lemma getTotalRoundsForPlayerCount_spec (n : Z) :
  (n <= 2 -> getTotalRoundsForPlayerCount n = 5)
  /\ (n = 3 -> getTotalRoundsForPlayerCount n = 7)
  /\ (4 <= n -> getTotalRoundsForPlayerCount n = 9).
Proof.
  unfold getTotalRoundsForPlayerCount.
  destruct (Z.leb_spec n 2), (Z.eqb_spec n 3); lia.
Qed.

(** ** No handler raises on a game with known bidders *)

Lemma determineOverallWinner_total (g : Game) :
  players g <> [] -> is_Some (determineOverallWinner g).
Proof.
  intros Hne. unfold determineOverallWinner.
  destruct (if bool_decide (gameMode g = "all-pay") then _ else None);
    [by eexists|].
  destruct (Math_max_spec (players g) Hne) as (m & -> & _ & pm & Hpm & Hpmm).
  set (L := List.filter (fun p => Qeq_bool (roundsWon p) m) (players g)).
  assert (HL : pm ∈ L).
  { apply filter_elem. split; [assumption|]. rewrite Hpmm.
    apply Qeq_bool_iff. reflexivity. }
  destruct L as [|p [|p' L]]; [inversion HL|by eexists|by eexists].
Qed.

Lemma update_first_total (w : string) (f : Player -> Player) (ps : list Player) :
  (forall p, id (f p) = id p) -> w ∈ map id ps ->
  exists ps', update_first w f ps = Some ps' /\ map id ps' = map id ps.
Proof.
  intros Hf. induction ps as [|p ps IH]; simpl; intros Hw; [inversion Hw|].
  case_bool_decide as Hp.
  - eexists. split; [reflexivity|]. simpl. by rewrite Hf.
  - apply elem_of_cons in Hw as [->|Hw]; [congruence|].
    destruct (IH Hw) as (ps' & -> & Hids). eexists. split; [reflexivity|].
    simpl. by rewrite Hids.
Qed.

Lemma update_first_ids (w : string) (f : Player -> Player) (ps ps' : list Player) :
  (forall p, id (f p) = id p) -> update_first w f ps = Some ps' ->
  map id ps' = map id ps.
Proof.
  intros Hf. revert ps'. induction ps as [|p ps IH]; simpl; intros ps' H;
    [discriminate|].
  case_bool_decide.
  - injection H as <-. simpl. by rewrite Hf.
  - destruct (update_first w f ps) as [ps1|]; [|discriminate].
    injection H as <-. simpl. by rewrite (IH ps1).
Qed.

Lemma update_all_ids (ws : list string) (f : Player -> Player)
    (ps ps' : list Player) :
  (forall p, id (f p) = id p) -> update_all ws f ps = Some ps' ->
  map id ps' = map id ps.
Proof.
  intros Hf. revert ps. induction ws as [|w ws IH]; simpl; intros ps H.
  - by injection H as <-.
  - destruct (update_first w f ps) as [ps1|] eqn:H1; [|discriminate].
    simpl in H. rewrite (IH _ H). by apply (update_first_ids w f).
Qed.

Lemma update_all_total (ws : list string) (f : Player -> Player)
    (ps : list Player) :
  (forall p, id (f p) = id p) -> (forall w, w ∈ ws -> w ∈ map id ps) ->
  is_Some (update_all ws f ps).
Proof.
  intros Hf. revert ps. induction ws as [|w ws IH]; simpl; intros ps Hin;
    [by eexists|].
  destruct (update_first_total w f ps Hf) as (ps1 & -> & Hids);
    [apply Hin; left|].
  simpl. apply IH. intros w' Hw'. rewrite Hids. apply Hin. by right.
Qed.

Lemma settle_players_total (mode : string) (o : gmap string Z) h hb s t
    (ps : list Player) :
  (forall k, is_Some (o !! k) -> k ∈ map id ps) ->
  ranking o = Some (h, hb, s, t) ->
  is_Some (settle_players mode o h hb s t ps).
Proof.
  intros Hknown Hrank.
  destruct (ranking_spec _ _ _ _ _ Hrank) as (_ & Hhb & _).
  assert (Hin : forall w, w ∈ hb -> w ∈ map id ps).
  { intros w Hw. apply Hknown. apply Hhb in Hw. by eexists. }
  unfold settle_players. case_bool_decide.
  - apply update_all_total; [done|]. intros w Hw. rewrite map_map. by apply Hin.
  - by apply update_all_total.
Qed.

Lemma settle_players_ids (mode : string) (o : gmap string Z) h hb s t
    (ps ps' : list Player) :
  settle_players mode o h hb s t ps = Some ps' -> map id ps' = map id ps.
Proof.
  unfold settle_players. case_bool_decide; intros Hs.
  - apply update_all_ids in Hs; [|done]. by rewrite Hs, map_map.
  - by apply update_all_ids in Hs.
Qed.

(** [completeRound] returns on every game with known bidders. *)
Lemma completeRound_total (g : Game) :
  known_bidders g -> is_Some (completeRound g).
Proof.
  intros Hknown. rewrite completeRound_unfold.
  destruct (ranking (bets g)) as [[[[h hb] s] t]|] eqn:Hrank; [|by eexists].
  pose proof (settle_players_total (gameMode g) _ _ _ _ _ (players g) Hknown Hrank)
    as [ps' Hps'].
  rewrite Hps'. cbn [mbind option_bind].
  destruct (shouldEndGame _); [|by eexists].
  apply determineOverallWinner_total. unfold settled_game. game_simpl.
  pose proof (settle_players_ids _ _ _ _ _ _ _ _ Hps') as Hids.
  destruct (ranking_spec _ _ _ _ _ Hrank) as ([[k Hk] _] & _).
  assert (Hkp : k ∈ map id (players g)) by (apply Hknown; by eexists).
  rewrite <- Hids in Hkp. intros ->. inversion Hkp.
Qed.

(** ** Placing a bid *)

(** The two outcomes of the bet route: the bid is acceptable and the route
    records it (and settles the round when the ledger closes), or it is
    not and the route answers with an error. *)
Lemma bet_cases (gameId : string) (betAmount : option Z)
    (games : gmap string Game) (session : Session) :
  (exists game player amount,
     acceptable_bid gameId betAmount games session game player amount
     /\ bet gameId betAmount games session
        = (game' ←
             (let game1 := set_bets (<[id player := amount]> (bets game)) game in
              if forallb (fun p => bool_decide (is_Some (bets game1 !! id p)))
                   (players game1)
              then completeRound game1 else Some game1);
           Some (<[gameId := game']> games, session, JsonSuccess)))
  \/ (~ (exists game player amount,
           acceptable_bid gameId betAmount games session game player amount)
      /\ exists code message,
           bet gameId betAmount games session
           = Some (games, session, JsonError code message)).
Proof.
  unfold bet, lookup_game, acceptable_bid.
  destruct (games !! gameId) as [game|] eqn:Hgame.
  2:{ right. split; [|by eauto]. intros (g & p & a & Hg & _). discriminate. }
  destruct (user session) as [u|] eqn:Hu.
  2:{ right. split; [|by eauto].
      intros (g & p & a & _ & (u & Hu' & _) & _). discriminate. }
  case_bool_decide as Hgid; simpl.
  2:{ right. split; [|by eauto].
      intros (g & p & a & _ & (u' & Hu' & Hgid' & _) & _). congruence. }
  destruct (find_player (user_playerId u) game) as [player|] eqn:Hplayer.
  2:{ right. split; [|by eauto].
      intros (g & p & a & Hg & (u' & Hu' & _ & Hp) & _). congruence. }
  case_bool_decide as Hstatus; simpl.
  2:{ right. split; [|by eauto].
      intros (g & p & a & Hg & _ & Hst & _). congruence. }
  case_bool_decide as Hbet; simpl.
  { right. split; [|by eauto].
    intros (g & p & a & Hg & (u' & Hu' & _ & Hp) & _ & Hnone & _).
    assert (g = game) as -> by congruence.
    assert (p = player) as -> by congruence.
    rewrite Hnone in Hbet. by destruct Hbet. }
  destruct betAmount as [amount|].
  2:{ right. split; [|by eauto]. intros (g & p & a & _ & _ & _ & _ & Ha & _).
      discriminate. }
  rewrite Z.gtb_ltb.
  destruct (Z.ltb_spec amount 0) as [Hneg|Hpos]; simpl.
  { right. split; [|by eauto].
    intros (g & p & a & _ & _ & _ & _ & [= <-] & Ha). lia. }
  destruct (Z.ltb_spec (money player) amount) as [Hbig|Hsmall]; simpl.
  { right. split; [|by eauto].
    intros (g & p & a & Hg & (u' & Hu' & _ & Hp) & _ & _ & [= <-] & Ha).
    assert (g = game) as -> by congruence.
    assert (p = player) as -> by congruence. lia. }
  left. exists game, player, amount. split; [|reflexivity].
  split; [reflexivity|]. split; [by eauto|]. split; [assumption|].
  split; [|split; [reflexivity|lia]].
  destruct (bets game !! id player) eqn:Hb; [|reflexivity].
  exfalso. apply Hbet. by eexists.
Qed.

Lemma completeRound_bets (g g' : Game) :
  completeRound g = Some g' -> bets g' = bets g.
Proof. intros H. apply completeRound_settled in H. tauto. Qed.

(** On a game with known bidders an acceptable bid is accepted: the
    settlement that it may start does not raise. *)
Lemma bet_accepts (gameId : string) (betAmount : option Z)
    (games : gmap string Game) (session : Session)
    (game : Game) (player : Player) (amount : Z) :
  acceptable_bid gameId betAmount games session game player amount ->
  known_bidders game ->
  exists game', bet gameId betAmount games session
                = Some (<[gameId := game']> games, session, JsonSuccess).
Proof.
  intros Hok0 Hknown.
  destruct (bet_cases gameId betAmount games session)
    as [(game1 & player1 & amount1 & Hok & Hbet)|(Hno & _)];
    [|exfalso; apply Hno; by eauto].
  rewrite Hbet. cbv zeta.
  assert (game1 = game) as ->.
  { destruct Hok as [Hg _], Hok0 as [Hg0 _]. congruence. }
  assert (player1 = player) as ->.
  { destruct Hok as (_ & (u & Hu & _ & Hp) & _),
             Hok0 as (_ & (u0 & Hu0 & _ & Hp0) & _). congruence. }
  destruct (forallb _ _); [|by eexists].
  destruct (completeRound_total
              (set_bets (<[id player := amount1]> (bets game)) game))
    as [g1 Hg1].
  { intros k Hk. game_simpl.
    destruct (decide (k = id player)) as [->|Hne].
    - destruct Hok as (_ & (u & _ & _ & Hp) & _).
      apply find_first_such in Hp as (l1 & l2 & Heq & _).
      unfold find_player in *. rewrite Heq, map_app. simpl.
      rewrite elem_of_app, elem_of_cons. auto.
    - rewrite lookup_insert_ne in Hk by congruence. by apply Hknown. }
  rewrite Hg1. by eexists.
Qed.

(** C7: the bet route either rejects the bid with an error and leaves the
    registry of games and the session as they were, or accepts it, and it
    accepts it exactly when the game is in the betting phase, the caller
    is a player of this game who has not bid in this round, and the amount
    is a number with [0 <= amount <= money]; an accepted bid is in the
    ledger of the game afterwards, and on a game with known bidders an
    acceptable bid is accepted. *)
Theorem placeBid_spec (gameId : string) (betAmount : option Z)
    (games : gmap string Game) (session : Session) :
  (forall games' session' r,
     bet gameId betAmount games session = Some (games', session', r) ->
     session' = session
     /\ ((exists game player amount,
            acceptable_bid gameId betAmount games session game player amount
            /\ r = JsonSuccess
            /\ exists game', games' = <[gameId := game']> games
                 /\ bets game' = <[id player := amount]> (bets game))
         \/ (~ (exists game player amount,
                  acceptable_bid gameId betAmount games session game player amount)
             /\ (exists code message, r = JsonError code message)
             /\ games' = games)))
  /\ (forall game player amount,
       acceptable_bid gameId betAmount games session game player amount ->
       known_bidders game ->
       exists game', bet gameId betAmount games session
                     = Some (<[gameId := game']> games, session, JsonSuccess)).
Proof.
  destruct (bet_cases gameId betAmount games session)
    as [(game & player & amount & Hok & Hbet)|(Hno & code & message & Hbet)].
  - split.
    + intros games' session' r. rewrite Hbet. cbv zeta.
      destruct (forallb _ _).
      * destruct (completeRound _) as [g1|] eqn:Hround; [|discriminate].
        intros [= <- <- <-]. split; [reflexivity|]. left.
        exists game, player, amount. split; [assumption|]. split; [reflexivity|].
        exists g1. split; [reflexivity|]. by rewrite (completeRound_bets _ _ Hround).
      * intros [= <- <- <-]. split; [reflexivity|]. left.
        exists game, player, amount. split; [assumption|]. split; [reflexivity|].
        eexists. split; reflexivity.
    + intros game0 player0 amount0 Hok0 Hknown. by apply (bet_accepts _ _ _ _ game0 player0 amount0).
  - split.
    + intros games' session' r. rewrite Hbet. intros [= <- <- <-].
      split; [reflexivity|]. right. split; [assumption|]. split; [by eauto|reflexivity].
    + intros game player amount Hok. exfalso. apply Hno. by eauto.
Qed.

(** ** Resetting a game *)

(** The two outcomes of the reset route. *)
Lemma reset_cases (gameId : string) (games : gmap string Game)
    (session : Session) :
  (exists game game',
     reset_allowed gameId games session game
     /\ reset gameId games session
        = (<[gameId := game']> games, session, JsonSuccess)
     /\ players game'
        = map (fun p => set_roundsWon 0 (set_money 100 p)) (players game)
     /\ currentRound game' = 0 /\ status game' = waiting
     /\ bets game' = ∅ /\ overallWinner game' = None
     /\ roundWinners game' = None /\ lastRoundBets game' = ∅
     /\ showRoundResults game' = false /\ secondHighestBid game' = None
     /\ actualPayments game' = ∅
     /\ game_id game' = game_id game /\ createdAt game' = createdAt game
     /\ gameMode game' = gameMode game /\ totalRounds game' = totalRounds game
     /\ roundsToWin game' = roundsToWin game)
  \/ (~ (exists game, reset_allowed gameId games session game)
      /\ exists code message,
           reset gameId games session
           = (games, session, JsonError code message)).
Proof.
  unfold reset, lookup_game, reset_allowed.
  destruct (games !! gameId) as [game|] eqn:Hgame.
  2:{ right. split; [|by eauto]. intros (g & Hg & _). discriminate. }
  destruct (user session) as [u|] eqn:Hu.
  2:{ right. split; [|by eauto]. intros (g & _ & u & p & Hu' & _). discriminate. }
  case_bool_decide as Hgid; simpl.
  2:{ right. split; [|by eauto].
      intros (g & _ & u' & p & Hu' & Hgid' & _). congruence. }
  destruct (find_player (user_playerId u) game) as [player|] eqn:Hplayer.
  2:{ right. split; [|by eauto].
      intros (g & Hg & u' & p & Hu' & _ & Hp & _). congruence. }
  destruct (host player) eqn:Hhost; simpl.
  2:{ right. split; [|by eauto].
      intros (g & Hg & u' & p & Hu' & _ & Hp & Hh).
      assert (g = game) as -> by congruence.
      assert (p = player) as -> by congruence. congruence. }
  left. eexists game, _. split; [by eauto 10|]. split; [reflexivity|].
  game_simpl. tauto.
Qed.

(** C9: the reset route succeeds exactly when the game exists and the
    caller is a player of it and its host; it then gives every player 100
    of money and 0 rounds won, sets [currentRound] to 0 and the status to
    [waiting], and keeps the players, their ids, names and host flags in
    their order.  Otherwise it answers with an error and changes
    nothing. *)
Theorem resetGame_spec (gameId : string) (games : gmap string Game)
    (session : Session) :
  (forall game, reset_allowed gameId games session game ->
     exists game',
       reset gameId games session
       = (<[gameId := game']> games, session, JsonSuccess)
       /\ players game'
          = map (fun p => mkPlayer (id p) (name p) 100 0 (host p)) (players game)
       /\ currentRound game' = 0
       /\ status game' = waiting)
  /\ (~ (exists game, reset_allowed gameId games session game) ->
      exists code message,
        reset gameId games session = (games, session, JsonError code message)).
Proof.
  destruct (reset_cases gameId games session)
    as [(game & game' & Hok & Hreset & Hps & Hround & Hstatus & _)
       |(Hno & code & message & Hreset)].
  - split.
    + intros game0 Hok0.
      assert (game0 = game) as ->.
      { destruct Hok as [Hg _], Hok0 as [Hg0 _]. congruence. }
      exists game'. auto.
    + intros Hno. exfalso. apply Hno. by exists game.
  - split.
    + intros game Hok. exfalso. apply Hno. by exists game.
    + intros _. by eauto.
Qed.

(** C10: a successful reset leaves the mode of the game, its total number
    of rounds, [roundsToWin] and the list of players with their ids, names
    and host flags as they were, and the other games untouched; so a total
    number of rounds that is the one for the number of players stays so. *)
Theorem resetGame_frame (gameId : string) (games games' : gmap string Game)
    (session session' : Session) :
  reset gameId games session = (games', session', JsonSuccess) ->
  exists game game',
    games !! gameId = Some game /\ games' !! gameId = Some game'
    /\ gameMode game' = gameMode game
    /\ totalRounds game' = totalRounds game
    /\ roundsToWin game' = roundsToWin game
    /\ map id (players game') = map id (players game)
    /\ map name (players game') = map name (players game)
    /\ map host (players game') = map host (players game)
    /\ (totalRounds game
        = getTotalRoundsForPlayerCount (Z.of_nat (length (players game))) ->
        totalRounds game'
        = getTotalRoundsForPlayerCount (Z.of_nat (length (players game'))))
    /\ (forall k, k <> gameId -> games' !! k = games !! k).
Proof.
  destruct (reset_cases gameId games session)
    as [(game & game' & Hok & Hreset & Hps & _ & _ & _ & _ & _ & _ & _ & _ & _
         & _ & _ & Hmode & Htotal & Hwin)
       |(Hno & code & message & Hreset)];
    rewrite Hreset; intros [= <- <-].
  exists game, game'. destruct Hok as [Hgame _].
  split; [assumption|]. split; [apply lookup_insert_eq|].
  split; [assumption|]. split; [assumption|]. split; [assumption|].
  rewrite Hps, !map_map. simpl.
  split; [reflexivity|]. split; [reflexivity|]. split; [reflexivity|].
  split.
  - intros Hinv. by rewrite Htotal, Hinv, !length_map.
  - intros k Hk. by rewrite lookup_insert_ne.
Qed.

Lemma resetGame_frame_witness :
  exists game game',
    one_game !! "ROOM01" = Some game
    /\ (reset "ROOM01" one_game (session_of ann3)).1.1 !! "ROOM01" = Some game'
    /\ gameMode game' = gameMode game
    /\ totalRounds game' = totalRounds game
    /\ roundsToWin game' = roundsToWin game
    /\ map id (players game') = map id (players game)
    /\ map name (players game') = map name (players game)
    /\ map host (players game') = map host (players game)
    /\ (totalRounds game
        = getTotalRoundsForPlayerCount (Z.of_nat (length (players game))) ->
        totalRounds game'
        = getTotalRoundsForPlayerCount (Z.of_nat (length (players game'))))
    /\ (forall k, k <> "ROOM01" ->
        (reset "ROOM01" one_game (session_of ann3)).1.1 !! k = one_game !! k).
Proof.
  apply (resetGame_frame "ROOM01" one_game _ (session_of ann3) (session_of ann3)).
  vm_compute. reflexivity.
Defined.

(** The game of three players keeps its seven rounds through a reset. *)
Example reset_keeps_seven_rounds :
  totalRounds <$> (reset "ROOM01" one_game (session_of ann3)).1.1 !! "ROOM01"
  = Some 7.
Proof. reflexivity. Qed.

(** ** From the registry to one game *)

(** A handler leaves a game of the registry as it was, replaces it by a
    new game, or changes it by a step. *)
Lemma handle_game_step (r : Request) (session : Session)
    (games games' : gmap string Game) (gameId : string) (g' : Game) :
  handle r session games = Some games' ->
  games' !! gameId = Some g' ->
  games !! gameId = Some g'
  \/ (exists playerId now username gameMode,
        g' = new_game gameId playerId now username gameMode)
  \/ (exists g, games !! gameId = Some g /\ game_step g g').
Proof.
  destruct r as [cId cPid now username gameMode|jPid jId username|sId
                |bId betAmount|nId|rId|hId|now]; simpl.
  - (* create *)
    unfold create. destruct (blank username); simpl; intros [= <-]; [by left|].
    intros Hg'. destruct (decide (cId = gameId)) as [->|Hne].
    + rewrite lookup_insert_eq in Hg'. injection Hg' as <-.
      right. left. by eauto.
    + rewrite lookup_insert_ne in Hg' by assumption. by left.
  - (* join *)
    unfold join. destruct (blank username); simpl; [intros [= <-]; by left|].
    destruct (_ ≫= _) as [[jId' game]|] eqn:Hfind; simpl;
      [|intros [= <-]; by left].
    assert (Hgame : games !! jId' = Some game).
    { destruct jId as [i|]; [|discriminate]. simpl in Hfind.
      case_bool_decide; [discriminate|]. simpl in Hfind.
      destruct (games !! toUpperCase i) eqn:Hl; [|discriminate].
      simpl in Hfind. by injection Hfind as <- <-. }
    case_bool_decide as Hstatus; simpl; [|intros [= <-]; by left].
    destruct (existsb _ _); simpl; intros [= <-]; [by left|].
    intros Hg'. destruct (decide (jId' = gameId)) as [->|Hne].
    + rewrite lookup_insert_eq in Hg'. injection Hg' as <-.
      right. right. exists game. split; [assumption|].
      by apply step_join.
    + rewrite lookup_insert_ne in Hg' by assumption. by left.
  - (* start *)
    unfold start, lookup_game.
    destruct (games !! sId) as [game|] eqn:Hgame; simpl;
      [|intros [= <-]; by left].
    destruct (user session) as [u|]; simpl; [|intros [= <-]; by left].
    destruct (negb (bool_decide _)); simpl; [intros [= <-]; by left|].
    destruct (find_player _ _) as [player|]; simpl; [|intros [= <-]; by left].
    destruct (negb (host player)); simpl; [intros [= <-]; by left|].
    destruct (Z.ltb_spec (Z.of_nat (length (players game))) 2); simpl;
      [intros [= <-]; by left|].
    case_bool_decide as Hstatus; simpl; [|intros [= <-]; by left].
    intros [= <-] Hg'. destruct (decide (sId = gameId)) as [->|Hne].
    + rewrite lookup_insert_eq in Hg'. injection Hg' as <-.
      right. right. exists game. split; [assumption|].
      apply step_start; [assumption|lia].
    + rewrite lookup_insert_ne in Hg' by assumption. by left.
  - (* bet *)
    destruct (bet_cases bId betAmount games session)
      as [(game & player & amount & Hok & ->)|(_ & code & message & ->)];
      [|simpl; intros [= <-]; by left].
    destruct Hok as (Hgame & (u & _ & _ & Hplayer) & Hstatus & Hnone & _ & Hamount).
    cbv zeta. game_simpl.
    destruct (forallb _ _) eqn:Hall.
    + destruct (completeRound _) as [g1|] eqn:Hround; simpl; [|discriminate].
      intros [= <-] Hg'. destruct (decide (bId = gameId)) as [->|Hne].
      * rewrite lookup_insert_eq in Hg'. injection Hg' as <-.
        right. right. exists game. split; [assumption|].
        by eapply step_last_bid.
      * rewrite lookup_insert_ne in Hg' by assumption. by left.
    + simpl. intros [= <-] Hg'. destruct (decide (bId = gameId)) as [->|Hne].
      * rewrite lookup_insert_eq in Hg'. injection Hg' as <-.
        right. right. exists game. split; [assumption|].
        by eapply step_bid.
      * rewrite lookup_insert_ne in Hg' by assumption. by left.
  - (* next round *)
    unfold nextround, lookup_game.
    destruct (games !! nId) as [game|] eqn:Hgame; simpl;
      [|intros [= <-]; by left].
    destruct (user session) as [u|]; simpl; [|intros [= <-]; by left].
    destruct (negb (bool_decide _)); simpl; [intros [= <-]; by left|].
    destruct (find_player _ _) as [player|]; simpl; [|intros [= <-]; by left].
    destruct (negb (host player)); simpl; [intros [= <-]; by left|].
    case_bool_decide as Hstatus; simpl; [|intros [= <-]; by left].
    destruct (shouldEndGame game) eqn:Hend.
    + destruct (determineOverallWinner _) as [g1|] eqn:Hw; simpl; [|discriminate].
      intros [= <-] Hg'. destruct (decide (nId = gameId)) as [->|Hne].
      * rewrite lookup_insert_eq in Hg'. injection Hg' as <-.
        right. right. exists game. split; [assumption|]. by apply step_end.
      * rewrite lookup_insert_ne in Hg' by assumption. by left.
    + simpl. intros [= <-] Hg'. destruct (decide (nId = gameId)) as [->|Hne].
      * rewrite lookup_insert_eq in Hg'. injection Hg' as <-.
        right. right. exists game. split; [assumption|]. by apply step_next.
      * rewrite lookup_insert_ne in Hg' by assumption. by left.
  - (* reset *)
    destruct (reset_cases rId games session)
      as [(game & game' & [Hgame _] & -> & Hreset)|(_ & code & message & ->)];
      simpl; intros [= <-]; [|by left].
    intros Hg'. destruct (decide (rId = gameId)) as [->|Hne].
    + rewrite lookup_insert_eq in Hg'. injection Hg' as <-.
      right. right. exists game. split; [assumption|].
      apply step_reset; tauto.
    + rewrite lookup_insert_ne in Hg' by assumption. by left.
  - (* the timer of the results *)
    unfold hideRoundResults. intros [= <-].
    destruct (games !! hId) as [game|] eqn:Hgame; [|by left].
    intros Hg'. destruct (decide (hId = gameId)) as [->|Hne].
    + rewrite lookup_insert_eq in Hg'. injection Hg' as <-.
      right. right. exists game. split; [assumption|]. apply step_hide.
    + rewrite lookup_insert_ne in Hg' by assumption. by left.
  - (* the clean-up *)
    unfold cleanUp. intros [= <-] Hg'.
    apply map_lookup_filter_Some in Hg' as [Hg' _]. by left.
Qed.

(** A property of the new games that every step keeps holds of every game
    of every reachable registry. *)
Lemma reachable_invariant (P : Game -> Prop) :
  (forall gameId playerId now username gameMode,
     P (new_game gameId playerId now username gameMode)) ->
  (forall g g', P g -> game_step g g' -> P g') ->
  forall games, reachable games ->
  forall gameId g, games !! gameId = Some g -> P g.
Proof.
  intros Hnew Hstep games [rs Hrun].
  assert (Hgen : forall rs games0 games,
    (forall gameId g, games0 !! gameId = Some g -> P g) ->
    run rs games0 = Some games ->
    forall gameId g, games !! gameId = Some g -> P g).
  { clear games rs Hrun. induction rs as [|[r session] rs IH]; simpl;
      intros games0 games H0 Hrun.
    - by injection Hrun as <-.
    - destruct (handle r session games0) as [games1|] eqn:Hhandle; [|discriminate].
      simpl in Hrun. apply (IH games1 games); [|assumption].
      intros gameId g Hg.
      destruct (handle_game_step _ _ _ _ _ _ Hhandle Hg)
        as [Hsame|[(playerId & now & username & gameMode & ->)|(g0 & Hg0 & Hs)]].
      + by apply (H0 gameId).
      + apply Hnew.
      + apply (Hstep g0); [by apply (H0 gameId)|assumption]. }
  apply (Hgen rs ∅ games); [|assumption].
  intros gameId g Hg. by rewrite lookup_empty in Hg.
Qed.

(** ** The number of rounds of a game *)

Lemma completeRound_ids (g g' : Game) :
  completeRound g = Some g' -> map id (players g') = map id (players g).
Proof.
  intros Hg'. pose proof (completeRound_settled _ _ Hg') as Hs.
  destruct (ranking (bets g)) as [[[[h hb] s] t]|].
  - destruct Hs as ((Hs & _) & _). by apply settle_players_ids in Hs.
  - destruct Hs as ((-> & _) & _). reflexivity.
Qed.

Lemma completeRound_length (g g' : Game) :
  completeRound g = Some g' -> length (players g') = length (players g).
Proof.
  intros Hg'. apply completeRound_ids in Hg'.
  by rewrite <- (length_map id (players g')), Hg', length_map.
Qed.

Lemma completeRound_frame (g g' : Game) :
  completeRound g = Some g' ->
  totalRounds g' = totalRounds g /\ roundsToWin g' = roundsToWin g
  /\ gameMode g' = gameMode g /\ currentRound g' = currentRound g
  /\ status g' <> betting /\ status g' <> waiting.
Proof.
  intros Hg'. pose proof (completeRound_settled _ _ Hg') as Hs.
  assert (Hst : status g' <> betting /\ status g' <> waiting).
  { destruct (ranking (bets g)) as [[[[h hb] s] t]|].
    - destruct Hs as ((_ & -> & _) & _). by destruct (shouldEndGame g').
    - destruct Hs as ((_ & ->) & _). done. }
  tauto.
Qed.

Lemma rounds_inv_new gameId playerId now username gameMode :
  rounds_inv (new_game gameId playerId now username gameMode).
Proof. unfold rounds_inv. simpl. done. Qed.

Lemma rounds_inv_step (g g' : Game) :
  rounds_inv g -> game_step g g' -> rounds_inv g'.
Proof.
  unfold rounds_inv. intros (Htotal & Hwin & Hne) Hstep.
  destruct Hstep as [g playerId username Hst|g Hst Hlen
                    |g playerId player amount Hst Hp Hnone Ha Hall
                    |g g' playerId player amount Hst Hp Hnone Ha Hall Hround
                    |g g' Hst Hend Hw|g Hst Hend
                    |g g' Hps Hround Hst Hbets Hmode Htot Hrw|g];
    game_simpl; try done.
  - split; [reflexivity|]. split; [assumption|]. by destruct (players g).
  - destruct (completeRound_frame _ _ Hround) as (-> & -> & _).
    rewrite (completeRound_length _ _ Hround). game_simpl.
    split; [assumption|]. split; [assumption|].
    pose proof (completeRound_length _ _ Hround) as Hlen. game_simpl.
    destruct (players g'); [|done]. by destruct (players g).
  - apply determineOverallWinner_players in Hw as (w & -> & _). by game_simpl.
  - rewrite Htot, Hrw, Hps, length_map. split; [assumption|].
    split; [assumption|]. by destruct (players g).
Qed.

Lemma reachable_rounds_inv (games : gmap string Game) :
  reachable games ->
  forall gameId g, games !! gameId = Some g -> rounds_inv g.
Proof.
  apply (reachable_invariant rounds_inv).
  - apply rounds_inv_new.
  - apply rounds_inv_step.
Qed.

(** A step of a started game that does not bring it back to the waiting
    phase keeps its number of rounds and its players. *)
Lemma game_step_started (g g' : Game) :
  game_step g g' -> status g <> waiting -> status g' <> waiting ->
  totalRounds g' = totalRounds g
  /\ length (players g') = length (players g).
Proof.
  intros Hstep Hs Hs'.
  destruct Hstep as [g playerId username Hst|g Hst Hlen
                    |g playerId player amount Hst Hp Hnone Ha Hall
                    |g g' playerId player amount Hst Hp Hnone Ha Hall Hround
                    |g g' Hst Hend Hw|g Hst Hend
                    |g g' Hps Hround Hst Hbets Hmode Htot Hrw|g];
    game_simpl; try done.
  - destruct (completeRound_frame _ _ Hround) as (-> & _).
    by rewrite (completeRound_length _ _ Hround).
  - apply determineOverallWinner_players in Hw as (w & -> & _). by game_simpl.
Qed.

(** C6: in every game of the server the total number of rounds is the one
    for its number of players (5 for at most two players, 7 for three, 9
    for four or more), so this is the number that a game starts with; and
    no request changes the total number of rounds or the number of players
    of a game that has started, as long as the game is not sent back to
    the waiting phase. *)
Theorem totalRounds_fixed_by_player_count (games : gmap string Game) :
  reachable games ->
  (forall gameId g, games !! gameId = Some g ->
     totalRounds g
     = getTotalRoundsForPlayerCount (Z.of_nat (length (players g)))
     /\ ((length (players g) <= 2)%nat -> totalRounds g = 5)
     /\ (length (players g) = 3%nat -> totalRounds g = 7)
     /\ ((4 <= length (players g))%nat -> totalRounds g = 9))
  /\ (forall r session games' gameId g g',
        handle r session games = Some games' ->
        games !! gameId = Some g -> games' !! gameId = Some g' ->
        status g <> waiting -> status g' <> waiting ->
        totalRounds g' = totalRounds g
        /\ length (players g') = length (players g)).
Proof.
  intros Hreach. split.
  - intros gameId g Hg.
    destruct (reachable_rounds_inv _ Hreach _ _ Hg) as (Htotal & _).
    split; [assumption|]. rewrite Htotal.
    pose proof (getTotalRoundsForPlayerCount_spec
                  (Z.of_nat (length (players g)))) as (H5 & H7 & H9).
    split; [|split]; intros Hn; [apply H5|apply H7|apply H9]; lia.
  - intros r session games' gameId g g' Hhandle Hg Hg' Hs Hs'.
    destruct (handle_game_step _ _ _ _ _ _ Hhandle Hg')
      as [Hsame|[(playerId & now & username & gameMode & ->)|(g0 & Hg0 & Hstep)]].
    + assert (g' = g) as -> by congruence. done.
    + by destruct Hs'.
    + assert (g0 = g) as -> by congruence. by apply game_step_started.
Qed.

Lemma reachable_after_sample_run : reachable after_sample_run.
Proof. exists sample_run. vm_compute. reflexivity. Qed.

Example sample_run_result :
  (fun g => (status g, totalRounds g, map money (players g),
             map roundsWon (players g)))
  <$> after_sample_run !! "ROOM01"
  = Some (roundComplete, 7, [80; 80; 100], [0 + 0.5; 0 + 0.5; 0]%Q).
Proof. reflexivity. Qed.

Lemma totalRounds_fixed_by_player_count_witness :
  (forall gameId g, after_sample_run !! gameId = Some g ->
     totalRounds g
     = getTotalRoundsForPlayerCount (Z.of_nat (length (players g)))
     /\ ((length (players g) <= 2)%nat -> totalRounds g = 5)
     /\ (length (players g) = 3%nat -> totalRounds g = 7)
     /\ ((4 <= length (players g))%nat -> totalRounds g = 9))
  /\ (forall r session games' gameId g g',
        handle r session after_sample_run = Some games' ->
        after_sample_run !! gameId = Some g -> games' !! gameId = Some g' ->
        status g <> waiting -> status g' <> waiting ->
        totalRounds g' = totalRounds g
        /\ length (players g') = length (players g)).
Proof.
  apply (totalRounds_fixed_by_player_count after_sample_run).
  exists sample_run. vm_compute. reflexivity.
Defined.

(** ** Solvent players *)

Lemma find_elem {A} (f : A -> bool) (l : list A) (x : A) :
  List.find f l = Some x -> x ∈ l /\ f x = true.
Proof.
  intros H. apply find_first_such in H as (l1 & l2 & -> & Hx & _).
  split; [|assumption]. rewrite elem_of_app, elem_of_cons. auto.
Qed.

Lemma floor_of_elem (k : string) (ps : list Player) (m : Z) :
  floor_of k ps = Some m -> exists p, p ∈ ps /\ id p = k /\ money p = m.
Proof.
  unfold floor_of. destruct (List.find _ ps) as [p|] eqn:Hp; [|discriminate].
  intros [= <-]. apply find_elem in Hp as [Hin Hid].
  apply bool_decide_eq_true in Hid. by eauto.
Qed.

Lemma floor_of_map (f : Player -> Player) (k : string) (ps : list Player) :
  (forall p, id (f p) = id p) ->
  floor_of k (map f ps)
  = (fun p => money (f p)) <$> List.find (fun p => bool_decide (id p = k)) ps.
Proof.
  intros Hf. unfold floor_of. induction ps as [|p ps IH]; simpl; [reflexivity|].
  rewrite Hf. by case_bool_decide.
Qed.

(** The first player with a given id, around a player [x] that no player
    with the same id precedes. *)
Lemma floor_of_split (k : string) (l1 l2 : list Player) (x : Player) :
  (forall q, q ∈ l1 -> id q <> id x) ->
  floor_of k (l1 ++ x :: l2)
  = if bool_decide (k = id x) then Some (money x) else floor_of k (l1 ++ l2).
Proof.
  unfold floor_of. induction l1 as [|a l1 IH]; simpl; intros Hl1.
  - destruct (decide (k = id x)) as [Hk|Hk].
    + rewrite (bool_decide_eq_true_2 (k = id x)) by assumption.
      by rewrite (bool_decide_eq_true_2 (id x = k)).
    + rewrite (bool_decide_eq_false_2 (k = id x)) by assumption.
      rewrite (bool_decide_eq_false_2 (id x = k)); [reflexivity|congruence].
  - destruct (decide (id a = k)) as [Ha|Ha].
    + rewrite !(bool_decide_eq_true_2 (id a = k)) by assumption.
      rewrite (bool_decide_eq_false_2 (k = id x)); [reflexivity|].
      intros ->. apply (Hl1 a); [left|assumption].
    + rewrite !(bool_decide_eq_false_2 (id a = k)) by assumption.
      apply IH. intros q Hq. apply Hl1. by right.
Qed.

Lemma update_first_split (w : string) (f : Player -> Player)
    (ps ps' : list Player) :
  update_first w f ps = Some ps' ->
  exists l1 p l2, ps = l1 ++ p :: l2 /\ id p = w
    /\ (forall q, q ∈ l1 -> id q <> w) /\ ps' = l1 ++ f p :: l2.
Proof.
  revert ps'. induction ps as [|a ps IH]; simpl; intros ps' H; [discriminate|].
  case_bool_decide as Ha.
  - injection H as <-. exists [], a, ps. split; [reflexivity|].
    split; [assumption|]. split; [|reflexivity]. intros q Hq. inversion Hq.
  - destruct (update_first w f ps) as [ps1|]; [|discriminate].
    injection H as <-. destruct (IH ps1 eq_refl) as (l1 & p & l2 & -> & Hp & Hl1 & ->).
    exists (a :: l1), p, l2. split; [reflexivity|]. split; [assumption|].
    split; [|reflexivity].
    intros q Hq. apply elem_of_cons in Hq as [->|Hq]; [assumption|auto].
Qed.

(** Players that all have the same amount of money are solvent. *)
Lemma solvent_uniform (c : Z) (ps : list Player) :
  0 <= c -> (forall p, p ∈ ps -> money p = c) -> solvent ps.
Proof.
  intros Hc Hall. split.
  - intros p Hp. rewrite (Hall p Hp). assumption.
  - intros q m Hq Hm. apply floor_of_elem in Hm as (p & Hp & _ & <-).
    rewrite (Hall p Hp), (Hall q Hq). lia.
Qed.

(** The all-pay payments keep the players solvent when every player can
    afford the bid recorded under the id of that player. *)
Lemma solvent_pay_own_bid (o : gmap string Z) (ps : list Player) :
  solvent ps ->
  (forall p b, p ∈ ps -> o !! id p = Some b -> 0 <= b <= money p) ->
  solvent (map (pay_own_bid o) ps).
Proof.
  intros [Hpos Hfloor] Hbids. split.
  - intros p' Hp'. apply list_elem_of_fmap in Hp' as (p & -> & Hp). simpl.
    destruct (o !! id p) as [b|] eqn:Hb; simpl.
    + specialize (Hbids p b Hp Hb). lia.
    + specialize (Hpos p Hp). lia.
  - intros q' m Hq' Hm. apply list_elem_of_fmap in Hq' as (q & -> & Hq).
    rewrite floor_of_map in Hm by done. simpl in Hm.
    destruct (List.find _ ps) as [p0|] eqn:Hp0; [|discriminate].
    injection Hm as <-. simpl.
    pose proof (find_elem _ _ _ Hp0) as [_ Hid].
    apply bool_decide_eq_true in Hid. rewrite Hid.
    assert (money p0 <= money q); [|lia].
    apply Hfloor; [assumption|]. unfold floor_of. by rewrite Hp0.
Qed.

(** A payment of the first player with the id [w] keeps the players
    solvent when every player with that id can afford it. *)
Lemma solvent_update_first (w : string) (f : Player -> Player) (pay : Z)
    (ps ps' : list Player) :
  (forall p, id (f p) = id p) -> (forall p, money (f p) = money p - pay) ->
  0 <= pay ->
  solvent ps -> (forall p, p ∈ ps -> id p = w -> pay <= money p) ->
  update_first w f ps = Some ps' ->
  solvent ps' /\ forall p', p' ∈ ps' -> id p' <> w -> p' ∈ ps.
Proof.
  intros Hid Hmoney Hpay [Hpos Hfloor] Hafford Hupd.
  apply update_first_split in Hupd as (l1 & p & l2 & -> & Hp & Hl1 & ->).
  assert (Hl1' : forall q, q ∈ l1 -> id q <> id (f p)).
  { intros q Hq. rewrite Hid, Hp. by apply Hl1. }
  assert (Hl1p : forall q, q ∈ l1 -> id q <> id p).
  { intros q Hq. rewrite Hp. by apply Hl1. }
  assert (Hold : forall q, q ∈ l1 \/ q ∈ l2 -> q ∈ l1 ++ p :: l2).
  { intros q Hq. rewrite elem_of_app, elem_of_cons. tauto. }
  assert (Hpin : p ∈ l1 ++ p :: l2).
  { rewrite elem_of_app, elem_of_cons. auto. }
  split; [split|].
  - intros p' Hp'. rewrite elem_of_app, elem_of_cons in Hp'.
    destruct Hp' as [Hp'|[->|Hp']]; [apply Hpos, Hold; auto| |apply Hpos, Hold; auto].
    rewrite Hmoney. specialize (Hafford p Hpin Hp). lia.
  - intros q m Hq Hm. rewrite floor_of_split in Hm by assumption.
    rewrite Hid in Hm. case_bool_decide as Hqw.
    + injection Hm as <-. rewrite Hmoney.
      rewrite elem_of_app, elem_of_cons in Hq.
      destruct Hq as [Hq|[->|Hq]].
      * exfalso. by apply (Hl1p q).
      * rewrite Hmoney. lia.
      * assert (money p <= money q); [|lia].
        apply Hfloor; [apply Hold; auto|].
        rewrite floor_of_split by assumption.
        by rewrite bool_decide_eq_true_2.
    + assert (Hq' : q ∈ l1 \/ q ∈ l2).
      { rewrite elem_of_app, elem_of_cons in Hq.
        destruct Hq as [Hq|[->|Hq]]; [auto| |auto].
        exfalso. apply Hqw. by rewrite Hid. }
      apply Hfloor; [by apply Hold|].
      rewrite floor_of_split by assumption.
      by rewrite bool_decide_eq_false_2.
  - intros p' Hp' Hne. rewrite elem_of_app, elem_of_cons in Hp'.
    destruct Hp' as [Hp'|[->|Hp']]; [apply Hold; auto| |apply Hold; auto].
    exfalso. apply Hne. by rewrite Hid.
Qed.

Lemma solvent_update_all (ws : list string) (f : Player -> Player) (pay : Z)
    (ps ps' : list Player) :
  (forall p, id (f p) = id p) -> (forall p, money (f p) = money p - pay) ->
  0 <= pay -> NoDup ws ->
  solvent ps ->
  (forall w p, w ∈ ws -> p ∈ ps -> id p = w -> pay <= money p) ->
  update_all ws f ps = Some ps' ->
  solvent ps'.
Proof.
  intros Hid Hmoney Hpay. revert ps.
  induction ws as [|w ws IH]; simpl; intros ps Hnd Hsolv Hafford Hupd.
  - by injection Hupd as <-.
  - apply NoDup_cons in Hnd as [Hw Hnd].
    destruct (update_first w f ps) as [ps1|] eqn:H1; [|discriminate].
    simpl in Hupd.
    destruct (solvent_update_first w f pay ps ps1 Hid Hmoney Hpay Hsolv)
      as [Hsolv1 Hsame]; [|assumption|].
    { intros p Hp Hpw. apply (Hafford w); [left|assumption|assumption]. }
    apply (IH ps1); try assumption.
    intros w' p Hw' Hp Hpw'. apply (Hafford w'); [by right| |assumption].
    apply Hsame; [assumption|]. intros Heq. apply Hw. by rewrite <- Heq, Hpw'.
Qed.

(** What a winner pays is between 0 and the highest bid. *)
Lemma winner_payment_bounds (mode : string) (o : gmap string Z) h hb s t :
  ranking o = Some (h, hb, s, t) ->
  (forall k b, o !! k = Some b -> 0 <= b) ->
  0 <= winner_payment mode h hb s t <= h.
Proof.
  intros Hrank Hpos.
  destruct (ranking_spec _ _ _ _ _ Hrank) as ([[k Hk] Hmax] & _ & _ & Hs & Ht).
  pose proof (Hpos _ _ Hk) as Hh.
  assert (Hs' : forall s', s = Some s' -> 0 <= s' <= h).
  { intros s' ->. destruct Hs as ([k' Hk'] & Hlt & _).
    specialize (Hpos _ _ Hk'). lia. }
  assert (Ht' : forall t', t = Some t' -> 0 <= t' <= h).
  { intros t' ->. destruct Ht as (_ & (k' & Hk' & _) & _).
    specialize (Hmax _ _ Hk'). specialize (Hpos _ _ Hk'). lia. }
  unfold winner_payment. case_bool_decide; [lia|].
  destruct s as [s'|], t as [t'|]; simpl;
    try specialize (Hs' _ eq_refl); try specialize (Ht' _ eq_refl);
    destruct hb as [|? [|? ?]]; simpl; lia.
Qed.

(** The settlement keeps the players solvent. *)
Lemma settle_players_solvent (mode : string) (o : gmap string Z) h hb s t
    (ps ps' : list Player) :
  ranking o = Some (h, hb, s, t) ->
  solvent ps ->
  (forall k, is_Some (o !! k) -> k ∈ map id ps) ->
  (forall p b, p ∈ ps -> o !! id p = Some b -> 0 <= b <= money p) ->
  settle_players mode o h hb s t ps = Some ps' ->
  solvent ps'.
Proof.
  intros Hrank Hsolv Hknown Hbids.
  destruct (ranking_spec _ _ _ _ _ Hrank) as (_ & Hhb & Hnd & _).
  assert (Hpos : forall k b, o !! k = Some b -> 0 <= b).
  { intros k b Hk. assert (Hkp : k ∈ map id ps) by (apply Hknown; by eexists).
    apply list_elem_of_fmap in Hkp as (p & -> & Hp).
    specialize (Hbids p b Hp Hk). lia. }
  unfold settle_players. case_bool_decide.
  - apply (solvent_update_all hb _ 0); try done.
    + intros p. simpl. lia.
    + by apply solvent_pay_own_bid.
    + intros w p _ Hp _.
      destruct (solvent_pay_own_bid o ps Hsolv Hbids) as [Hge _]. by apply Hge.
  - pose proof (winner_payment_bounds mode o h hb s t Hrank Hpos) as Hpay.
    apply (solvent_update_all hb _ (winner_payment mode h hb s t)); try done.
    + lia.
    + intros w p Hw Hp Hpw. apply Hhb in Hw. rewrite <- Hpw in Hw.
      specialize (Hbids p h Hp Hw). lia.
Qed.

(** ** Money never goes below zero *)

Lemma money_inv_new gameId playerId now username gameMode :
  money_inv (new_game gameId playerId now username gameMode).
Proof.
  unfold money_inv. simpl. split; [|split; [done|split; [done|]]].
  - apply (solvent_uniform 100); [lia|].
    intros p Hp. by apply list_elem_of_singleton in Hp as ->.
  - intros _ p Hp. by apply list_elem_of_singleton in Hp as ->.
Qed.

(** The invariant after a bid is recorded, before the round is settled. *)
Lemma money_inv_bid (g : Game) (playerId : string) (player : Player)
    (amount : Z) :
  money_inv g -> status g = betting ->
  find_player playerId g = Some player ->
  0 <= amount <= money player ->
  money_inv (set_bets (<[id player := amount]> (bets g)) g).
Proof.
  intros (Hsolv & Hknown & Hbids & Hwait) Hst Hp Ha.
  pose proof (find_elem _ _ _ Hp) as [Hin Hid].
  apply bool_decide_eq_true in Hid.
  unfold money_inv, known_bidders. game_simpl.
  split; [assumption|]. split; [|split].
  - intros _ k Hk. destruct (decide (k = id player)) as [->|Hne].
    + apply list_elem_of_fmap. by eauto.
    + rewrite lookup_insert_ne in Hk by congruence. by apply Hknown.
  - intros _ p b Hpin Hb. destruct (decide (id p = id player)) as [Heq|Hne].
    + rewrite Heq, lookup_insert_eq in Hb. injection Hb as <-.
      assert (money player <= money p); [|lia].
      destruct Hsolv as [_ Hfloor]. apply Hfloor; [assumption|].
      unfold floor_of. unfold find_player in Hp.
      by rewrite Heq, Hid, Hp.
    + rewrite lookup_insert_ne in Hb by congruence. by apply Hbids.
  - intros Hw. congruence.
Qed.

Lemma money_inv_step (g g' : Game) :
  money_inv g -> game_step g g' -> money_inv g'.
Proof.
  intros Hinv Hstep.
  destruct Hstep as [g playerId username Hst|g Hst Hlen
                    |g playerId player amount Hst Hp Hnone Ha Hall
                    |g g' playerId player amount Hst Hp Hnone Ha Hall Hround
                    |g g' Hst Hend Hw|g Hst Hend
                    |g g' Hps Hround Hst Hbets Hmode Htot Hrw|g].
  - (* join *)
    destruct Hinv as (Hsolv & _ & _ & Hwait).
    assert (Hall : forall p, p ∈ players g ++ [mkPlayer playerId username 100 0 false]
                             -> money p = 100).
    { intros p Hp. rewrite elem_of_app, list_elem_of_singleton in Hp.
      destruct Hp as [Hp| ->]; [by apply Hwait|reflexivity]. }
    unfold money_inv. game_simpl. rewrite Hst.
    split; [by apply (solvent_uniform 100)|]. by repeat split.
  - (* start *)
    destruct Hinv as (Hsolv & _ & _ & _).
    unfold money_inv, known_bidders. game_simpl.
    split; [assumption|].
    split; [|split];
      [intros _ k [b Hb]; by rewrite lookup_empty in Hb
      |intros _ p b _ Hb; by rewrite lookup_empty in Hb
      |done].
  - (* a bid *)
    by apply (money_inv_bid g playerId).
  - (* the bid that closes the ledger *)
    pose proof (money_inv_bid g playerId player amount Hinv Hst Hp Ha)
      as (Hsolv & Hknown & Hbids & _).
    game_simpl. specialize (Hknown Hst). specialize (Hbids Hst).
    destruct (completeRound_frame _ _ Hround) as (_ & _ & _ & _ & Hnb & Hnw).
    unfold money_inv. split; [|by repeat split].
    pose proof (completeRound_settled _ _ Hround) as Hs. game_simpl.
    destruct (ranking (<[id player := amount]> (bets g)))
      as [[[[h hb] s] t]|] eqn:Hrank.
    + destruct Hs as ((Hs & _) & _).
      by apply (settle_players_solvent _ _ _ _ _ _ _ _ Hrank Hsolv Hknown Hbids Hs).
    + destruct Hs as ((-> & _) & _). assumption.
  - (* the end of the game *)
    apply determineOverallWinner_players in Hw as (w & -> & _).
    destruct Hinv as (Hsolv & _ & _ & _).
    unfold money_inv. game_simpl. split; [assumption|]. split; [done|]. by split.
  - (* the next round *)
    destruct Hinv as (Hsolv & _ & _ & _).
    unfold money_inv, known_bidders. game_simpl.
    split; [assumption|].
    split; [|split];
      [intros _ k [b Hb]; by rewrite lookup_empty in Hb
      |intros _ p b _ Hb; by rewrite lookup_empty in Hb
      |done].
  - (* reset *)
    assert (Hall : forall p, p ∈ players g' -> money p = 100).
    { intros p Hp. rewrite Hps in Hp.
      by apply list_elem_of_fmap in Hp as (p0 & -> & _). }
    unfold money_inv. rewrite Hst.
    split; [by apply (solvent_uniform 100)|]. by repeat split.
  - (* the timer of the results *)
    exact Hinv.
Qed.

Lemma reachable_money_inv (games : gmap string Game) :
  reachable games ->
  forall gameId g, games !! gameId = Some g -> money_inv g.
Proof.
  apply (reachable_invariant money_inv).
  - apply money_inv_new.
  - apply money_inv_step.
Qed.

(** No handler raises in a state that the server can be in: a run goes on
    with every request. *)
Lemma reachable_handle_total (games : gmap string Game) (r : Request)
    (session : Session) :
  reachable games -> is_Some (handle r session games).
Proof.
  intros Hreach.
  destruct r as [cId cPid now username gameMode|jPid jId username|sId
                |bId betAmount|nId|rId|hId|now]; simpl; try by eexists.
  - (* bet *)
    destruct (bet_cases bId betAmount games session)
      as [(game & player & amount & Hok & Hbet)|(_ & code & message & ->)];
      [|by eexists].
    destruct (bet_accepts _ _ _ _ _ _ _ Hok) as [g1 ->]; [|by eexists].
    destruct Hok as (Hgame & _ & Hst & _).
    destruct (reachable_money_inv _ Hreach _ _ Hgame) as (_ & Hknown & _).
    by apply Hknown.
  - (* next round *)
    unfold nextround, lookup_game.
    destruct (games !! nId) as [game|] eqn:Hgame; simpl; [|by eexists].
    destruct (user session) as [u|]; simpl; [|by eexists].
    destruct (negb (bool_decide _)); simpl; [by eexists|].
    destruct (find_player _ _) as [player|] eqn:Hp; simpl; [|by eexists].
    destruct (negb (host player)); simpl; [by eexists|].
    destruct (negb (bool_decide _)); simpl; [by eexists|].
    destruct (shouldEndGame game); [|by eexists].
    destruct (determineOverallWinner_total (set_status gameComplete game))
      as [g1 ->]; [|by eexists].
    game_simpl. apply find_elem in Hp as [Hin _].
    intros Hnil. rewrite Hnil in Hin. inversion Hin.
Qed.

Lemma run_app (rs1 rs2 : list (Request * Session)) (games : gmap string Game) :
  run (rs1 ++ rs2) games = run rs1 games ≫= run rs2.
Proof.
  revert games. induction rs1 as [|[r session] rs1 IH]; intros games; simpl.
  - reflexivity.
  - destruct (handle r session games) as [games1|]; simpl; [apply IH|reflexivity].
Qed.

Lemma reachable_handle (games games' : gmap string Game) (r : Request)
    (session : Session) :
  reachable games -> handle r session games = Some games' -> reachable games'.
Proof.
  intros [rs Hrs] Hhandle. exists (rs ++ [(r, session)]).
  rewrite run_app, Hrs. simpl. by rewrite Hhandle.
Qed.

(** C4: in every state that the server can be in, every player of every
    game has [money >= 0].  A bid is accepted only when
    [0 <= amount <= money] of the bidder; what a highest bidder pays in the
    standard and Vickrey settlements is between 0 and the highest bid,
    which is that bidder's own bid; and every request is handled (no
    handler raises) and leads to a state in which, again, no player has
    negative money. *)
Theorem money_never_negative (games : gmap string Game) :
  reachable games ->
  (forall gameId g p,
     games !! gameId = Some g -> p ∈ players g -> 0 <= money p)
  /\ (forall gameId betAmount session games' session',
        bet gameId betAmount games session
        = Some (games', session', JsonSuccess) ->
        exists game player amount,
          acceptable_bid gameId betAmount games session game player amount
          /\ 0 <= amount <= money player)
  /\ (forall mode o h hb s t,
        ranking o = Some (h, hb, s, t) ->
        (forall k b, o !! k = Some b -> 0 <= b) ->
        0 <= winner_payment mode h hb s t <= h)
  /\ (forall r session,
        exists games', handle r session games = Some games'
          /\ forall gameId g p,
               games' !! gameId = Some g -> p ∈ players g -> 0 <= money p).
Proof.
  intros Hreach.
  assert (Hinv : forall games0, reachable games0 ->
            forall gameId g p,
              games0 !! gameId = Some g -> p ∈ players g -> 0 <= money p).
  { intros games0 H0 gameId g p Hg Hp.
    destruct (reachable_money_inv _ H0 _ _ Hg) as ([Hpos _] & _). by apply Hpos. }
  split; [by apply Hinv|]. split; [|split].
  - intros gameId betAmount session games' session' Hbet.
    destruct (bet_cases gameId betAmount games session)
      as [(game & player & amount & Hok & _)|(_ & code & message & Herr)].
    + exists game, player, amount. split; [assumption|].
      by destruct Hok as (_ & _ & _ & _ & _ & Ha).
    + rewrite Herr in Hbet. discriminate.
  - intros mode o h hb s t. apply winner_payment_bounds.
  - intros r session.
    destruct (reachable_handle_total games r session Hreach) as [games' Hhandle].
    exists games'. split; [assumption|].
    apply Hinv. by apply (reachable_handle games games' r session).
Qed.

Lemma money_never_negative_witness :
  (forall gameId g p,
     after_sample_run !! gameId = Some g -> p ∈ players g -> 0 <= money p)
  /\ (forall gameId betAmount session games' session',
        bet gameId betAmount after_sample_run session
        = Some (games', session', JsonSuccess) ->
        exists game player amount,
          acceptable_bid gameId betAmount after_sample_run session
            game player amount
          /\ 0 <= amount <= money player)
  /\ (forall mode o h hb s t,
        ranking o = Some (h, hb, s, t) ->
        (forall k b, o !! k = Some b -> 0 <= b) ->
        0 <= winner_payment mode h hb s t <= h)
  /\ (forall r session,
        exists games', handle r session after_sample_run = Some games'
          /\ forall gameId g p,
               games' !! gameId = Some g -> p ∈ players g -> 0 <= money p).
Proof.
  apply (money_never_negative after_sample_run).
  exists sample_run. vm_compute. reflexivity.
Defined.

(** The games of the server have [roundsToWin = 3], and in the betting
    phase every bid of the ledger is the bid of a player: the hypotheses
    of the termination predicate and of the acceptance of a bid hold of
    them. *)
Lemma reachable_roundsToWin (games : gmap string Game) (gameId : string)
    (g : Game) :
  reachable games -> games !! gameId = Some g -> roundsToWin g = 3%Q.
Proof.
  intros Hreach Hg. by destruct (reachable_rounds_inv _ Hreach _ _ Hg) as (_ & ? & _).
Qed.

Lemma reachable_known_bidders (games : gmap string Game) (gameId : string)
    (g : Game) :
  reachable games -> games !! gameId = Some g -> status g = betting ->
  known_bidders g.
Proof.
  intros Hreach Hg Hst.
  destruct (reachable_money_inv _ Hreach _ _ Hg) as (_ & Hknown & _).
  by apply Hknown.
Qed.

(** In the betting phase a game of the server is well formed as soon as
    the ids of its players are distinct. *)
Lemma reachable_wf_game (games : gmap string Game) (gameId : string)
    (g : Game) :
  reachable games -> games !! gameId = Some g -> status g = betting ->
  NoDup (map id (players g)) -> wf_game g.
Proof.
  intros Hreach Hg Hst Hnd. split; [assumption|].
  by apply (reachable_known_bidders games gameId).
Qed.

(** ** The routes on a sample registry *)

(** In the third round of the sample game, [cyd] bids 30 of 90: the bid is
    accepted and recorded; a bid of 91 is rejected and nothing changes;
    [bob], who has bid already, is rejected as well. *)
Example bet_accepted :
  (fun o : Outcome => (bets <$> o.1.1 !! "ROOM01", o.2))
  <$> bet "ROOM01" (Some 30) one_game (session_of cyd3)
  = Some (Some (<["p3" := 30]> (<["p2" := 20]> ∅)), JsonSuccess).
Proof. reflexivity. Qed.

Example bet_over_balance_rejected :
  bet "ROOM01" (Some 91) one_game (session_of cyd3)
  = Some (one_game, session_of cyd3, JsonError 400 "Invalid bet amount").
Proof. reflexivity. Qed.

Example bet_twice_rejected :
  bet "ROOM01" (Some 5) one_game (session_of bob3)
  = Some (one_game, session_of bob3,
          JsonError 400 "You have already placed a bet this round").
Proof. reflexivity. Qed.

(** The host resets the sample game; another player may not. *)
Example reset_by_host :
  (fun g => (status g, currentRound g, map money (players g),
             map roundsWon (players g), map name (players g)))
  <$> (reset "ROOM01" one_game (session_of ann3)).1.1 !! "ROOM01"
  = Some (waiting, 0, [100; 100; 100], [0; 0; 0]%Q, ["ann"; "bob"; "cyd"]).
Proof. reflexivity. Qed.

Example reset_by_other_rejected :
  reset "ROOM01" one_game (session_of bob3)
  = (one_game, session_of bob3,
     JsonError 403 "Only the host can reset the game").
Proof. reflexivity. Qed.

(** * Further properties of the code *)

(** ** What the settlement keeps of the players *)

Lemma settles_to_refl (o : gmap string Z) (p : Player) : settles_to o p p.
Proof. unfold settles_to. repeat split; try lia. apply Qle_refl. Qed.

Lemma settles_to_trans (o : gmap string Z) (p1 p2 p3 : Player) :
  settles_to o p1 p2 -> settles_to o p2 p3 -> settles_to o p1 p3.
Proof.
  intros (Hi & Hn & Hh & Hw & Hm) (Hi' & Hn' & Hh' & Hw' & Hm').
  unfold settles_to. repeat split; try congruence.
  - by apply Qle_trans with (roundsWon p2).
  - intros Hpos. specialize (Hm Hpos). specialize (Hm' Hpos). lia.
Qed.

Lemma Forall2_settles_to_refl (o : gmap string Z) (ps : list Player) :
  Forall2 (settles_to o) ps ps.
Proof. induction ps; constructor; [apply settles_to_refl|assumption]. Qed.

Lemma Forall2_settles_to_trans (o : gmap string Z) (l1 l2 l3 : list Player) :
  Forall2 (settles_to o) l1 l2 -> Forall2 (settles_to o) l2 l3 ->
  Forall2 (settles_to o) l1 l3.
Proof.
  intros H12. revert l3. induction H12 as [|p1 p2 l1 l2 Hp H12 IH]; intros l3 H23.
  - by inversion H23.
  - inversion H23 as [|p2' p3 l2' l3' Hp' H23']; subst.
    constructor; [by apply (settles_to_trans o p1 p2)|by apply IH].
Qed.

Lemma update_first_settles (o : gmap string Z) (w : string)
    (f : Player -> Player) (ps ps' : list Player) :
  (forall p, settles_to o p (f p)) ->
  update_first w f ps = Some ps' -> Forall2 (settles_to o) ps ps'.
Proof.
  intros Hf Hupd.
  apply update_first_split in Hupd as (l1 & p & l2 & -> & _ & _ & ->).
  apply Forall2_app; [apply Forall2_settles_to_refl|].
  constructor; [apply Hf|apply Forall2_settles_to_refl].
Qed.

Lemma update_all_settles (o : gmap string Z) (ws : list string)
    (f : Player -> Player) (ps ps' : list Player) :
  (forall p, settles_to o p (f p)) ->
  update_all ws f ps = Some ps' -> Forall2 (settles_to o) ps ps'.
Proof.
  intros Hf. revert ps. induction ws as [|w ws IH]; simpl; intros ps Hupd.
  - injection Hupd as <-. apply Forall2_settles_to_refl.
  - destruct (update_first w f ps) as [ps1|] eqn:H1; [|discriminate].
    simpl in Hupd. apply (Forall2_settles_to_trans o ps ps1 ps').
    + by apply (update_first_settles o w f).
    + by apply IH.
Qed.

Lemma getFractionalWinAmount_pos (n : Z) : (0 < getFractionalWinAmount n)%Q.
Proof.
  unfold getFractionalWinAmount.
  destruct (n <=? 1); [reflexivity|]. destruct (n =? 2); [reflexivity|].
  destruct (n =? 3); [reflexivity|]. destruct (n =? 4); reflexivity.
Qed.

Lemma Qle_plus_pos (x c : Q) : (0 < c)%Q -> (x <= x + c)%Q.
Proof.
  intros Hc. rewrite <- (Qplus_0_r x) at 1.
  apply Qplus_le_r. by apply Qlt_le_weak.
Qed.

Lemma settle_players_settles (mode : string) (o : gmap string Z) h hb s t
    (ps ps' : list Player) :
  ranking o = Some (h, hb, s, t) ->
  settle_players mode o h hb s t ps = Some ps' ->
  Forall2 (settles_to o) ps ps'.
Proof.
  intros Hrank. unfold settle_players. case_bool_decide; intros Hs.
  - apply (Forall2_settles_to_trans o ps (map (pay_own_bid o) ps) ps').
    + clear Hs. induction ps as [|p ps IH]; simpl; constructor; [|assumption].
      unfold settles_to. simpl. repeat split; try apply Qle_refl.
      intros Hpos. destruct (o !! id p) as [b|] eqn:Hb; simpl; [|lia].
      specialize (Hpos _ _ Hb). lia.
    + apply (update_all_settles o hb _ _ _) in Hs; [assumption|].
      intros p. unfold settles_to. simpl. repeat split; try lia.
      apply Qle_plus_pos, getFractionalWinAmount_pos.
  - apply (update_all_settles o hb _ _ _) in Hs; [assumption|].
    intros p. unfold settles_to. simpl. repeat split.
    + apply Qle_plus_pos, getFractionalWinAmount_pos.
    + intros Hpos.
      pose proof (winner_payment_bounds mode o h hb s t Hrank Hpos). lia.
Qed.

(** X1: whatever the game (its players need not have distinct ids),
    [completeRound] keeps the players in their order with their ids, names
    and host flags, takes no win away from anyone, and, when no bid of the
    ledger is negative, gives no money to anyone. *)
Theorem completeRound_keeps_players (g g' : Game) :
  completeRound g = Some g' ->
  Forall2 (settles_to (bets g)) (players g) (players g').
Proof.
  intros Hg'. pose proof (completeRound_settled _ _ Hg') as Hs.
  destruct (ranking (bets g)) as [[[[h hb] s] t]|] eqn:Hrank.
  - destruct Hs as ((Hs & _) & _). by apply (settle_players_settles _ _ _ _ _ _ _ _ Hrank Hs).
  - destruct Hs as ((-> & _) & _). apply Forall2_settles_to_refl.
Qed.

Lemma completeRound_keeps_players_witness :
  Forall2 (settles_to (bets vickrey_tie_round))
    (players vickrey_tie_round) (players (settled vickrey_tie_round)).
Proof.
  apply (completeRound_keeps_players vickrey_tie_round). vm_compute. reflexivity.
Defined.

(** ** Standard settlement *)



(** ** What a settled round records *)

(** X3: [completeRound] records the ledger as [lastRoundBets] and raises
    the flag [showRoundResults].  On an empty ledger it records no winner,
    leaves the players alone and completes the round without testing
    whether the game is over.  Otherwise [roundWinners] lists, once each,
    exactly the players whose bid is the highest, at least one, and
    [secondHighestBid] and [thirdHighestBid] are the ranks of the rules
    (the third one only for tied winners). *)
Theorem round_result_recorded (g g' : Game) :
  completeRound g = Some g' ->
  lastRoundBets g' = bets g /\ showRoundResults g' = true
  /\ (bets g = ∅ ->
      roundWinners g' = Some [] /\ players g' = players g
      /\ status g' = roundComplete /\ overallWinner g' = overallWinner g)
  /\ (forall h, is_highest (bets g) h ->
      exists hb, roundWinners g' = Some hb
        /\ NoDup hb /\ hb <> []
        /\ (forall k, k ∈ hb <-> bets g !! k = Some h)
        /\ match secondHighestBid g' with
           | Some s => is_second_highest (bets g) h s
           | None => all_tied (bets g) h
           end
        /\ match thirdHighestBid g' with
           | Some t => (2 <= length hb)%nat /\ is_third_highest (bets g) h t
           | None => (length hb <= 1)%nat \/ all_tied (bets g) h
           end).
Proof.
  intros Hg'. pose proof (completeRound_settled _ _ Hg') as Hs.
  split; [tauto|]. split; [tauto|]. split.
  - intros Hempty. rewrite completeRound_unfold in Hg'.
    assert (Hrank : ranking (bets g) = None) by (by apply ranking_none).
    rewrite Hrank in Hg'. injection Hg' as <-. by game_simpl.
  - intros h Hhigh.
    destruct (is_highest_ranking _ _ Hhigh) as (hb & s & t & Hrank).
    rewrite Hrank in Hs. destruct Hs as ((_ & _ & Hw & Hs2 & Hs3) & _).
    destruct (ranking_spec _ _ _ _ _ Hrank) as ([[k Hk] _] & Hhb & Hnd & Hs & Ht).
    exists hb. rewrite Hs2, Hs3. split; [assumption|]. split; [assumption|].
    split; [|tauto]. intros ->. apply Hhb in Hk. inversion Hk.
Qed.

Lemma round_result_recorded_witness :
  lastRoundBets (settled vickrey_tie_round) = bets vickrey_tie_round
  /\ showRoundResults (settled vickrey_tie_round) = true
  /\ (bets vickrey_tie_round = ∅ ->
      roundWinners (settled vickrey_tie_round) = Some []
      /\ players (settled vickrey_tie_round) = players vickrey_tie_round
      /\ status (settled vickrey_tie_round) = roundComplete
      /\ overallWinner (settled vickrey_tie_round)
         = overallWinner vickrey_tie_round)
  /\ (forall h, is_highest (bets vickrey_tie_round) h ->
      exists hb, roundWinners (settled vickrey_tie_round) = Some hb
        /\ NoDup hb /\ hb <> []
        /\ (forall k, k ∈ hb <-> bets vickrey_tie_round !! k = Some h)
        /\ match secondHighestBid (settled vickrey_tie_round) with
           | Some s => is_second_highest (bets vickrey_tie_round) h s
           | None => all_tied (bets vickrey_tie_round) h
           end
        /\ match thirdHighestBid (settled vickrey_tie_round) with
           | Some t => (2 <= length hb)%nat
                       /\ is_third_highest (bets vickrey_tie_round) h t
           | None => (length hb <= 1)%nat \/ all_tied (bets vickrey_tie_round) h
           end).
Proof.
  apply (round_result_recorded vickrey_tie_round). vm_compute. reflexivity.
Defined.

(** The round of the sample records its two winners and the bid of 20. *)
Example vickrey_tie_recorded :
  (roundWinners (settled vickrey_tie_round),
   secondHighestBid (settled vickrey_tie_round),
   thirdHighestBid (settled vickrey_tie_round))
  = (Some ["p1"; "p2"], Some 20, Some 20).
Proof. reflexivity. Qed.

(** ** The payments on display *)

Lemma fold_insert_players_lookup (F : string -> Z) (ps : list Player)
    (m : gmap string Z) (k : string) :
  fold_left (fun acc p => <[id p := F (id p)]> acc) ps m !! k
  = if bool_decide (k ∈ map id ps) then Some (F k) else m !! k.
Proof.
  revert m. induction ps as [|p ps IH]; intros m; simpl; [reflexivity|].
  rewrite IH. destruct (decide (k ∈ map id ps)) as [Hin|Hin].
  - rewrite !bool_decide_eq_true_2; [reflexivity|by right|assumption].
  - rewrite (bool_decide_eq_false_2 (k ∈ map id ps)) by assumption.
    destruct (decide (k = id p)) as [->|Hne].
    + rewrite lookup_insert_eq. rewrite bool_decide_eq_true_2; [reflexivity|left].
    + rewrite lookup_insert_ne by congruence.
      rewrite bool_decide_eq_false_2; [reflexivity|].
      intros Hk. apply elem_of_cons in Hk as [?|?]; done.
Qed.

Lemma fold_insert_winners_lookup (pay : Z) (ws : list string)
    (m : gmap string Z) (k : string) :
  fold_left (fun acc w => <[w := pay]> acc) ws m !! k
  = if bool_decide (k ∈ ws) then Some pay else m !! k.
Proof.
  revert m. induction ws as [|w ws IH]; intros m; simpl; [reflexivity|].
  rewrite IH. destruct (decide (k ∈ ws)) as [Hin|Hin].
  - rewrite !bool_decide_eq_true_2; [reflexivity|by right|assumption].
  - rewrite (bool_decide_eq_false_2 (k ∈ ws)) by assumption.
    destruct (decide (k = w)) as [->|Hne].
    + rewrite lookup_insert_eq. rewrite bool_decide_eq_true_2; [reflexivity|left].
    + rewrite lookup_insert_ne by congruence.
      rewrite bool_decide_eq_false_2; [reflexivity|].
      intros Hk. apply elem_of_cons in Hk as [?|?]; done.
Qed.

Lemma completeRound_payments (g g' : Game) h hb s t :
  ranking (bets g) = Some (h, hb, s, t) -> completeRound g = Some g' ->
  actualPayments g'
  = settle_payments (gameMode g) (bets g) h hb s t (players g).
Proof.
  intros Hrank. rewrite completeRound_unfold, Hrank.
  destruct (settle_players _ _ _ _ _ _ _) as [ps|]; [|discriminate].
  cbn [mbind option_bind].
  destruct (shouldEndGame _).
  - intros Hw. apply determineOverallWinner_players in Hw as (w & -> & _).
    reflexivity.
  - by intros [= <-].
Qed.

(** X4: after the settlement of a round with bids in a well-formed game,
    [actualPayments] has an entry for every player and for nobody else,
    and the entry of a player is what the round took from that player's
    money. *)
Theorem actualPayments_are_paid (g g' : Game) (h : Z) :
  wf_game g -> is_highest (bets g) h -> completeRound g = Some g' ->
  (forall k, is_Some (actualPayments g' !! k) <-> k ∈ map id (players g))
  /\ forall i p, players g !! i = Some p ->
     exists p', players g' !! i = Some p'
       /\ actualPayments g' !! id p = Some (money p - money p').
Proof.
  intros Hwf Hhigh Hg'.
  destruct (is_highest_ranking _ _ Hhigh) as (hb & s & t & Hrank).
  rewrite (completeRound_payments _ _ _ _ _ _ Hrank Hg').
  rewrite (completeRound_wf _ _ _ _ _ _ Hwf Hrank Hg').
  destruct (ranking_spec _ _ _ _ _ Hrank) as (_ & Hhb & _).
  assert (Hin : forall w, w ∈ hb -> w ∈ map id (players g)).
  { intros w Hw. destruct Hwf as [_ Hknown]. apply Hknown.
    apply Hhb in Hw. by eexists. }
  assert (Hlookup : forall k,
    settle_payments (gameMode g) (bets g) h hb s t (players g) !! k
    = if bool_decide (k ∈ map id (players g))
      then Some (if bool_decide (gameMode g = "all-pay")
                 then default 0 (bets g !! k)
                 else if bool_decide (k ∈ hb)
                      then winner_payment (gameMode g) h hb s t else 0)
      else None).
  { intros k. unfold settle_payments. case_bool_decide.
    - rewrite (fold_insert_players_lookup (fun k => default 0 (bets g !! k))).
      by rewrite lookup_empty.
    - rewrite fold_insert_winners_lookup.
      rewrite (fold_insert_players_lookup (fun _ => 0)), lookup_empty.
      case_bool_decide as Hk; [|reflexivity].
      by rewrite bool_decide_eq_true_2 by (by apply Hin). }
  split.
  - intros k. rewrite Hlookup.
    destruct (decide (k ∈ map id (players g))) as [Hk|Hk].
    + rewrite bool_decide_eq_true_2 by assumption.
      split; [done|intros _; by eexists].
    + rewrite bool_decide_eq_false_2 by assumption.
      split; [intros [x Hx]; discriminate|done].
  - intros i p Hp. eexists. split.
    { change (map ?f ?l) with (f <$> l). rewrite list_lookup_fmap, Hp. reflexivity. }
    rewrite Hlookup. rewrite bool_decide_eq_true_2.
    2:{ apply list_elem_of_fmap. exists p. split; [reflexivity|].
        by apply list_elem_of_lookup_2 in Hp. }
    f_equal. unfold settle_player.
    repeat case_bool_decide; simpl; lia.
Qed.

Lemma actualPayments_are_paid_witness :
  (forall k, is_Some (actualPayments (settled vickrey_tie_round) !! k)
             <-> k ∈ map id (players vickrey_tie_round))
  /\ forall i p, players vickrey_tie_round !! i = Some p ->
     exists p', players (settled vickrey_tie_round) !! i = Some p'
       /\ actualPayments (settled vickrey_tie_round) !! id p
          = Some (money p - money p').
Proof.
  apply (actualPayments_are_paid vickrey_tie_round (settled vickrey_tie_round) 40).
  - apply wf_gameb_spec. vm_compute. reflexivity.
  - apply (is_highest_check _ _ "p1"); vm_compute; reflexivity.
  - vm_compute. reflexivity.
Defined.

(** ** The three modes on one ledger *)

(** X5: on the same players and the same ledger without negative bids, a
    player ends the round with at least as much money in a Vickrey game as
    in a standard game, and in a standard game as in an all-pay game; the
    wins are the same in the three modes. *)
Theorem modes_compared (ga gs gv ga' gs' gv' : Game) (h : Z) :
  gameMode ga = "all-pay" -> gameMode gs = "standard" ->
  gameMode gv = "vickrey" ->
  players gs = players ga -> players gv = players ga ->
  bets gs = bets ga -> bets gv = bets ga ->
  wf_game ga -> (forall k b, bets ga !! k = Some b -> 0 <= b) ->
  is_highest (bets ga) h ->
  completeRound ga = Some ga' -> completeRound gs = Some gs' ->
  completeRound gv = Some gv' ->
  forall i p, players ga !! i = Some p ->
    exists pa ps pv,
      players ga' !! i = Some pa /\ players gs' !! i = Some ps
      /\ players gv' !! i = Some pv
      /\ money pa <= money ps <= money pv
      /\ roundsWon pa = roundsWon ps /\ roundsWon ps = roundsWon pv.
Proof.
  intros Hma Hms Hmv Hps Hpv Hbs Hbv Hwf Hpos Hhigh Ha Hs Hv i p Hp.
  destruct (is_highest_ranking _ _ Hhigh) as (hb & s & t & Hrank).
  assert (Hwfs : wf_game gs) by (unfold wf_game; by rewrite Hps, Hbs).
  assert (Hwfv : wf_game gv) by (unfold wf_game; by rewrite Hpv, Hbv).
  rewrite (completeRound_wf _ _ _ _ _ _ Hwf Hrank Ha).
  rewrite <- Hbs in Hrank.
  rewrite (completeRound_wf _ _ _ _ _ _ Hwfs Hrank Hs).
  rewrite Hbs, <- Hbv in Hrank.
  rewrite (completeRound_wf _ _ _ _ _ _ Hwfv Hrank Hv).
  rewrite Hbv in Hrank.
  rewrite Hps, Hpv, Hbs, Hbv, Hma, Hms, Hmv.
  change (map ?f ?l) with (f <$> l). rewrite !list_lookup_fmap, Hp. simpl.
  do 3 eexists. split; [reflexivity|]. split; [reflexivity|].
  split; [reflexivity|]. rewrite !settle_player_roundsWon.
  split; [|done].
  destruct (ranking_spec _ _ _ _ _ Hrank) as (_ & Hhb & _).
  pose proof (winner_payment_bounds "vickrey" _ _ _ _ _ Hrank Hpos) as Hpay.
  unfold settle_player.
  rewrite (bool_decide_eq_true_2 ("all-pay" = "all-pay")) by reflexivity.
  rewrite (bool_decide_eq_false_2 ("standard" = "all-pay")) by discriminate.
  rewrite (bool_decide_eq_false_2 ("vickrey" = "all-pay")) by discriminate.
  destruct (decide (id p ∈ hb)) as [Hwin|Hlose].
  - rewrite !(bool_decide_eq_true_2 (id p ∈ hb)) by assumption.
    apply Hhb in Hwin.
    change (winner_payment "standard" h hb s t) with h.
    unfold credit, charge, pay_own_bid. game_simpl. rewrite Hwin. simpl. lia.
  - rewrite !(bool_decide_eq_false_2 (id p ∈ hb)) by assumption.
    unfold pay_own_bid. game_simpl.
    destruct (bets ga !! id p) as [b|] eqn:Hb; simpl; [|lia].
    specialize (Hpos _ _ Hb). lia.
Qed.

Lemma modes_compared_witness :
  exists pa ps pv,
    players (settled all_pay_tie_round) !! 0%nat = Some pa
    /\ players (settled standard_tie_round) !! 0%nat = Some ps
    /\ players (settled vickrey_tie_round) !! 0%nat = Some pv
    /\ money pa <= money ps <= money pv
    /\ roundsWon pa = roundsWon ps /\ roundsWon ps = roundsWon pv.
Proof.
  apply (modes_compared all_pay_tie_round standard_tie_round vickrey_tie_round
           (settled all_pay_tie_round) (settled standard_tie_round)
           (settled vickrey_tie_round) 40 eq_refl eq_refl eq_refl eq_refl
           eq_refl eq_refl eq_refl) with (p := p1).
  - apply wf_gameb_spec. vm_compute. reflexivity.
  - intros k b Hb.
    assert (Hall : forallb (fun e => 0 <=? e.2)
                     (map_to_list (bets all_pay_tie_round)) = true)
      by (vm_compute; reflexivity).
    rewrite forallb_forall in Hall. specialize (Hall (k, b)).
    apply Z.leb_le, Hall, list_elem_of_In. by apply elem_of_map_to_list.
  - apply (is_highest_check _ _ "p1"); vm_compute; reflexivity.
  - vm_compute. reflexivity.
  - vm_compute. reflexivity.
  - vm_compute. reflexivity.
  - reflexivity.
Defined.

(** ** How a settled round ends *)

Lemma determineOverallWinner_first_winner (g g' : Game) :
  gameMode g = "all-pay" -> (exists p, p ∈ players g /\ has_won g p) ->
  determineOverallWinner g = Some g' ->
  exists w, g' = set_overallWinner (Some w) g
            /\ first_such (has_won g) (players g) w.
Proof.
  intros Hmode (p & Hp & Hwon). unfold determineOverallWinner.
  rewrite bool_decide_eq_true_2 by assumption.
  destruct (List.find _ (players g)) as [w|] eqn:Hfind.
  - intros [= <-]. exists w. split; [reflexivity|].
    apply find_first_such in Hfind as (l1 & l2 & Heq & Hw & Hl1).
    exists l1, l2. split; [assumption|]. unfold has_won. split.
    + by apply Qle_bool_iff.
    + intros q Hq Hq'. apply Qle_bool_iff in Hq'.
      specialize (Hl1 q Hq). congruence.
  - apply (find_none_all _ _ Hfind) in Hp. apply Qle_bool_iff in Hwon.
    unfold has_won in Hwon. congruence.
Qed.

(** The end of [completeRound], on the game [sg] that the settlement
    built. *)
Lemma end_of_round (sg g' : Game) :
  status sg = roundComplete ->
  (if shouldEndGame sg
   then determineOverallWinner (set_status gameComplete sg)
   else Some sg) = Some g' ->
  players g' = players sg /\ roundsToWin g' = roundsToWin sg
  /\ (status g' = gameComplete \/ status g' = roundComplete)
  /\ (gameMode sg = "all-pay" ->
      (exists p, p ∈ players sg /\ has_won sg p) ->
      status g' = gameComplete
      /\ exists w, overallWinner g' = Some w
                   /\ first_such (has_won sg) (players sg) w)
  /\ (gameMode sg <> "all-pay" ->
      (status g' = gameComplete <-> currentRound sg >= totalRounds sg))
  /\ (status g' = gameComplete ->
      exists w, overallWinner g' = Some w /\ w ∈ players sg)
  /\ (status g' = roundComplete -> overallWinner g' = overallWinner sg).
Proof.
  intros Hst. destruct (shouldEndGame sg) eqn:Hend.
  - intros Hw.
    pose proof (determineOverallWinner_players _ _ Hw) as (w & Hg' & Hin).
    split; [by rewrite Hg'|]. split; [by rewrite Hg'|].
    split; [left; by rewrite Hg'|]. split; [|split; [|split]].
    + intros Hall Hex.
      destruct (determineOverallWinner_first_winner
                  (set_status gameComplete sg) g' Hall Hex Hw)
        as (w' & Hg'' & Hfirst).
      rewrite Hg''. split; [reflexivity|]. exists w'. by split.
    + intros Hnot. rewrite Hg'. split; [intros _|done].
      unfold shouldEndGame in Hend.
      rewrite bool_decide_eq_false_2 in Hend by assumption.
      apply Z.geb_le in Hend. lia.
    + intros _. rewrite Hg'. exists w. by split.
    + rewrite Hg'. discriminate.
  - intros [= <-]. split; [done|]. split; [done|]. split; [by right|].
    split; [|split; [|split]].
    + intros Hall (p & Hp & Hwon). exfalso.
      unfold shouldEndGame in Hend.
      rewrite bool_decide_eq_true_2 in Hend by assumption.
      apply orb_false_iff in Hend as [Hex _].
      assert (Htrue : existsb (fun p => Qle_bool (roundsToWin sg) (roundsWon p))
                        (players sg) = true).
      { apply existsb_elem. exists p. split; [assumption|]. by apply Qle_bool_iff. }
      congruence.
    + intros Hnot. rewrite Hst. split; [discriminate|]. intros Hge. exfalso.
      unfold shouldEndGame in Hend.
      rewrite bool_decide_eq_false_2 in Hend by assumption.
      destruct (Z.geb_spec (currentRound sg) (totalRounds sg)); [discriminate|lia].
    + rewrite Hst. discriminate.
    + done.
Qed.

(** X6: the settlement of a round with bids ends in the status
    [roundComplete] or [gameComplete].  In an all-pay game in which a
    player has reached [roundsToWin] after the round, the game is over at
    once, whatever the round, and the overall winner is the first such
    player, whatever the money of the players; in the other modes the game
    is over exactly when this was the last round.  A game that is over has
    one of its players as overall winner; a round that is only complete
    leaves [overallWinner] as it was. *)
Theorem completeRound_outcome (g g' : Game) :
  bets g <> ∅ -> completeRound g = Some g' ->
  (status g' = gameComplete \/ status g' = roundComplete)
  /\ (gameMode g = "all-pay" ->
      (exists p, p ∈ players g' /\ has_won g' p) ->
      status g' = gameComplete
      /\ exists w, overallWinner g' = Some w
                   /\ first_such (has_won g') (players g') w)
  /\ (gameMode g <> "all-pay" ->
      (status g' = gameComplete <-> currentRound g >= totalRounds g))
  /\ (status g' = gameComplete ->
      exists w, overallWinner g' = Some w /\ w ∈ players g')
  /\ (status g' = roundComplete -> overallWinner g' = overallWinner g).
Proof.
  intros Hne. rewrite completeRound_unfold.
  destruct (ranking (bets g)) as [[[[h hb] s] t]|] eqn:Hrank.
  2:{ by apply ranking_none in Hrank. }
  destruct (settle_players _ _ _ _ _ _ _) as [ps|]; [|discriminate].
  cbn [mbind option_bind].
  assert (Hsg : gameMode (settled_game g h hb s t ps) = gameMode g
                /\ currentRound (settled_game g h hb s t ps) = currentRound g
                /\ totalRounds (settled_game g h hb s t ps) = totalRounds g
                /\ status (settled_game g h hb s t ps) = roundComplete
                /\ overallWinner (settled_game g h hb s t ps) = overallWinner g).
  { unfold settled_game. by game_simpl. }
  revert Hsg. generalize (settled_game g h hb s t ps). intros sg.
  intros (Hmode & Hround & Htotal & Hst & Hov) Hg'.
  destruct (end_of_round sg g' Hst Hg')
    as (Hps & Hwin & Hstatus & Hall & Hother & Hover & Hkeep).
  rewrite Hmode in Hall, Hother. rewrite Hround, Htotal in Hother.
  rewrite Hov in Hkeep. rewrite Hps. unfold has_won in *. rewrite Hwin.
  split; [assumption|]. split; [assumption|]. split; [assumption|]. by split.
Qed.

Lemma completeRound_outcome_witness :
  (status (settled deciding_round) = gameComplete
   \/ status (settled deciding_round) = roundComplete)
  /\ (gameMode deciding_round = "all-pay" ->
      (exists p, p ∈ players (settled deciding_round)
                 /\ has_won (settled deciding_round) p) ->
      status (settled deciding_round) = gameComplete
      /\ exists w, overallWinner (settled deciding_round) = Some w
                   /\ first_such (has_won (settled deciding_round))
                        (players (settled deciding_round)) w)
  /\ (gameMode deciding_round <> "all-pay" ->
      (status (settled deciding_round) = gameComplete
       <-> currentRound deciding_round >= totalRounds deciding_round))
  /\ (status (settled deciding_round) = gameComplete ->
      exists w, overallWinner (settled deciding_round) = Some w
                /\ w ∈ players (settled deciding_round))
  /\ (status (settled deciding_round) = roundComplete ->
      overallWinner (settled deciding_round) = overallWinner deciding_round).
Proof.
  apply (completeRound_outcome deciding_round (settled deciding_round)).
  - intros Hempty.
    assert (Hl : bets deciding_round !! "p1" = Some 20) by reflexivity.
    rewrite Hempty in Hl. by rewrite lookup_empty in Hl.
  - vm_compute. reflexivity.
Defined.

(** In the deciding round [ann] reaches 3 wins with 10 of money left and
    wins the game in round 4 of 5 against [bob], who has 40. *)
Example deciding_round_result :
  (fun g => (status g, name <$> overallWinner g, map money (players g)))
    (settled deciding_round)
  = (gameComplete, Some "ann", [10; 40]).
Proof. reflexivity. Qed.

(** * The other routes *)

(** ** Case analyses of the routes *)

Lemma create_cases (gameId playerId : string) (now : Z)
    (username gameMode : option string) (games : gmap string Game)
    (session : Session) :
  (exists n, username = Some n /\ blank username = false
     /\ create gameId playerId now username gameMode games session
        = (<[gameId := new_game gameId playerId now n (mode_of gameMode)]> games,
           mkSession (Some (mkUser gameId playerId n)) (error session),
           Redirect ("/game/" ++ gameId)%string))
  \/ (blank username = true
      /\ create gameId playerId now username gameMode games session
         = (games, mkSession (user session) (Some "Please enter a username"),
            Redirect "/")).
Proof.
  unfold create. destruct (blank username) eqn:Hblank; [by right|].
  left. destruct username as [n|]; [|discriminate].
  exists n. by repeat split.
Qed.

Lemma existsb_name_false (n : string) (ps : list Player) :
  existsb (fun p => bool_decide (name p = n)) ps = false
  <-> forall p, p ∈ ps -> name p <> n.
Proof.
  split.
  - intros Hex p Hp Hn.
    assert (Htrue : existsb (fun p => bool_decide (name p = n)) ps = true).
    { apply existsb_elem. exists p. split; [assumption|].
      by apply bool_decide_eq_true. }
    congruence.
  - intros Hall. destruct (existsb _ ps) eqn:Hex; [|reflexivity].
    apply existsb_elem in Hex as (p & Hp & Hn).
    apply bool_decide_eq_true in Hn. by destruct (Hall p Hp).
Qed.

Lemma join_cases (playerId : string) (gameId username : option string)
    (games : gmap string Game) (session : Session) :
  (exists i n game,
     join_allowed gameId username games i n game
     /\ join playerId gameId username games session
        = (<[i := joined playerId n game]> games,
           mkSession (Some (mkUser i playerId n)) (error session),
           Redirect ("/game/" ++ i)%string))
  \/ (~ (exists i n game, join_allowed gameId username games i n game)
      /\ exists message,
           join playerId gameId username games session
           = (games, mkSession (user session) (Some message), Redirect "/")).
Proof.
  unfold join, join_allowed.
  destruct (blank username) eqn:Hblank.
  { right. split; [|by eauto]. intros (i & n & game & _ & _ & Hb & _). discriminate. }
  destruct username as [n|]; [|discriminate].
  change (default "" (Some n)) with n. destruct gameId as [i0|].
  2:{ right. split; [|by eauto].
      intros (i & n' & game & (i1 & Hi & _) & _). discriminate. }
  case_bool_decide as Hempty.
  { right. split; [|by eauto].
    intros (i & n' & game & (i1 & Hi & Hne & _) & _). congruence. }
  cbn [mbind option_bind]. destruct (games !! toUpperCase i0) as [game|] eqn:Hgame.
  2:{ right. split; [|by eauto].
      intros (i & n' & game & (i1 & Hi & _ & ->) & _ & _ & Hg & _).
      injection Hi as <-. congruence. }
  cbn [fmap option_fmap option_map].
  case_bool_decide as Hstatus; cbn [negb].
  2:{ right. split; [|by eauto].
      intros (i & n' & game' & (i1 & Hi & _ & ->) & _ & _ & Hg & Hst & _).
      injection Hi as <-. congruence. }
  destruct (existsb _ (players game)) eqn:Hname.
  { right. split; [|by eauto].
    intros (i & n' & game' & (i1 & Hi & _ & ->) & Hn & _ & Hg & _ & Hfree).
    injection Hi as <-. injection Hn as <-.
    assert (game' = game) as -> by congruence.
    apply existsb_name_false in Hfree. congruence. }
  left. exists (toUpperCase i0), n, game. split; [|reflexivity].
  split; [by eauto|]. split; [reflexivity|]. split; [reflexivity|].
  split; [assumption|]. split; [assumption|]. by apply existsb_name_false.
Qed.

Lemma is_host_cases (gameId : string) (games : gmap string Game)
    (session : Session) :
  (exists game u player,
     games !! gameId = Some game /\ user session = Some u
     /\ user_gameId u = gameId
     /\ find_player (user_playerId u) game = Some player /\ host player = true
     /\ lookup_game gameId games session = inr (game, u))
  \/ (~ (exists game, is_host gameId games session game)
      /\ ((games !! gameId = None
           /\ lookup_game gameId games session
              = inl (JsonError 404 "Game not found"))
          \/ (is_Some (games !! gameId)
              /\ lookup_game gameId games session
                 = inl (JsonError 403 "You are not in this game"))
          \/ (exists game u,
                games !! gameId = Some game
                /\ lookup_game gameId games session = inr (game, u)
                /\ (find_player (user_playerId u) game = None
                    \/ exists player,
                         find_player (user_playerId u) game = Some player
                         /\ host player = false)))).
Proof.
  unfold lookup_game, is_host.
  destruct (games !! gameId) as [game|] eqn:Hgame.
  2:{ right. split; [|by left]. intros (g & Hg & _). discriminate. }
  destruct (user session) as [u|] eqn:Hu.
  2:{ right. split; [|right; left; by eauto].
      intros (g & _ & u & p & Hu' & _). discriminate. }
  case_bool_decide as Hgid; cbn [negb].
  2:{ right. split; [|right; left; by eauto].
      intros (g & _ & u' & p & Hu' & Hgid' & _). congruence. }
  destruct (find_player (user_playerId u) game) as [player|] eqn:Hplayer.
  2:{ right. split.
      - intros (g & Hg & u' & p & Hu' & _ & Hp & _). congruence.
      - right. right. exists game, u. by auto. }
  destruct (host player) eqn:Hhost.
  - left. exists game, u, player. by repeat split.
  - right. split.
    + intros (g & Hg & u' & p & Hu' & _ & Hp & Hh). congruence.
    + right. right. exists game, u. by eauto 6.
Qed.

Lemma start_cases (gameId : string) (games : gmap string Game)
    (session : Session) :
  (exists game,
     start_allowed gameId games session game
     /\ start gameId games session
        = (<[gameId := started game]> games, session, JsonSuccess))
  \/ (~ (exists game, start_allowed gameId games session game)
      /\ exists code message,
           start gameId games session
           = (games, session, JsonError code message)
           /\ (code = 404 <-> games !! gameId = None)
           /\ (code = 400 <-> exists game, is_host gameId games session game)).
Proof.
  unfold start_allowed.
  destruct (is_host_cases gameId games session)
    as [(game & u & player & Hgame & Hu & Hgid & Hplayer & Hhost & Hlook)
       |(Hno & [(Hnone & Hlook)
               |[(Hsome & Hlook)|(game & u & Hgame & Hlook & Hplayer)]])].
  - assert (Hh : is_host gameId games session game).
    { split; [assumption|]. exists u, player. by repeat split. }
    unfold start. rewrite Hlook, Hplayer, Hhost. cbn [negb].
    destruct (Z.ltb_spec (Z.of_nat (length (players game))) 2) as [Hlt|Hge].
    { right. split.
      - intros (g & (Hg & _) & Hlen & _).
        assert (g = game) as -> by congruence. lia.
      - do 2 eexists. split; [reflexivity|]. split.
        + split; [intros [=]|intros Hn; congruence].
        + split; [by eauto|done]. }
    case_bool_decide as Hstatus; cbn [negb].
    2:{ right. split.
        - intros (g & (Hg & _) & _ & Hst).
          assert (g = game) as -> by congruence. done.
        - do 2 eexists. split; [reflexivity|]. split.
          + split; [intros [=]|intros Hn; congruence].
          + split; [by eauto|done]. }
    left. exists game. split; [|reflexivity].
    split; [assumption|]. split; [lia|assumption].
  - right. split; [intros (g & Hh & _); apply Hno; by eauto|].
    unfold start. rewrite Hlook.
    do 2 eexists. split; [reflexivity|]. split; [done|].
    split; [intros [=]|]. intros Hh. by destruct Hno.
  - right. split; [intros (g & Hh & _); apply Hno; by eauto|].
    unfold start. rewrite Hlook.
    do 2 eexists. split; [reflexivity|]. split.
    + split; [intros [=]|]. intros Hn. rewrite Hn in Hsome. by destruct Hsome.
    + split; [intros [=]|]. intros Hh. by destruct Hno.
  - right. split; [intros (g & Hh & _); apply Hno; by eauto|].
    exists 403, "Only the host can start the game". split.
    + unfold start. rewrite Hlook.
      destruct Hplayer as [->|(player & -> & ->)]; reflexivity.
    + split; (split; [intros [=]|]).
      * intros Hn. congruence.
      * intros Hh. by destruct Hno.
Qed.

Lemma nextround_cases (gameId : string) (games : gmap string Game)
    (session : Session) :
  (exists game,
     nextround_allowed gameId games session game
     /\ nextround gameId games session
        = if shouldEndGame game
          then game' ← determineOverallWinner (set_status gameComplete game);
               Some (<[gameId := game']> games, session, JsonGameComplete)
          else Some (<[gameId := advanced game]> games, session, JsonSuccess))
  \/ (~ (exists game, nextround_allowed gameId games session game)
      /\ exists code message,
           nextround gameId games session
           = Some (games, session, JsonError code message)
           /\ (code = 404 <-> games !! gameId = None)
           /\ (code = 400 <-> exists game, is_host gameId games session game)).
Proof.
  unfold nextround_allowed.
  destruct (is_host_cases gameId games session)
    as [(game & u & player & Hgame & Hu & Hgid & Hplayer & Hhost & Hlook)
       |(Hno & [(Hnone & Hlook)
               |[(Hsome & Hlook)|(game & u & Hgame & Hlook & Hplayer)]])].
  - assert (Hh : is_host gameId games session game).
    { split; [assumption|]. exists u, player. by repeat split. }
    unfold nextround. rewrite Hlook, Hplayer, Hhost. cbn [negb].
    case_bool_decide as Hstatus; cbn [negb].
    2:{ right. split.
        - intros (g & (Hg & _) & Hst).
          assert (g = game) as -> by congruence. done.
        - do 2 eexists. split; [reflexivity|]. split.
          + split; [intros [=]|intros Hn; congruence].
          + split; [by eauto|done]. }
    left. exists game. split; [|reflexivity]. by split.
  - right. split; [intros (g & Hh & _); apply Hno; by eauto|].
    unfold nextround. rewrite Hlook.
    do 2 eexists. split; [reflexivity|]. split; [done|].
    split; [intros [=]|]. intros Hh. by destruct Hno.
  - right. split; [intros (g & Hh & _); apply Hno; by eauto|].
    unfold nextround. rewrite Hlook.
    do 2 eexists. split; [reflexivity|]. split.
    + split; [intros [=]|]. intros Hn. rewrite Hn in Hsome. by destruct Hsome.
    + split; [intros [=]|]. intros Hh. by destruct Hno.
  - right. split; [intros (g & Hh & _); apply Hno; by eauto|].
    exists 403, "Only the host can advance to the next round". split.
    + unfold nextround. rewrite Hlook.
      destruct Hplayer as [->|(player & -> & ->)]; reflexivity.
    + split; (split; [intros [=]|]).
      * intros Hn. congruence.
      * intros Hh. by destruct Hno.
Qed.

Lemma reset_exact (gameId : string) (games : gmap string Game)
    (session : Session) :
  (exists game,
     is_host gameId games session game
     /\ reset gameId games session
        = (<[gameId := reset_game game]> games, session, JsonSuccess))
  \/ (~ (exists game, is_host gameId games session game)
      /\ exists code message,
           reset gameId games session
           = (games, session, JsonError code message)
           /\ (code = 404 <-> games !! gameId = None)
           /\ code <> 400).
Proof.
  destruct (is_host_cases gameId games session)
    as [(game & u & player & Hgame & Hu & Hgid & Hplayer & Hhost & Hlook)
       |(Hno & [(Hnone & Hlook)
               |[(Hsome & Hlook)|(game & u & Hgame & Hlook & Hplayer)]])].
  - left. exists game. split.
    + split; [assumption|]. exists u, player. by repeat split.
    + unfold reset. by rewrite Hlook, Hplayer, Hhost.
  - right. split; [assumption|]. unfold reset. rewrite Hlook.
    do 2 eexists. split; [reflexivity|]. by split.
  - right. split; [assumption|]. unfold reset. rewrite Hlook.
    do 2 eexists. split; [reflexivity|]. split; [|done].
    split; [intros [=]|]. intros Hn. rewrite Hn in Hsome. by destruct Hsome.
  - right. split; [assumption|].
    exists 403, "Only the host can reset the game". split.
    + unfold reset. rewrite Hlook.
      destruct Hplayer as [->|(player & -> & ->)]; reflexivity.
    + split; [|done]. split; [intros [=]|]. intros Hn. congruence.
Qed.

(** ** From the registry to one game, in full *)

Lemma game_change_step (g g' : Game) : game_change g g' -> game_step g g'.
Proof.
  intros [g0 playerId username Hst Hblank Hfree|g0 Hst Hlen
         |g0 g1 playerId player amount Hst Hp Hnone Ha Hbid
         |g0 g1 Hst Hend Hw|g0 Hst Hend|g0 Hhost|g0].
  - by apply step_join.
  - by apply step_start.
  - unfold with_bid in Hbid. cbv zeta in Hbid. game_simpl.
    destruct (forallb _ (players g0)) eqn:Hall.
    + by eapply step_last_bid.
    + injection Hbid as <-. by eapply step_bid.
  - by apply step_end.
  - by apply step_next.
  - by apply step_reset.
  - apply step_hide.
Qed.

(** A handler leaves a game of the registry as it was, replaces it by a
    new game with a host whose name is not blank, or changes it. *)
Lemma handle_game_change (r : Request) (session : Session)
    (games games' : gmap string Game) (gameId : string) (g' : Game) :
  handle r session games = Some games' ->
  games' !! gameId = Some g' ->
  games !! gameId = Some g'
  \/ (exists playerId now username gameMode,
        g' = new_game gameId playerId now username gameMode
        /\ blank (Some username) = false)
  \/ (exists g, games !! gameId = Some g /\ game_change g g').
Proof.
  assert (Hstored : forall k g1,
            <[k := g1]> games !! gameId = Some g' ->
            games !! gameId = Some g' \/ (k = gameId /\ g1 = g')).
  { intros k g1 Hl. destruct (decide (k = gameId)) as [->|Hne].
    - rewrite lookup_insert_eq in Hl. injection Hl as <-. by right.
    - rewrite lookup_insert_ne in Hl by assumption. by left. }
  destruct r as [cId cPid now username gameMode|jPid jId username|sId
                |bId betAmount|nId|rId|hId|now]; simpl.
  - (* create *)
    destruct (create_cases cId cPid now username gameMode games session)
      as [(n & -> & Hblank & ->)|(_ & ->)]; simpl; intros [= <-]; [|by left].
    intros Hg'. destruct (Hstored _ _ Hg') as [Hsame|[-> <-]]; [by left|].
    right. left. by eauto 6.
  - (* join *)
    destruct (join_cases jPid jId username games session)
      as [(i & n & game & Hok & ->)|(_ & message & ->)]; simpl;
      intros [= <-]; [|by left].
    destruct Hok as (_ & -> & Hblank & Hgame & Hst & Hfree).
    intros Hg'. destruct (Hstored _ _ Hg') as [Hsame|[-> <-]]; [by left|].
    right. right. exists game. split; [assumption|]. by apply change_join.
  - (* start *)
    destruct (start_cases sId games session)
      as [(game & Hok & ->)|(_ & code & message & -> & _)]; simpl;
      intros [= <-]; [|by left].
    destruct Hok as ((Hgame & _) & Hlen & Hst).
    intros Hg'. destruct (Hstored _ _ Hg') as [Hsame|[-> <-]]; [by left|].
    right. right. exists game. split; [assumption|]. by apply change_start.
  - (* bet *)
    destruct (bet_cases bId betAmount games session)
      as [(game & player & amount & Hok & ->)|(_ & code & message & ->)];
      [|simpl; intros [= <-]; by left].
    destruct Hok as (Hgame & (u & _ & _ & Hplayer) & Hstatus & Hnone & _ & Hamount).
    change (let game1 := set_bets (<[id player := amount]> (bets game)) game in
            if forallb (fun p => bool_decide (is_Some (bets game1 !! id p)))
                 (players game1)
            then completeRound game1 else Some game1)
      with (with_bid player amount game).
    destruct (with_bid player amount game) as [g1|] eqn:Hbid; simpl;
      [|discriminate].
    intros [= <-] Hg'. destruct (Hstored _ _ Hg') as [Hsame|[-> <-]]; [by left|].
    right. right. exists game. split; [assumption|]. by eapply change_bid.
  - (* next round *)
    destruct (nextround_cases nId games session)
      as [(game & Hok & ->)|(_ & code & message & -> & _)];
      [|simpl; intros [= <-]; by left].
    destruct Hok as ((Hgame & _) & Hst).
    destruct (shouldEndGame game) eqn:Hend.
    + destruct (determineOverallWinner _) as [g1|] eqn:Hw; simpl; [|discriminate].
      intros [= <-] Hg'.
      destruct (Hstored _ _ Hg') as [Hsame|[-> <-]]; [by left|].
      right. right. exists game. split; [assumption|]. by apply change_end.
    + simpl. intros [= <-] Hg'.
      destruct (Hstored _ _ Hg') as [Hsame|[-> <-]]; [by left|].
      right. right. exists game. split; [assumption|]. by apply change_next.
  - (* reset *)
    destruct (reset_exact rId games session)
      as [(game & Hok & ->)|(_ & code & message & -> & _)]; simpl;
      intros [= <-]; [|by left].
    destruct Hok as (Hgame & u & player & _ & _ & Hplayer & Hhost).
    intros Hg'. destruct (Hstored _ _ Hg') as [Hsame|[-> <-]]; [by left|].
    right. right. exists game. split; [assumption|]. apply change_reset.
    exists player. split; [|assumption]. by apply find_elem in Hplayer as [? _].
  - (* the timer of the results *)
    unfold hideRoundResults. intros [= <-].
    destruct (games !! hId) as [game|] eqn:Hgame; [|by left].
    intros Hg'. destruct (Hstored _ _ Hg') as [Hsame|[-> <-]]; [by left|].
    right. right. exists game. split; [assumption|]. apply change_hide.
  - (* the clean-up *)
    unfold cleanUp. intros [= <-] Hg'.
    apply map_lookup_filter_Some in Hg' as [Hg' _]. by left.
Qed.

(** A property of the new games, which may depend on the key of the game
    in the registry, that every change keeps holds of every game of every
    reachable registry. *)
Lemma reachable_change_invariant (P : string -> Game -> Prop) :
  (forall gameId playerId now username gameMode,
     blank (Some username) = false ->
     P gameId (new_game gameId playerId now username gameMode)) ->
  (forall gameId g g', P gameId g -> game_change g g' -> P gameId g') ->
  forall games, reachable games ->
  forall gameId g, games !! gameId = Some g -> P gameId g.
Proof.
  intros Hnew Hstep games [rs Hrun].
  assert (Hgen : forall rs games0 games,
    (forall gameId g, games0 !! gameId = Some g -> P gameId g) ->
    run rs games0 = Some games ->
    forall gameId g, games !! gameId = Some g -> P gameId g).
  { clear games rs Hrun. induction rs as [|[r session] rs IH]; simpl;
      intros games0 games H0 Hrun.
    - by injection Hrun as <-.
    - destruct (handle r session games0) as [games1|] eqn:Hhandle; [|discriminate].
      simpl in Hrun. apply (IH games1 games); [|assumption].
      intros gameId g Hg.
      destruct (handle_game_change _ _ _ _ _ _ Hhandle Hg)
        as [Hsame|[(playerId & now & username & gameMode & -> & Hblank)
                  |(g0 & Hg0 & Hs)]].
      + by apply H0.
      + by apply Hnew.
      + apply (Hstep gameId g0); [by apply H0|assumption]. }
  apply (Hgen rs ∅ games); [|assumption].
  intros gameId g Hg. by rewrite lookup_empty in Hg.
Qed.

(** ** The phases of a game *)

Lemma getTotalRoundsForPlayerCount_ge (n : Z) :
  5 <= getTotalRoundsForPlayerCount n.
Proof.
  unfold getTotalRoundsForPlayerCount.
  destruct (n <=? 2); [lia|]. destruct (n =? 3); lia.
Qed.

Lemma forallb_false_elem {A} (f : A -> bool) (l : list A) :
  forallb f l = false -> exists x, x ∈ l /\ f x = false.
Proof.
  induction l as [|a l IH]; simpl; [discriminate|].
  destruct (f a) eqn:Hfa; simpl.
  - intros Hl. destruct (IH Hl) as (x & Hx & Hfx).
    exists x. split; [by right|assumption].
  - intros _. exists a. split; [by left|assumption].
Qed.

Lemma forallb_true_elem {A} (f : A -> bool) (l : list A) :
  forallb f l = true -> forall x, x ∈ l -> f x = true.
Proof.
  rewrite forallb_forall. intros Hall x Hx. by apply Hall, list_elem_of_In.
Qed.

Lemma shouldEndGame_false (g : Game) :
  shouldEndGame g = false ->
  currentRound g < totalRounds g
  /\ (gameMode g = "all-pay" ->
      forall p, p ∈ players g -> (roundsWon p < roundsToWin g)%Q).
Proof.
  unfold shouldEndGame. case_bool_decide as Hmode.
  - intros Hend. apply orb_false_iff in Hend as [Hex Hge]. split.
    + destruct (Z.geb_spec (currentRound g) (totalRounds g)); [discriminate|lia].
    + intros _ p Hp. apply Qnot_le_lt. intros Hle.
      assert (Htrue : existsb (fun p => Qle_bool (roundsToWin g) (roundsWon p))
                        (players g) = true).
      { apply existsb_elem. exists p. split; [assumption|]. by apply Qle_bool_iff. }
      congruence.
  - intros Hge. split; [|done].
    destruct (Z.geb_spec (currentRound g) (totalRounds g)); [discriminate|lia].
Qed.

Lemma shouldEndGame_frame (g g' : Game) :
  gameMode g' = gameMode g -> players g' = players g ->
  roundsToWin g' = roundsToWin g -> currentRound g' = currentRound g ->
  totalRounds g' = totalRounds g -> shouldEndGame g' = shouldEndGame g.
Proof. unfold shouldEndGame. by intros -> -> -> -> ->. Qed.

Lemma with_bid_cases (player : Player) (amount : Z) (g g' : Game) :
  with_bid player amount g = Some g' ->
  (g' = set_bets (<[id player := amount]> (bets g)) g
   /\ exists p, p ∈ players g
                /\ <[id player := amount]> (bets g) !! id p = None)
  \/ (completeRound (set_bets (<[id player := amount]> (bets g)) g) = Some g'
      /\ forall p, p ∈ players g ->
                   is_Some (<[id player := amount]> (bets g) !! id p)).
Proof.
  unfold with_bid. cbv zeta. game_simpl.
  destruct (forallb _ (players g)) eqn:Hall.
  - intros Hround. right. split; [assumption|]. intros p Hp.
    apply (forallb_true_elem _ _ Hall) in Hp. by apply bool_decide_eq_true in Hp.
  - intros [= <-]. left. split; [reflexivity|].
    apply forallb_false_elem in Hall as (p & Hp & Hnone).
    exists p. split; [assumption|]. apply bool_decide_eq_false in Hnone.
    by apply eq_None_not_Some.
Qed.

Lemma phase_inv_new gameId playerId now username gameMode :
  phase_inv (new_game gameId playerId now username gameMode).
Proof.
  unfold phase_inv. simpl. split; [|split; [done|split; [done|]]].
  - intros _. split; [reflexivity|]. split; [reflexivity|].
    intros p Hp. by apply list_elem_of_singleton in Hp as ->.
  - intros [[=]|[=]].
Qed.

Lemma phase_inv_change (g g' : Game) :
  rounds_inv g -> phase_inv g -> game_change g g' -> phase_inv g'.
Proof.
  intros (Htotal & Hwin & Hne) (Hwait & Hrun & Hbet & Hdone) Hchange.
  destruct Hchange as [g playerId username Hst Hblank Hfree|g Hst Hlen
                      |g g' playerId player amount Hst Hp Hnone Ha Hbid
                      |g g' Hst Hend Hw|g Hst Hend|g Hhost|g].
  - (* join *)
    destruct (Hwait Hst) as (Hround & Hbets & Hps).
    unfold phase_inv, joined. game_simpl. rewrite Hst.
    split; [|split; [done|split; [done|]]].
    + intros _. split; [assumption|]. split; [assumption|].
      intros p Hin. rewrite elem_of_app, list_elem_of_singleton in Hin.
      destruct Hin as [Hin| ->]; [by apply Hps|done].
    + intros [[=]|[=]].
  - (* start *)
    destruct (Hwait Hst) as (Hround & Hbets & Hps).
    unfold phase_inv, started. game_simpl.
    split; [done|]. split; [|split].
    + intros _. split; [|assumption]. rewrite Htotal.
      pose proof (getTotalRoundsForPlayerCount_ge
                    (Z.of_nat (length (players g)))). lia.
    + intros _. split.
      * destruct (players g) as [|p ps]; [done|].
        exists p. split; [by left|apply lookup_empty].
      * intros _ p Hin. destruct (Hps p Hin) as [_ ->]. by rewrite Hwin.
    + intros [[=]|[=]].
  - (* a bid *)
    assert (Hnw : status g <> waiting) by congruence.
    destruct (Hrun Hnw) as (Hround & Hlen).
    destruct (Hbet Hst) as (_ & Hall).
    destruct (with_bid_cases _ _ _ _ Hbid) as [(-> & Hopen)|(Hsettle & Hclosed)].
    + unfold phase_inv. game_simpl. rewrite Hst.
      split; [done|]. split; [done|]. split; [done|]. intros [[=]|[=]].
    + pose proof (completeRound_settled _ _ Hsettle) as
        (_ & _ & _ & Hmode' & Hround' & Htotal' & Hwin' & Hbets' & Hlast & _).
      pose proof (completeRound_frame _ _ Hsettle) as (_ & _ & _ & _ & Hnb & Hnw').
      pose proof (completeRound_length _ _ Hsettle) as Hlen'.
      pose proof (completeRound_ids _ _ Hsettle) as Hids.
      game_simpl. unfold phase_inv.
      split; [done|]. split; [|split; [done|]].
      * intros _. rewrite Hround', Htotal', Hlen'. done.
      * intros Hst'. split; [|split].
        -- intros p Hin. rewrite Hbets'.
           assert (Hid : id p ∈ map id (players g)).
           { rewrite <- Hids. apply list_elem_of_fmap. by eauto. }
           apply list_elem_of_fmap in Hid as (q & -> & Hq). by apply Hclosed.
        -- by rewrite Hbets'.
        -- assert (Hfull : bets (set_bets (<[id player := amount]> (bets g)) g)
                           <> ∅).
           { game_simpl. intros Hempty.
             assert (Hl : <[id player := amount]> (bets g) !! id player
                          = Some amount) by apply lookup_insert_eq.
             rewrite Hempty in Hl. by rewrite lookup_empty in Hl. }
           rewrite (completeRound_status _ _ Hfull Hsettle).
           destruct (shouldEndGame g'); split; done.
  - (* the end of the game *)
    destruct (Hdone (or_introl Hst)) as (_ & _ & Hiff).
    apply Hiff in Hend. congruence.
  - (* the next round *)
    assert (Hnw : status g <> waiting) by congruence.
    destruct (Hrun Hnw) as (Hround & Hlen).
    destruct (shouldEndGame_false _ Hend) as (Hlt & Hall).
    unfold phase_inv, advanced. game_simpl.
    split; [done|]. split; [|split].
    + intros _. split; [lia|assumption].
    + intros _. split; [|assumption].
      destruct (players g) as [|p ps]; [done|].
      exists p. split; [by left|apply lookup_empty].
    + intros [[=]|[=]].
  - (* reset *)
    unfold phase_inv, reset_game. game_simpl.
    split; [|split; [done|split; [done|]]].
    + intros _. split; [reflexivity|]. split; [reflexivity|].
      intros p Hin. by apply list_elem_of_fmap in Hin as (q & -> & _).
    + intros [[=]|[=]].
  - (* the timer of the results *)
    unfold phase_inv. game_simpl.
    rewrite (shouldEndGame_frame g (set_showRoundResults false g)); done.
Qed.

(** ** The players of a game *)

Lemma Forall2_settles_to_fields (o : gmap string Z) (ps ps' : list Player) :
  Forall2 (settles_to o) ps ps' ->
  map name ps' = map name ps /\ map host ps' = map host ps.
Proof.
  induction 1 as [|p p' ps ps' (_ & Hn & Hh & _) _ [IHn IHh]]; [done|].
  simpl. by rewrite Hn, Hh, IHn, IHh.
Qed.

Lemma Forall2_settles_to_elem (o : gmap string Z) (ps ps' : list Player)
    (p' : Player) :
  Forall2 (settles_to o) ps ps' -> p' ∈ ps' ->
  exists p, p ∈ ps /\ settles_to o p p'.
Proof.
  intros Hall Hin. apply list_elem_of_lookup in Hin as [i Hi].
  destruct (Forall2_lookup_r _ _ _ _ _ Hall Hi) as (p & Hp & Hs).
  exists p. split; [|assumption]. by apply list_elem_of_lookup_2 in Hp.
Qed.

Lemma host_first_players (ps : list Player) :
  host_first (map host ps)
  <-> exists p ps', ps = p :: ps' /\ host p = true
                    /\ forall q, q ∈ ps' -> host q = false.
Proof.
  unfold host_first. split.
  - intros (hs' & Heq & Hall). destruct ps as [|p ps']; [discriminate|].
    simpl in Heq. injection Heq as Hp <-. exists p, ps'.
    split; [reflexivity|]. split; [assumption|].
    intros q Hq. apply Hall, list_elem_of_fmap. by eauto.
  - intros (p & ps' & -> & Hp & Hall). exists (map host ps'). simpl.
    rewrite Hp. split; [reflexivity|].
    intros h Hh. apply list_elem_of_fmap in Hh as (q & -> & Hq). by apply Hall.
Qed.

Lemma players_inv_fields (g g' : Game) :
  map name (players g') = map name (players g) ->
  map host (players g') = map host (players g) ->
  (forall p', p' ∈ players g' -> money p' <= 100 /\ (0 <= roundsWon p')%Q) ->
  players_inv g -> players_inv g'.
Proof.
  intros Hn Hh Hbounds (Hhost & Hnames & Hblank & _). unfold players_inv.
  split; [|split; [|split]].
  - apply host_first_players. rewrite Hh. by apply host_first_players.
  - by rewrite Hn.
  - intros p' Hp'.
    assert (Hin : name p' ∈ map name (players g)).
    { rewrite <- Hn. apply list_elem_of_fmap. by eauto. }
    apply list_elem_of_fmap in Hin as (p & -> & Hp). by apply Hblank.
  - assumption.
Qed.

Lemma players_inv_new gameId playerId now username gameMode :
  blank (Some username) = false ->
  players_inv (new_game gameId playerId now username gameMode).
Proof.
  intros Hblank. unfold players_inv. simpl. split; [|split; [|split]].
  - eexists _, []. split; [reflexivity|]. split; [reflexivity|].
    intros q Hq. inversion Hq.
  - apply NoDup_singleton.
  - intros p Hp. by apply list_elem_of_singleton in Hp as ->.
  - intros p Hp. by apply list_elem_of_singleton in Hp as ->.
Qed.

Lemma players_inv_change (g g' : Game) :
  money_inv g -> players_inv g -> game_change g g' -> players_inv g'.
Proof.
  intros Hmoney Hinv Hchange.
  pose proof Hinv as (Hhost & Hnames & Hblank & Hbounds).
  destruct Hchange as [g playerId username Hst Hblank' Hfree|g Hst Hlen
                      |g g' playerId player amount Hst Hp Hnone Ha Hbid
                      |g g' Hst Hend Hw|g Hst Hend|g Hhost'|g].
  - (* join *)
    unfold players_inv, joined. game_simpl. split; [|split; [|split]].
    + destruct Hhost as (p & ps & -> & Hp & Hall).
      exists p, (ps ++ [mkPlayer playerId username 100 0 false]).
      split; [reflexivity|]. split; [assumption|].
      intros q Hq. rewrite elem_of_app, list_elem_of_singleton in Hq.
      destruct Hq as [Hq| ->]; [by apply Hall|reflexivity].
    + change (map ?f ?l) with (f <$> l). rewrite fmap_app.
      apply NoDup_app. split; [assumption|]. split; [|apply NoDup_singleton].
      intros n Hn Hn'. apply list_elem_of_singleton in Hn'. simpl in Hn'.
      apply list_elem_of_fmap in Hn as (p & -> & Hp). by apply (Hfree p).
    + intros p Hp. rewrite elem_of_app, list_elem_of_singleton in Hp.
      destruct Hp as [Hp| ->]; [by apply Hblank|assumption].
    + intros p Hp. rewrite elem_of_app, list_elem_of_singleton in Hp.
      destruct Hp as [Hp| ->]; [by apply Hbounds|done].
  - (* start *)
    exact Hinv.
  - (* a bid *)
    destruct (with_bid_cases _ _ _ _ Hbid) as [(-> & _)|(Hsettle & _)];
      [exact Hinv|].
    pose proof (money_inv_bid g playerId player amount Hmoney Hst Hp Ha)
      as (_ & Hknown & Hbids & _).
    game_simpl. specialize (Hknown Hst). specialize (Hbids Hst).
    assert (Hpos : forall k b,
              <[id player := amount]> (bets g) !! k = Some b -> 0 <= b).
    { intros k b Hb.
      assert (Hk : k ∈ map id (players g)) by (apply Hknown; by eauto).
      apply list_elem_of_fmap in Hk as (q & -> & Hq).
      by destruct (Hbids q b Hq Hb). }
    assert (Hall : Forall2 (settles_to (<[id player := amount]> (bets g)))
                     (players g) (players g')).
    { pose proof (completeRound_settled _ _ Hsettle) as Hs. game_simpl.
      destruct (ranking (<[id player := amount]> (bets g)))
        as [[[[h hb] s] t]|] eqn:Hrank.
      - destruct Hs as ((Hs & _) & _).
        by apply (settle_players_settles _ _ _ _ _ _ _ _ Hrank Hs).
      - destruct Hs as ((-> & _) & _). apply Forall2_settles_to_refl. }
    destruct (Forall2_settles_to_fields _ _ _ Hall) as [Hn Hh].
    apply (players_inv_fields g g' Hn Hh); [|assumption].
    intros p' Hp'.
    destruct (Forall2_settles_to_elem _ _ _ _ Hall Hp')
      as (p0 & Hp0 & _ & _ & _ & Hwon & Hless).
    destruct (Hbounds p0 Hp0) as [Hm Hw]. specialize (Hless Hpos).
    split; [lia|]. by apply Qle_trans with (roundsWon p0).
  - (* the end of the game *)
    apply determineOverallWinner_players in Hw as (w & -> & _). exact Hinv.
  - (* the next round *)
    exact Hinv.
  - (* reset *)
    apply (players_inv_fields g (reset_game g)); [| |  |assumption];
      unfold reset_game; game_simpl.
    + by rewrite map_map.
    + by rewrite map_map.
    + intros p' Hp'. by apply list_elem_of_fmap in Hp' as (q & -> & _).
  - (* the timer of the results *)
    exact Hinv.
Qed.

(** ** What is shown of the result *)

Lemma completeRound_end (g g' : Game) :
  bets g <> ∅ -> completeRound g = Some g' ->
  (status g' = gameComplete \/ status g' = roundComplete)
  /\ (status g' = gameComplete ->
      exists w, overallWinner g' = Some w /\ w ∈ players g')
  /\ (status g' = roundComplete -> overallWinner g' = overallWinner g)
  /\ is_Some (roundWinners g').
Proof.
  intros Hne Hg'. pose proof (completeRound_settled _ _ Hg') as Hs.
  revert Hg'. rewrite completeRound_unfold.
  destruct (ranking (bets g)) as [[[[h hb] s] t]|] eqn:Hrank.
  2:{ by apply ranking_none in Hrank. }
  destruct Hs as ((_ & _ & Hrw & _) & _).
  destruct (settle_players _ _ _ _ _ _ _) as [ps|]; [|discriminate].
  cbn [mbind option_bind].
  assert (Hsg : status (settled_game g h hb s t ps) = roundComplete
                /\ overallWinner (settled_game g h hb s t ps) = overallWinner g).
  { unfold settled_game. by game_simpl. }
  revert Hsg. generalize (settled_game g h hb s t ps). intros sg [Hst Hov] Hg'.
  destruct (end_of_round sg g' Hst Hg')
    as (Hps & _ & Hstatus & _ & _ & Hover & Hkeep).
  rewrite Hov in Hkeep. rewrite Hps, Hrw.
  split; [assumption|]. split; [assumption|]. split; [assumption|]. by eexists.
Qed.

Lemma result_inv_new gameId playerId now username gameMode :
  result_inv (new_game gameId playerId now username gameMode).
Proof.
  unfold result_inv. simpl. split; [|split; [done|split; [done|]]].
  - split; [by intros [? [=]]|done].
  - split; [by intros [? [=]]|by intros [[=]|[=]]].
Qed.

Lemma result_inv_change (g g' : Game) :
  result_inv g -> game_change g g' -> result_inv g'.
Proof.
  intros (Hover & Hin & Hshow & Hrw) Hchange.
  assert (Hquiet : status g = waiting \/ status g = betting ->
            overallWinner g = None /\ showRoundResults g = false
            /\ roundWinners g = None).
  { intros Hst. split; [|split].
    - apply eq_None_not_Some. intros Hsome. apply Hover in Hsome.
      destruct Hst; congruence.
    - destruct (showRoundResults g); [|reflexivity].
      destruct Hshow as [?|?]; [reflexivity| |]; destruct Hst; congruence.
    - apply eq_None_not_Some. intros Hsome. apply Hrw in Hsome.
      destruct Hsome, Hst; congruence. }
  assert (Hnone : forall st,
            st = waiting \/ st = betting ->
            (is_Some (@None Player) <-> st = gameComplete)
            /\ (forall w, @None Player = Some w -> False)
            /\ (false = true -> st = roundComplete \/ st = gameComplete)
            /\ (is_Some (@None (list string))
                <-> st = roundComplete \/ st = gameComplete)).
  { intros st Hst. split; [|split; [done|split; [done|]]].
    - split; [by intros [? [=]]|destruct Hst; congruence].
    - split; [by intros [? [=]]|intros [?|?]; destruct Hst; congruence]. }
  destruct Hchange as [g playerId username Hst Hblank' Hfree|g Hst Hlen
                      |g g' playerId player amount Hst Hp Hnone' Ha Hbid
                      |g g' Hst Hend Hw|g Hst Hend|g Hhost'|g].
  - (* join *)
    destruct (Hquiet (or_introl Hst)) as (Ho & Hs & Hr).
    unfold result_inv, joined. game_simpl. rewrite Ho, Hs, Hr, Hst.
    destruct (Hnone waiting) as (? & ? & ? & ?); [by left|].
    split; [assumption|]. split; [done|]. by split.
  - (* start *)
    destruct (Hquiet (or_introl Hst)) as (Ho & Hs & Hr).
    unfold result_inv, started. game_simpl. rewrite Ho, Hs, Hr.
    destruct (Hnone betting) as (? & ? & ? & ?); [by right|].
    split; [assumption|]. split; [done|]. by split.
  - (* a bid *)
    destruct (Hquiet (or_intror Hst)) as (Ho & Hs & Hr).
    destruct (with_bid_cases _ _ _ _ Hbid) as [(-> & _)|(Hsettle & _)].
    + unfold result_inv. game_simpl. rewrite Ho, Hs, Hr, Hst.
      destruct (Hnone betting) as (? & ? & ? & ?); [by right|].
      split; [assumption|]. split; [done|]. by split.
    + assert (Hfull : bets (set_bets (<[id player := amount]> (bets g)) g)
                      <> ∅).
      { game_simpl. intros Hempty.
        assert (Hl : <[id player := amount]> (bets g) !! id player
                     = Some amount) by apply lookup_insert_eq.
        rewrite Hempty in Hl. by rewrite lookup_empty in Hl. }
      destruct (completeRound_end _ _ Hfull Hsettle)
        as (Hstatus & Hwinner & Hkeep & Hsome).
      game_simpl. rewrite Ho in Hkeep. unfold result_inv.
      split; [|split; [|split]].
      * split.
        -- intros [w Hw]. destruct Hstatus as [?|Hrc]; [assumption|].
           rewrite (Hkeep Hrc) in Hw. discriminate.
        -- intros Hgc. destruct (Hwinner Hgc) as (w & -> & _). by eexists.
      * intros w Hw. destruct Hstatus as [Hgc|Hrc].
        -- destruct (Hwinner Hgc) as (w' & Hw' & Hin'). congruence.
        -- rewrite (Hkeep Hrc) in Hw. discriminate.
      * intros _. tauto.
      * split; [tauto|done].
  - (* the end of the game *)
    apply determineOverallWinner_players in Hw as (w & -> & Hw).
    unfold result_inv. game_simpl. split; [|split; [|split]].
    + split; [done|by eexists].
    + by intros w' [= <-].
    + intros _. by right.
    + split; [by right|]. intros _. apply Hrw. by left.
  - (* the next round *)
    unfold result_inv, advanced. game_simpl. split; [|split; [|split]].
    + split; [|done]. intros Hsome. apply Hover in Hsome. congruence.
    + assumption.
    + done.
    + split; [by intros [? [=]]|by intros [[=]|[=]]].
  - (* reset *)
    unfold result_inv, reset_game. game_simpl.
    destruct (Hnone waiting) as (? & ? & ? & ?); [by left|].
    split; [assumption|]. split; [done|]. by split.
  - (* the timer of the results *)
    unfold result_inv. game_simpl. split; [assumption|]. split; [assumption|].
    by split.
Qed.

(** ** The invariant of the games of the server *)

Lemma game_change_frame (g g' : Game) :
  game_change g g' ->
  game_id g' = game_id g /\ createdAt g' = createdAt g
  /\ gameMode g' = gameMode g /\ roundsToWin g' = roundsToWin g.
Proof.
  intros [g0 playerId username Hst Hblank Hfree|g0 Hst Hlen
         |g0 g1 playerId player amount Hst Hp Hnone Ha Hbid
         |g0 g1 Hst Hend Hw|g0 Hst Hend|g0 Hhost|g0]; try done.
  - destruct (with_bid_cases _ _ _ _ Hbid) as [(-> & _)|(Hsettle & _)]; [done|].
    apply completeRound_settled in Hsettle. game_simpl. tauto.
  - by apply determineOverallWinner_players in Hw as (w & -> & _).
Qed.

Lemma reachable_game_inv (games : gmap string Game) :
  reachable games ->
  forall gameId g, games !! gameId = Some g -> game_inv gameId g.
Proof.
  apply (reachable_change_invariant game_inv).
  - intros gameId playerId now username gameMode Hblank. unfold game_inv.
    split; [apply rounds_inv_new|]. split; [apply money_inv_new|].
    split; [apply phase_inv_new|]. split; [by apply players_inv_new|].
    split; [apply result_inv_new|reflexivity].
  - intros gameId g g' (Hrounds & Hmoney & Hphase & Hplayers & Hresult & Hid)
      Hchange.
    pose proof (game_change_step _ _ Hchange) as Hstep. unfold game_inv.
    split; [by apply (rounds_inv_step g)|].
    split; [by apply (money_inv_step g)|].
    split; [by apply (phase_inv_change g)|].
    split; [by apply (players_inv_change g)|].
    split; [by apply (result_inv_change g)|].
    destruct (game_change_frame _ _ Hchange) as (-> & _). assumption.
Qed.

(** * Invariants of the games of the server *)

Lemma sample_result_reachable :
  reachable after_sample_run
  /\ after_sample_run !! "ROOM01" = Some sample_result.
Proof. split; [exists sample_run|]; vm_compute; reflexivity. Qed.

(** X7: in every state that the server can be in, the ledger of a game
    goes with its status: it is empty while the game waits for players; in
    the betting phase some player has not bid yet, every bid is the bid of
    a player and is between 0 and the money of that player; when the round
    or the game is complete every player has a bid in the ledger, and
    [lastRoundBets] is that ledger. *)
Theorem ledger_by_phase (games : gmap string Game) (gameId : string)
    (g : Game) :
  reachable games -> games !! gameId = Some g ->
  (status g = waiting -> bets g = ∅)
  /\ (status g = betting ->
      (exists p, p ∈ players g /\ bets g !! id p = None)
      /\ known_bidders g
      /\ forall p b, p ∈ players g -> bets g !! id p = Some b ->
                     0 <= b <= money p)
  /\ (status g = roundComplete \/ status g = gameComplete ->
      (forall p, p ∈ players g -> is_Some (bets g !! id p))
      /\ lastRoundBets g = bets g).
Proof.
  intros Hreach Hg.
  destruct (reachable_game_inv _ Hreach _ _ Hg)
    as (_ & (_ & Hknown & Hbids & _) & (Hwait & _ & Hbet & Hdone) & _).
  split; [|split].
  - intros Hst. by destruct (Hwait Hst) as (_ & ? & _).
  - intros Hst. destruct (Hbet Hst) as (Hopen & _). auto.
  - intros Hst. destruct (Hdone Hst) as (? & ? & _). auto.
Qed.

Lemma ledger_by_phase_witness :
  (status sample_result = waiting -> bets sample_result = ∅)
  /\ (status sample_result = betting ->
      (exists p, p ∈ players sample_result /\ bets sample_result !! id p = None)
      /\ known_bidders sample_result
      /\ forall p b, p ∈ players sample_result ->
                     bets sample_result !! id p = Some b ->
                     0 <= b <= money p)
  /\ (status sample_result = roundComplete
      \/ status sample_result = gameComplete ->
      (forall p, p ∈ players sample_result ->
                 is_Some (bets sample_result !! id p))
      /\ lastRoundBets sample_result = bets sample_result).
Proof.
  apply (ledger_by_phase after_sample_run "ROOM01").
  - exists sample_run. vm_compute. reflexivity.
  - vm_compute. reflexivity.
Defined.

(** X8: the round counter of a game is 0 exactly while the game waits for
    players; from the start on it is between 1 and [totalRounds], which is
    at most 9, and the game has at least two players. *)
Theorem round_counter_bounds (games : gmap string Game) (gameId : string)
    (g : Game) :
  reachable games -> games !! gameId = Some g ->
  (status g = waiting <-> currentRound g = 0)
  /\ (status g <> waiting ->
      1 <= currentRound g <= totalRounds g /\ (2 <= length (players g))%nat)
  /\ 5 <= totalRounds g <= 9.
Proof.
  intros Hreach Hg.
  destruct (reachable_game_inv _ Hreach _ _ Hg)
    as ((Htotal & _) & _ & (Hwait & Hrun & _) & _).
  split; [|split].
  - split.
    + intros Hst. by destruct (Hwait Hst) as (? & _).
    + intros Hround. destruct (decide (status g = waiting)) as [|Hnw]; [done|].
      destruct (Hrun Hnw) as [? _]. lia.
  - assumption.
  - rewrite Htotal. unfold getTotalRoundsForPlayerCount.
    destruct (_ <=? 2); [lia|]. destruct (_ =? 3); lia.
Qed.

Lemma round_counter_bounds_witness :
  (status sample_result = waiting <-> currentRound sample_result = 0)
  /\ (status sample_result <> waiting ->
      1 <= currentRound sample_result <= totalRounds sample_result
      /\ (2 <= length (players sample_result))%nat)
  /\ 5 <= totalRounds sample_result <= 9.
Proof.
  apply (round_counter_bounds after_sample_run "ROOM01").
  - exists sample_run. vm_compute. reflexivity.
  - vm_compute. reflexivity.
Defined.

(** X9: a game that waits for players is fresh: every player has the
    initial 100 and no win, there is no winner of a round or of the game,
    and no result of a round is shown.  So the game that the host starts,
    also after a reset, starts from there. *)
Theorem waiting_game_is_fresh (games : gmap string Game) (gameId : string)
    (g : Game) :
  reachable games -> games !! gameId = Some g -> status g = waiting ->
  (forall p, p ∈ players g -> money p = 100 /\ roundsWon p = 0%Q)
  /\ currentRound g = 0 /\ bets g = ∅
  /\ overallWinner g = None /\ roundWinners g = None
  /\ showRoundResults g = false.
Proof.
  intros Hreach Hg Hst.
  destruct (reachable_game_inv _ Hreach _ _ Hg)
    as (_ & _ & (Hwait & _) & _ & (Hover & _ & Hshow & Hrw) & _).
  destruct (Hwait Hst) as (Hround & Hbets & Hps).
  split; [assumption|]. split; [assumption|]. split; [assumption|].
  split; [|split].
  - apply eq_None_not_Some. intros Hsome. apply Hover in Hsome. congruence.
  - apply eq_None_not_Some. intros Hsome. apply Hrw in Hsome.
    destruct Hsome; congruence.
  - destruct (showRoundResults g); [|reflexivity].
    destruct Hshow as [?|?]; [reflexivity| |]; congruence.
Qed.

(** X10: the players of a game: the first one, who created the game, has
    the host flag and no other player has it; no two players have the same
    name, and no name is blank. *)
Theorem one_host_distinct_names (games : gmap string Game) (gameId : string)
    (g : Game) :
  reachable games -> games !! gameId = Some g ->
  (exists p ps, players g = p :: ps /\ host p = true
                /\ forall q, q ∈ ps -> host q = false)
  /\ NoDup (map name (players g))
  /\ (forall p, p ∈ players g -> blank (Some (name p)) = false).
Proof.
  intros Hreach Hg.
  destruct (reachable_game_inv _ Hreach _ _ Hg)
    as (_ & _ & _ & (Hhost & Hnames & Hblank & _) & _).
  auto.
Qed.

Lemma one_host_distinct_names_witness :
  (exists p ps, players sample_result = p :: ps /\ host p = true
                /\ forall q, q ∈ ps -> host q = false)
  /\ NoDup (map name (players sample_result))
  /\ (forall p, p ∈ players sample_result -> blank (Some (name p)) = false).
Proof.
  apply (one_host_distinct_names after_sample_run "ROOM01").
  - exists sample_run. vm_compute. reflexivity.
  - vm_compute. reflexivity.
Defined.

(** X11: no player ever has more than the initial 100, nor a negative
    number of wins: the settlements only take money and only give wins. *)
Theorem money_at_most_initial (games : gmap string Game) (gameId : string)
    (g : Game) (p : Player) :
  reachable games -> games !! gameId = Some g -> p ∈ players g ->
  money p <= 100 /\ (0 <= roundsWon p)%Q.
Proof.
  intros Hreach Hg Hp.
  destruct (reachable_game_inv _ Hreach _ _ Hg)
    as (_ & _ & _ & (_ & _ & _ & Hbounds) & _).
  by apply Hbounds.
Qed.

Lemma money_at_most_initial_witness :
  money (mkPlayer "p1" "ann" 80 (0 + 0.5) true) <= 100
  /\ (0 <= roundsWon (mkPlayer "p1" "ann" 80 (0 + 0.5) true))%Q.
Proof.
  apply (money_at_most_initial after_sample_run "ROOM01" sample_result).
  - exists sample_run. vm_compute. reflexivity.
  - vm_compute. reflexivity.
  - vm_compute. left.
Defined.

(** X12: a game has an overall winner exactly when it is over, and the
    winner is then one of its players, as that player is at that time;
    the winners of a round are recorded exactly when a round or the game
    is complete, and the results of a round are shown only then. *)
Theorem overallWinner_iff_game_over (games : gmap string Game)
    (gameId : string) (g : Game) :
  reachable games -> games !! gameId = Some g ->
  (is_Some (overallWinner g) <-> status g = gameComplete)
  /\ (forall w, overallWinner g = Some w -> w ∈ players g)
  /\ (is_Some (roundWinners g)
      <-> status g = roundComplete \/ status g = gameComplete)
  /\ (showRoundResults g = true ->
      status g = roundComplete \/ status g = gameComplete).
Proof.
  intros Hreach Hg.
  destruct (reachable_game_inv _ Hreach _ _ Hg)
    as (_ & _ & _ & _ & (Hover & Hin & Hshow & Hrw) & _).
  auto.
Qed.

Lemma overallWinner_iff_game_over_witness :
  (is_Some (overallWinner sample_result)
   <-> status sample_result = gameComplete)
  /\ (forall w, overallWinner sample_result = Some w ->
                w ∈ players sample_result)
  /\ (is_Some (roundWinners sample_result)
      <-> status sample_result = roundComplete
          \/ status sample_result = gameComplete)
  /\ (showRoundResults sample_result = true ->
      status sample_result = roundComplete
      \/ status sample_result = gameComplete).
Proof.
  apply (overallWinner_iff_game_over after_sample_run "ROOM01").
  - exists sample_run. vm_compute. reflexivity.
  - vm_compute. reflexivity.
Defined.

Lemma waiting_game_is_fresh_witness :
  (forall p, p ∈ players lobby_game -> money p = 100 /\ roundsWon p = 0%Q)
  /\ currentRound lobby_game = 0 /\ bets lobby_game = ∅
  /\ overallWinner lobby_game = None /\ roundWinners lobby_game = None
  /\ showRoundResults lobby_game = false.
Proof.
  apply (waiting_game_is_fresh lobby "ROOM01").
  - exists lobby_run. vm_compute. reflexivity.
  - vm_compute. reflexivity.
  - reflexivity.
Defined.

(** X13: in every state that the server can be in, a game whose round is
    complete does not satisfy the termination predicate, and a game that
    is over does: [completeRound] has ended the game already when it had
    to end.  So the next-round route never ends a game: it either refuses
    the request and leaves the registry as it is, or, for the host of a
    game whose round is complete, starts the next round, which is at most
    round [totalRounds]; and in the betting phase of an all-pay game no
    player has reached [roundsToWin]. *)
Theorem nextround_never_ends_game (games : gmap string Game)
    (gameId : string) (session : Session) :
  reachable games ->
  (forall g, games !! gameId = Some g ->
     (status g = roundComplete -> shouldEndGame g = false)
     /\ (status g = gameComplete -> shouldEndGame g = true)
     /\ (status g = betting -> gameMode g = "all-pay" ->
         forall p, p ∈ players g -> (roundsWon p < roundsToWin g)%Q))
  /\ ((exists game,
         nextround_allowed gameId games session game
         /\ nextround gameId games session
            = Some (<[gameId := advanced game]> games, session, JsonSuccess)
         /\ currentRound (advanced game) <= totalRounds (advanced game))
      \/ (~ (exists game, nextround_allowed gameId games session game)
          /\ exists code message,
               nextround gameId games session
               = Some (games, session, JsonError code message))).
Proof.
  intros Hreach.
  assert (Hend : forall g, games !! gameId = Some g ->
            (status g = roundComplete -> shouldEndGame g = false)
            /\ (status g = gameComplete -> shouldEndGame g = true)
            /\ (status g = betting -> gameMode g = "all-pay" ->
                forall p, p ∈ players g -> (roundsWon p < roundsToWin g)%Q)).
  { intros g Hg.
    destruct (reachable_game_inv _ Hreach _ _ Hg)
      as (_ & _ & (_ & _ & Hbet & Hdone) & _).
    split; [|split].
    - intros Hst. destruct (Hdone (or_introl Hst)) as (_ & _ & Hiff).
      destruct (shouldEndGame g); [|reflexivity].
      destruct Hiff as [Hgc _]. specialize (Hgc eq_refl). congruence.
    - intros Hst. destruct (Hdone (or_intror Hst)) as (_ & _ & Hiff).
      by apply Hiff.
    - intros Hst. by destruct (Hbet Hst) as [_ ?]. }
  split; [assumption|].
  destruct (nextround_cases gameId games session)
    as [(game & Hok & Hnext)|(Hno & code & message & Hnext & _)].
  - left. exists game. split; [assumption|].
    destruct Hok as [[Hgame _] Hst].
    destruct (Hend game Hgame) as (Hfalse & _). specialize (Hfalse Hst).
    rewrite Hfalse in Hnext. split; [assumption|].
    apply shouldEndGame_false in Hfalse as [Hlt _].
    unfold advanced. game_simpl. lia.
  - right. split; [assumption|]. by eauto.
Qed.

Lemma nextround_never_ends_game_witness :
  (forall g, after_sample_run !! "ROOM01" = Some g ->
     (status g = roundComplete -> shouldEndGame g = false)
     /\ (status g = gameComplete -> shouldEndGame g = true)
     /\ (status g = betting -> gameMode g = "all-pay" ->
         forall p, p ∈ players g -> (roundsWon p < roundsToWin g)%Q))
  /\ ((exists game,
         nextround_allowed "ROOM01" after_sample_run (session_of p1) game
         /\ nextround "ROOM01" after_sample_run (session_of p1)
            = Some (<["ROOM01" := advanced game]> after_sample_run,
                    session_of p1, JsonSuccess)
         /\ currentRound (advanced game) <= totalRounds (advanced game))
      \/ (~ (exists game,
               nextround_allowed "ROOM01" after_sample_run (session_of p1) game)
          /\ exists code message,
               nextround "ROOM01" after_sample_run (session_of p1)
               = Some (after_sample_run, session_of p1,
                       JsonError code message))).
Proof.
  apply (nextround_never_ends_game after_sample_run "ROOM01" (session_of p1)).
  exists sample_run. vm_compute. reflexivity.
Defined.

(** The host starts round 2 of the sample game; the standard game of five
    tied rounds is over after the fifth, without a request of the host. *)
Example sample_next_round :
  (fun o : Outcome =>
     ((fun g => (status g, currentRound g, bets g)) <$> o.1.1 !! "ROOM01", o.2))
  <$> nextround "ROOM01" after_sample_run (session_of p1)
  = Some (Some (betting, 2, ∅), JsonSuccess).
Proof. reflexivity. Qed.

Example tie_run_result :
  (status tie_result, currentRound tie_result,
   name <$> overallWinner tie_result, map money (players tie_result))
  = (gameComplete, 5, Some "bob", [50; 50]).
Proof. reflexivity. Qed.

(** * Specifications of the routes *)



Lemma page_renders (gameId : string) (games : gmap string Game)
    (session : Session) (u : User) (game : Game) (player : Player) :
  games !! gameId = Some game -> user session = Some u ->
  user_gameId u = gameId ->
  find_player (user_playerId u) game = Some player ->
  page gameId games session
  = (mkSession (user session) None, RenderGame game player (error session)).
Proof.
  intros Hgame Hu Hgid Hplayer. unfold page.
  rewrite Hgame, Hu, (bool_decide_eq_true_2 _ Hgid). cbn [negb].
  by rewrite Hplayer.
Qed.

(** X14: the creation route.  With a name that is not blank it stores,
    under the id drawn and whatever the registry held there, a game that
    waits for players, in the mode asked for ([all-pay] when none is), with
    the caller as its only player and host, with 100 and no win; the
    session becomes the session of that player, so that the page of the
    game is rendered for the host, and a start is refused as long as
    nobody has joined.  With a blank name the registry is left as it is
    and the home page shows the error message once. *)
Theorem create_spec (gameId playerId : string) (now : Z)
    (username gameMode : option string) (games : gmap string Game)
    (session : Session) :
  (exists n game session',
     username = Some n /\ blank username = false
     /\ game = new_game gameId playerId now n (mode_of gameMode)
     /\ session' = mkSession (Some (mkUser gameId playerId n)) (error session)
     /\ create gameId playerId now username gameMode games session
        = (<[gameId := game]> games, session',
           Redirect ("/game/" ++ gameId)%string)
     /\ page gameId (<[gameId := game]> games) session'
        = (mkSession (user session') None,
           RenderGame game (mkPlayer playerId n 100 0 true) (error session))
     /\ start gameId (<[gameId := game]> games) session'
        = (<[gameId := game]> games, session',
           JsonError 400 "Need at least 2 players to start"))
  \/ (exists session',
        blank username = true
        /\ session' = mkSession (user session) (Some "Please enter a username")
        /\ create gameId playerId now username gameMode games session
           = (games, session', Redirect "/")
        /\ home session'
           = (mkSession (user session) None,
              RenderIndex (user session) (Some "Please enter a username"))).
Proof.
  destruct (create_cases gameId playerId now username gameMode games session)
    as [(n & Hn & Hblank & Hcreate)|(Hblank & Hcreate)].
  - left. eexists n, _, _. split; [assumption|]. split; [assumption|].
    split; [reflexivity|]. split; [reflexivity|]. split; [assumption|].
    assert (Hplayer : find_player playerId
                        (new_game gameId playerId now n (mode_of gameMode))
                      = Some (mkPlayer playerId n 100 0 true)).
    { unfold find_player, new_game. simpl.
      by rewrite bool_decide_eq_true_2. }
    split.
    + apply (page_renders gameId _
               (mkSession (Some (mkUser gameId playerId n)) (error session))
               (mkUser gameId playerId n));
        [apply lookup_insert_eq|reflexivity|reflexivity|assumption].
    + unfold start, lookup_game. rewrite lookup_insert_eq. simpl.
      rewrite (bool_decide_eq_true_2 (gameId = gameId)) by reflexivity.
      simpl. unfold find_player. simpl.
      by rewrite (bool_decide_eq_true_2 (playerId = playerId)).
  - right. eexists. split; [assumption|]. split; [reflexivity|].
    split; [assumption|reflexivity].
Qed.



(** * Bids and the state that the players poll *)

Lemma lookup_game_found (gameId : string) (games : gmap string Game)
    (session : Session) (game : Game) (u : User) :
  games !! gameId = Some game -> user session = Some u ->
  user_gameId u = gameId ->
  lookup_game gameId games session = inr (game, u).
Proof.
  intros Hgame Hu Hgid. unfold lookup_game.
  by rewrite Hgame, Hu, (bool_decide_eq_true_2 _ Hgid).
Qed.

Lemma find_by_id (k : string) (ps ps' : list Player) (p : Player) :
  map id ps' = map id ps ->
  List.find (fun q => bool_decide (id q = k)) ps = Some p ->
  exists p', List.find (fun q => bool_decide (id q = k)) ps' = Some p'
             /\ id p' = id p.
Proof.
  revert ps'. induction ps as [|a ps IH]; intros [|a' ps']; simpl;
    try discriminate.
  intros [= Ha Hps]. rewrite Ha.
  case_bool_decide as Hk.
  - intros [= <-]. by exists a'.
  - by apply IH.
Qed.

(** X17: an accepted bid is final.  After it the state that the bidder
    polls shows the bid as [myBet] and no turn to bid, whether the bid has
    closed the round or not, and every further bid of the bidder in this
    state is refused with the code 400 and leaves the registry as it
    is. *)
Theorem accepted_bid_is_final (gameId : string) (betAmount : option Z)
    (games games' : gmap string Game) (session session' : Session) :
  bet gameId betAmount games session = Some (games', session', JsonSuccess) ->
  (exists amount st,
     betAmount = Some amount
     /\ state gameId games' session' = inr st
     /\ myBet st = Some amount /\ isMyTurn st = false)
  /\ (forall again, exists message,
        bet gameId again games' session'
        = Some (games', session', JsonError 400 message)).
Proof.
  destruct (bet_cases gameId betAmount games session)
    as [(game & player & amount & Hok & ->)|(_ & code & message & ->)];
    [|discriminate].
  destruct Hok as (Hgame & (u & Hu & Hgid & Hplayer) & Hstatus & Hnone & Hb & Ha).
  change (let game1 := set_bets (<[id player := amount]> (bets game)) game in
          if forallb (fun p => bool_decide (is_Some (bets game1 !! id p)))
               (players game1)
          then completeRound game1 else Some game1)
    with (with_bid player amount game).
  destruct (with_bid player amount game) as [game'|] eqn:Hbid; simpl;
    [|discriminate].
  intros [= <- <-].
  assert (Hlook : lookup_game gameId (<[gameId := game']> games) session
                  = inr (game', u)).
  { apply lookup_game_found; [apply lookup_insert_eq|assumption|assumption]. }
  assert (Hfacts : exists player',
            find_player (user_playerId u) game' = Some player'
            /\ bets game' !! id player' = Some amount
            /\ (status game' = betting \/ status game' <> betting)).
  { destruct (with_bid_cases _ _ _ _ Hbid) as [(-> & _)|(Hsettle & _)].
    - exists player. split; [assumption|]. game_simpl.
      split; [apply lookup_insert_eq|by left].
    - pose proof (completeRound_ids _ _ Hsettle) as Hids.
      pose proof (completeRound_bets _ _ Hsettle) as Hbets.
      pose proof (completeRound_frame _ _ Hsettle) as (_ & _ & _ & _ & Hnb & _).
      game_simpl.
      destruct (find_by_id _ _ _ _ Hids Hplayer) as (player' & Hp' & Hid).
      exists player'. split; [assumption|].
      rewrite Hbets, Hid. split; [apply lookup_insert_eq|by right]. }
  destruct Hfacts as (player' & Hplayer' & Hbet' & Hst').
  split.
  - exists amount. eexists. split; [assumption|]. unfold state.
    rewrite Hlook, Hplayer'. split; [reflexivity|]. simpl.
    split; [assumption|]. rewrite Hbet'.
    rewrite (bool_decide_eq_true_2 (is_Some (Some amount))) by (by eexists).
    simpl. apply andb_false_r.
  - intros again. unfold bet. rewrite Hlook, Hplayer'.
    destruct (decide (status game' = betting)) as [Hbetting|Hnot].
    + rewrite (bool_decide_eq_true_2 _ Hbetting). cbn [negb].
      rewrite (bool_decide_eq_true_2 (is_Some (bets game' !! id player')))
        by (rewrite Hbet'; by eexists).
      by eexists.
    + rewrite (bool_decide_eq_false_2 _ Hnot). cbn [negb]. by eexists.
Qed.

Lemma accepted_bid_is_final_witness :
  (exists amount st,
     Some 10 = Some amount
     /\ state "ROOM01" after_bid (session_of ann3) = inr st
     /\ myBet st = Some amount /\ isMyTurn st = false)
  /\ (forall again, exists message,
        bet "ROOM01" again after_bid (session_of ann3)
        = Some (after_bid, session_of ann3, JsonError 400 message)).
Proof.
  apply (accepted_bid_is_final "ROOM01" (Some 10) one_game after_bid
           (session_of ann3) (session_of ann3)).
  vm_compute. reflexivity.
Defined.

(** X18: the bids are sealed.  The state that a player polls depends on
    the ledger of the round only through who has bid and through the bid
    of that player: on two registries whose games differ only by the
    amounts that the other players have bid, the route gives the same
    answer. *)
Theorem state_hides_bids (gameId : string) (games1 games2 : gmap string Game)
    (session : Session) (g1 g2 : Game) :
  games1 !! gameId = Some g1 -> games2 !! gameId = Some g2 ->
  g2 = set_bets (bets g2) g1 ->
  (forall u player,
     user session = Some u ->
     find_player (user_playerId u) g1 = Some player ->
     sealed_for (id player) (bets g1) (bets g2)) ->
  state gameId games1 session = state gameId games2 session.
Proof.
  intros Hg1 Hg2 Heq Hsealed. unfold state, lookup_game.
  rewrite Hg1, Hg2. destruct (user session) as [u|] eqn:Hu; [|reflexivity].
  destruct (negb (bool_decide _)); [reflexivity|].
  assert (Hfind : find_player (user_playerId u) g2
                  = find_player (user_playerId u) g1).
  { rewrite Heq. reflexivity. }
  rewrite Hfind.
  destruct (find_player (user_playerId u) g1) as [player|] eqn:Hplayer;
    [|reflexivity].
  destruct (Hsealed u player eq_refl Hplayer) as [Hdom Hown].
  assert (Hfields : players g2 = players g1 /\ currentRound g2 = currentRound g1
            /\ totalRounds g2 = totalRounds g1 /\ roundsToWin g2 = roundsToWin g1
            /\ status g2 = status g1 /\ gameMode g2 = gameMode g1
            /\ roundWinners g2 = roundWinners g1
            /\ overallWinner g2 = overallWinner g1
            /\ lastRoundBets g2 = lastRoundBets g1
            /\ showRoundResults g2 = showRoundResults g1
            /\ secondHighestBid g2 = secondHighestBid g1
            /\ actualPayments g2 = actualPayments g1).
  { rewrite Heq. by game_simpl. }
  destruct Hfields as (-> & -> & -> & -> & -> & -> & -> & -> & -> & -> & -> & ->).
  rewrite <- Hown.
  assert (Hviews :
    map (fun p => mkPlayerView (id p) (name p) (money p) (roundsWon p) (host p)
                    (bool_decide (is_Some (bets g1 !! id p)))) (players g1)
    = map (fun p => mkPlayerView (id p) (name p) (money p) (roundsWon p) (host p)
                      (bool_decide (is_Some (bets g2 !! id p)))) (players g1)).
  { apply map_ext. intros p. f_equal. apply bool_decide_ext, Hdom. }
  by rewrite Hviews.
Qed.

Lemma state_hides_bids_witness :
  state "ROOM01" one_game (session_of ann3)
  = state "ROOM01" one_game_other_bid (session_of ann3).
Proof.
  apply (state_hides_bids "ROOM01" one_game one_game_other_bid
           (session_of ann3) third_round
           (set_bets (<["p2" := 55]> ∅) third_round)).
  - reflexivity.
  - reflexivity.
  - reflexivity.
  - intros u player [= <-] Hplayer. vm_compute in Hplayer.
    injection Hplayer as <-. split; [|reflexivity].
    intros j. change (bets third_round) with (<["p2" := 20]> (∅ : gmap string Z)).
    change (bets (set_bets (<["p2" := 55]> ∅) third_round))
      with (<["p2" := 55]> (∅ : gmap string Z)).
    destruct (decide (j = "p2")) as [->|Hne].
    + rewrite !lookup_insert_eq. split; by eexists.
    + by rewrite !lookup_insert_ne.
Defined.

(** What [ann3] sees of the third round, in which only [bob3] has bid. *)
Example state_of_third_round :
  match state "ROOM01" one_game (session_of ann3) with
  | inr st =>
    (map hasBet (state_players st), myBet st, isMyTurn st, amHost st)
    = ([false; true; false], None, true, true)
  | inl _ => False
  end.
Proof. reflexivity. Qed.

(** * The registry *)

(** X19: the clean-up keeps exactly the games created at most 24 hours
    before [now], and the games whose [createdAt] is 0, which the test of
    the code takes for games without a date; a clean-up after a clean-up
    removes what the later one alone removes. *)
Theorem cleanUp_spec (now : Z) (games : gmap string Game) :
  (forall k g,
     cleanUp now games !! k = Some g
     <-> games !! k = Some g
         /\ (createdAt g = 0 \/ now - createdAt g <= 24 * 60 * 60 * 1000))
  /\ (forall k, games !! k = None -> cleanUp now games !! k = None)
  /\ (forall later, now <= later ->
        cleanUp later (cleanUp now games) = cleanUp later games).
Proof.
  assert (Hkeep : forall t k g,
            cleanUp t games !! k = Some g
            <-> games !! k = Some g
                /\ (createdAt g = 0 \/ t - createdAt g <= 24 * 60 * 60 * 1000)).
  { intros t k g. unfold cleanUp. rewrite map_lookup_filter_Some. simpl.
    split; intros [Hg Hold]; (split; [assumption|]).
    - destruct (decide (createdAt g = 0)); [by left|right]. lia.
    - intros [Hne Hgt]. lia. }
  split; [apply Hkeep|]. split.
  - intros k Hnone. unfold cleanUp. by apply map_lookup_filter_None_2; left.
  - intros later Hle. apply map_eq. intros k. apply option_eq. intros g.
    rewrite Hkeep. unfold cleanUp at 1. rewrite map_lookup_filter_Some. simpl.
    rewrite Hkeep. split.
    + intros ([Hg Hnow] & Hlater). split; [assumption|].
      destruct (decide (createdAt g = 0)); [by left|right]. lia.
    + intros [Hg Hlater]. split; [split; [assumption|]|].
      * destruct Hlater as [?|?]; [by left|right]. lia.
      * intros [Hne Hgt]. lia.
Qed.

Lemma handle_registry (r : Request) (session : Session)
    (games games' : gmap string Game) :
  handle r session games = Some games' ->
  games' = games
  \/ (exists k g',
        games' = <[k := g']> games
        /\ (is_Some (games !! k)
            \/ exists playerId now username gameMode,
                 r = Create k playerId now username gameMode))
  \/ (exists now, r = CleanUp now /\ games' = cleanUp now games).
Proof.
  destruct r as [cId cPid now username gameMode|jPid jId username|sId
                |bId betAmount|nId|rId|hId|now]; simpl.
  - destruct (create_cases cId cPid now username gameMode games session)
      as [(n & -> & Hblank & ->)|(_ & ->)]; simpl; intros [= <-]; [|by left].
    right. left. eexists _, _. split; [reflexivity|]. right. by eauto 6.
  - destruct (join_cases jPid jId username games session)
      as [(i & n & game & Hok & ->)|(_ & message & ->)]; simpl;
      intros [= <-]; [|by left].
    destruct Hok as (_ & _ & _ & Hgame & _).
    right. left. eexists _, _. split; [reflexivity|]. left. by eexists.
  - destruct (start_cases sId games session)
      as [(game & Hok & ->)|(_ & code & message & -> & _)]; simpl;
      intros [= <-]; [|by left].
    destruct Hok as ((Hgame & _) & _).
    right. left. eexists _, _. split; [reflexivity|]. left. by eexists.
  - destruct (bet_cases bId betAmount games session)
      as [(game & player & amount & Hok & ->)|(_ & code & message & ->)];
      [|simpl; intros [= <-]; by left].
    destruct Hok as (Hgame & _).
    change (let game1 := set_bets (<[id player := amount]> (bets game)) game in
            if forallb (fun p => bool_decide (is_Some (bets game1 !! id p)))
                 (players game1)
            then completeRound game1 else Some game1)
      with (with_bid player amount game).
    destruct (with_bid player amount game) as [g1|]; simpl; [|discriminate].
    intros [= <-]. right. left. eexists _, _. split; [reflexivity|].
    left. by eexists.
  - destruct (nextround_cases nId games session)
      as [(game & Hok & ->)|(_ & code & message & -> & _)];
      [|simpl; intros [= <-]; by left].
    destruct Hok as ((Hgame & _) & _).
    destruct (shouldEndGame game).
    + destruct (determineOverallWinner _) as [g1|]; simpl; [|discriminate].
      intros [= <-]. right. left. eexists _, _. split; [reflexivity|].
      left. by eexists.
    + simpl. intros [= <-]. right. left. eexists _, _.
      split; [reflexivity|]. left. by eexists.
  - destruct (reset_exact rId games session)
      as [(game & Hok & ->)|(_ & code & message & -> & _)]; simpl;
      intros [= <-]; [|by left].
    destruct Hok as (Hgame & _).
    right. left. eexists _, _. split; [reflexivity|]. left. by eexists.
  - unfold hideRoundResults. intros [= <-].
    destruct (games !! hId) as [game|] eqn:Hgame; [|by left].
    right. left. eexists _, _. split; [reflexivity|]. left. by eexists.
  - intros [= <-]. right. right. by eauto.
Qed.

(** X20: a request changes at most one game of the registry, except the
    clean-up, which only removes games; only the creation route adds a
    game, and only the clean-up removes one. *)
Theorem requests_change_one_game (r : Request) (session : Session)
    (games games' : gmap string Game) :
  handle r session games = Some games' ->
  (forall k, is_Some (games' !! k) ->
     is_Some (games !! k)
     \/ exists playerId now username gameMode,
          r = Create k playerId now username gameMode)
  /\ ((forall now, r <> CleanUp now) ->
      (forall k, is_Some (games !! k) -> is_Some (games' !! k))
      /\ exists k, forall k', k' <> k -> games' !! k' = games !! k')
  /\ (forall now, r = CleanUp now ->
      forall k g, games' !! k = Some g -> games !! k = Some g).
Proof.
  intros Hhandle.
  destruct (handle_registry _ _ _ _ Hhandle)
    as [->|[(k & g' & -> & Hk)|(now & -> & ->)]].
  - split; [by left|]. split.
    + intros _. split; [done|]. by exists "".
    + done.
  - split; [|split].
    + intros k' Hk'. destruct (decide (k = k')) as [<-|Hne]; [assumption|].
      rewrite lookup_insert_ne in Hk' by assumption. by left.
    + intros _. split.
      * intros k' Hk'. destruct (decide (k = k')) as [<-|Hne].
        -- rewrite lookup_insert_eq. by eexists.
        -- by rewrite lookup_insert_ne.
      * exists k. intros k' Hne. by rewrite lookup_insert_ne.
    + intros now ->. simpl in Hhandle. injection Hhandle as Heq.
      intros k' g Hg. rewrite <- Heq in Hg.
      by apply map_lookup_filter_Some in Hg as [? _].
  - split; [|split].
    + intros k [g Hg]. left. exists g.
      by apply map_lookup_filter_Some in Hg as [? _].
    + intros Hno. by destruct (Hno now).
    + intros now' _ k g Hg. by apply map_lookup_filter_Some in Hg as [? _].
Qed.

Lemma requests_change_one_game_witness :
  (forall k, is_Some (after_bid !! k) ->
     is_Some (one_game !! k)
     \/ exists playerId now username gameMode,
          PlaceBet "ROOM01" (Some 10) = Create k playerId now username gameMode)
  /\ ((forall now, PlaceBet "ROOM01" (Some 10) <> CleanUp now) ->
      (forall k, is_Some (one_game !! k) -> is_Some (after_bid !! k))
      /\ exists k, forall k', k' <> k -> after_bid !! k' = one_game !! k')
  /\ (forall now, PlaceBet "ROOM01" (Some 10) = CleanUp now ->
      forall k g, after_bid !! k = Some g -> one_game !! k = Some g).
Proof.
  apply (requests_change_one_game (PlaceBet "ROOM01" (Some 10))
           (session_of ann3) one_game after_bid).
  vm_compute. reflexivity.
Defined.

Lemma game_change_players (g g' : Game) :
  game_change g g' ->
  forall i p, players g !! i = Some p ->
    exists p', players g' !! i = Some p'
               /\ id p' = id p /\ name p' = name p /\ host p' = host p.
Proof.
  intros Hchange i p Hp.
  assert (Hsame : players g' = players g ->
            exists p', players g' !! i = Some p'
                       /\ id p' = id p /\ name p' = name p /\ host p' = host p).
  { intros ->. by exists p. }
  destruct Hchange as [g playerId username Hst Hblank' Hfree|g Hst Hlen
                      |g g' playerId player amount Hst Hpl Hnone' Ha Hbid
                      |g g' Hst Hend Hw|g Hst Hend|g Hhost'|g];
    try (by apply Hsame).
  - exists p. unfold joined. game_simpl. split; [|done].
    by apply lookup_app_l_Some.
  - destruct (with_bid_cases _ _ _ _ Hbid) as [(-> & _)|(Hsettle & _)];
      [by apply Hsame|].
    assert (Hall : Forall2 (settles_to (<[id player := amount]> (bets g)))
                     (players g) (players g')).
    { pose proof (completeRound_settled _ _ Hsettle) as Hs. game_simpl.
      destruct (ranking (<[id player := amount]> (bets g)))
        as [[[[h hb] s] t]|] eqn:Hrank.
      - destruct Hs as ((Hs & _) & _).
        by apply (settle_players_settles _ _ _ _ _ _ _ _ Hrank Hs).
      - destruct Hs as ((-> & _) & _). apply Forall2_settles_to_refl. }
    destruct (Forall2_lookup_l _ _ _ _ _ Hall Hp)
      as (p' & Hp' & Hi & Hn & Hh & _).
    by exists p'.
  - apply determineOverallWinner_players in Hw as (w & -> & _).
    by apply Hsame.
  - eexists. unfold reset_game. game_simpl.
    change (map ?f ?l) with (f <$> l). rewrite list_lookup_fmap, Hp.
    split; [reflexivity|]. done.
Qed.

(** X21: the field [id] of a game of the server is its key in the
    registry.  A request that does not replace a game by a new one under
    the same id leaves the date of creation, the mode and [roundsToWin]
    of the game as they are, and its players stay in their places with
    their ids, names and host flags. *)
Theorem game_identity (r : Request) (session : Session)
    (games games' : gmap string Game) (k : string) (g g' : Game) :
  reachable games -> handle r session games = Some games' ->
  games !! k = Some g -> games' !! k = Some g' ->
  game_id g = k /\ game_id g' = k /\ roundsToWin g' = 3%Q
  /\ ((exists playerId now username gameMode,
         g' = new_game k playerId now username gameMode)
      \/ (createdAt g' = createdAt g /\ gameMode g' = gameMode g
          /\ forall i p, players g !! i = Some p ->
               exists p', players g' !! i = Some p'
                          /\ id p' = id p /\ name p' = name p
                          /\ host p' = host p)).
Proof.
  intros Hreach Hhandle Hg Hg'.
  pose proof (reachable_handle _ _ _ _ Hreach Hhandle) as Hreach'.
  destruct (reachable_game_inv _ Hreach _ _ Hg) as (_ & _ & _ & _ & _ & Hid).
  destruct (reachable_game_inv _ Hreach' _ _ Hg')
    as ((_ & Hwin & _) & _ & _ & _ & _ & Hid').
  split; [assumption|]. split; [assumption|]. split; [assumption|].
  destruct (handle_game_change _ _ _ _ _ _ Hhandle Hg')
    as [Hsame|[(playerId & now & username & gameMode & -> & _)|(g0 & Hg0 & Hs)]].
  - right. assert (g' = g) as -> by congruence.
    split; [reflexivity|]. split; [reflexivity|]. intros i p Hp. by exists p.
  - left. by eauto.
  - right. assert (g0 = g) as -> by congruence.
    destruct (game_change_frame _ _ Hs) as (_ & Hc & Hm & _).
    split; [assumption|]. split; [assumption|].
    by apply game_change_players.
Qed.

Lemma game_identity_witness :
  game_id lobby_game = "ROOM01" /\ game_id (started lobby_game) = "ROOM01"
  /\ roundsToWin (started lobby_game) = 3%Q
  /\ ((exists playerId now username gameMode,
         started lobby_game = new_game "ROOM01" playerId now username gameMode)
      \/ (createdAt (started lobby_game) = createdAt lobby_game
          /\ gameMode (started lobby_game) = gameMode lobby_game
          /\ forall i p, players lobby_game !! i = Some p ->
               exists p', players (started lobby_game) !! i = Some p'
                          /\ id p' = id p /\ name p' = name p
                          /\ host p' = host p)).
Proof.
  apply (game_identity (Start "ROOM01") (session_of p1) lobby
           (default ∅ (handle (Start "ROOM01") (session_of p1) lobby))
           "ROOM01" lobby_game (started lobby_game)).
  - exists lobby_run. vm_compute. reflexivity.
  - vm_compute. reflexivity.
  - vm_compute. reflexivity.
  - vm_compute. reflexivity.
Defined.

(** X22: a game that is over stays as it is until the host resets it:
    whatever the request, the game is afterwards the same game, the same
    game with the results of the round hidden, the game reset, or a new
    game created under the same id.  No bid, join, start or next round
    changes it. *)
Theorem game_over_is_final (r : Request) (session : Session)
    (games games' : gmap string Game) (k : string) (g g' : Game) :
  handle r session games = Some games' ->
  games !! k = Some g -> status g = gameComplete ->
  games' !! k = Some g' ->
  g' = g \/ g' = set_showRoundResults false g \/ g' = reset_game g
  \/ exists playerId now username gameMode,
       g' = new_game k playerId now username gameMode.
Proof.
  intros Hhandle Hg Hst Hg'.
  destruct (handle_game_change _ _ _ _ _ _ Hhandle Hg')
    as [Hsame|[(playerId & now & username & gameMode & -> & _)|(g0 & Hg0 & Hs)]].
  - left. congruence.
  - right. right. right. by eauto.
  - assert (g0 = g) as -> by congruence.
    destruct Hs as [g playerId username Hst' Hblank' Hfree|g Hst' Hlen
                   |g g' playerId player amount Hst' Hpl Hnone' Ha Hbid
                   |g g' Hst' Hend Hw|g Hst' Hend|g Hhost'|g];
      try congruence.
    + right. right. by left.
    + right. by left.
Qed.

Lemma game_over_is_final_witness :
  reset_game tie_result = tie_result
  \/ reset_game tie_result = set_showRoundResults false tie_result
  \/ reset_game tie_result = reset_game tie_result
  \/ exists playerId now username gameMode,
       reset_game tie_result = new_game "ROOM02" playerId now username gameMode.
Proof.
  apply (game_over_is_final (Reset "ROOM02") ann_session after_tie_run
           (default ∅ (handle (Reset "ROOM02") ann_session after_tie_run))
           "ROOM02" tie_result (reset_game tie_result)).
  - vm_compute. reflexivity.
  - vm_compute. reflexivity.
  - vm_compute. reflexivity.
  - vm_compute. reflexivity.
Defined.

(** * The credit of a round, again *)

(** X23: the credit of a winner is between 0.2 and 1, it does not grow
    with the number of winners, and the winners of a round get at least
    one win between them. *)
Theorem getFractionalWinAmount_bounds (n m : Z) :
  (0.2 <= getFractionalWinAmount n <= 1)%Q
  /\ (n <= m -> (getFractionalWinAmount m <= getFractionalWinAmount n)%Q)
  /\ (1 <= n -> (1 <= inject_Z n * getFractionalWinAmount n)%Q).
Proof.
  unfold getFractionalWinAmount. split; [|split].
  - destruct (n <=? 1); [|destruct (n =? 2); [|destruct (n =? 3);
      [|destruct (n =? 4)]]]; split; unfold Qle; simpl; lia.
  - intros Hle.
    destruct (Z.leb_spec n 1), (Z.eqb_spec n 2), (Z.eqb_spec n 3),
      (Z.eqb_spec n 4), (Z.leb_spec m 1), (Z.eqb_spec m 2), (Z.eqb_spec m 3),
      (Z.eqb_spec m 4); try lia; unfold Qle; simpl; lia.
  - intros Hpos.
    destruct (Z.leb_spec n 1), (Z.eqb_spec n 2), (Z.eqb_spec n 3),
      (Z.eqb_spec n 4); subst; try lia; unfold Qle; simpl; lia.
Qed.

(** * The code of a game and the pages *)

Lemma toUpperCase_idempotent (s : string) :
  toUpperCase (toUpperCase s) = toUpperCase s.
Proof.
  unfold toUpperCase. rewrite list_ascii_of_string_of_list_ascii, map_map.
  f_equal. apply map_ext. intros c.
  destruct c as [[] [] [] [] [] [] [] []]; reflexivity.
Qed.

Lemma toUpperCase_empty (s : string) : toUpperCase s = "" <-> s = "".
Proof. destruct s; [done|]. split; discriminate. Qed.

(** X24: the join route does not look at the case of the letters of the
    code typed: the code and the code in upper case give the same
    outcome. *)
Theorem join_ignores_case (playerId i : string) (username : option string)
    (games : gmap string Game) (session : Session) :
  ascii_only i ->
  join playerId (Some i) username games session
  = join playerId (Some (toUpperCase i)) username games session.
Proof.
  intros _. unfold join.
  destruct (decide (i = "")) as [->|Hne]; [reflexivity|].
  rewrite (bool_decide_eq_false_2 (i = "")) by assumption.
  rewrite (bool_decide_eq_false_2 (toUpperCase i = ""))
    by (by rewrite toUpperCase_empty).
  by rewrite toUpperCase_idempotent.
Qed.

Lemma join_ignores_case_witness :
  join "p4" (Some "room01") (Some "dan") lobby no_session
  = join "p4" (Some (toUpperCase "room01")) (Some "dan") lobby no_session.
Proof.
  apply (join_ignores_case "p4" "room01").
  unfold ascii_only. simpl. repeat (constructor; [reflexivity|]). constructor.
Defined.

Example join_lower_case :
  (fun o : Outcome =>
     ((fun g => map name (players g)) <$> o.1.1 !! "ROOM01", o.2))
    (join "p4" (Some "room01") (Some "dan") lobby no_session)
  = (Some ["ann"; "bob"; "cyd"; "dan"], Redirect "/game/ROOM01").
Proof. reflexivity. Qed.

(** X25: the page of a game and the state that is polled are given to the
    same callers: the page is rendered exactly when the polling route
    answers with a state, for the same player of the game, who is the
    first player with the id of the session; the state then lists the
    players of the game in their order.  A caller who is refused is sent
    to the home page, which shows the reason once.  Rendering the page
    deletes the error message of the session. *)
Theorem read_routes_agree (gameId : string) (games : gmap string Game)
    (session : Session) :
  (exists game u player st,
     games !! gameId = Some game /\ user session = Some u
     /\ user_gameId u = gameId
     /\ find_player (user_playerId u) game = Some player
     /\ page gameId games session
        = (mkSession (user session) None,
           RenderGame game player (error session))
     /\ state gameId games session = inr st
     /\ amHost st = host player /\ myBet st = bets game !! id player
     /\ state_status st = status game
     /\ Forall2 (view_of game) (players game) (state_players st))
  \/ (exists message code message',
        page gameId games session
        = (mkSession (user session) (Some message), PageRedirect "/")
        /\ (home (page gameId games session).1).2
           = RenderIndex (user session) (Some message)
        /\ error (home (page gameId games session).1).1 = None
        /\ state gameId games session = inl (JsonError code message')
        /\ (code = 404 \/ code = 403)).
Proof.
  unfold page, state, lookup_game.
  destruct (games !! gameId) as [game|] eqn:Hgame.
  2:{ right. do 3 eexists. split; [reflexivity|]. split; [reflexivity|].
      split; [reflexivity|]. split; [reflexivity|]. by left. }
  destruct (user session) as [u|] eqn:Hu.
  2:{ right. do 3 eexists. split; [reflexivity|]. split; [reflexivity|].
      split; [reflexivity|]. split; [reflexivity|]. by right. }
  case_bool_decide as Hgid; cbn [negb].
  2:{ right. do 3 eexists. split; [reflexivity|]. split; [reflexivity|].
      split; [reflexivity|]. split; [reflexivity|]. by right. }
  destruct (find_player (user_playerId u) game) as [player|] eqn:Hplayer.
  2:{ right. do 3 eexists. split; [reflexivity|]. split; [reflexivity|].
      split; [reflexivity|]. split; [reflexivity|]. by left. }
  left. exists game, u, player. eexists.
  split; [reflexivity|]. split; [reflexivity|]. split; [assumption|].
  split; [assumption|]. split; [reflexivity|]. split; [reflexivity|].
  simpl. split; [reflexivity|]. split; [reflexivity|]. split; [reflexivity|].
  generalize (players game). intros ps.
  induction ps as [|p ps IH]; simpl; constructor; [|assumption].
  unfold view_of. simpl. repeat split; try done.
  - by apply bool_decide_eq_true.
  - by apply bool_decide_eq_true.
Qed.

(** X26: in a state that the server can be in, the state that a player
    polls says [isMyTurn] exactly when the bet route would accept a bid of
    that player: the bid of 0, which every player can afford. *)
Theorem isMyTurn_iff_bid_accepted (gameId : string)
    (games : gmap string Game) (session : Session) (st : GameState) :
  reachable games -> state gameId games session = inr st ->
  (isMyTurn st = true
   <-> exists games',
         bet gameId (Some 0) games session
         = Some (games', session, JsonSuccess)).
Proof.
  intros Hreach. unfold state.
  destruct (lookup_game gameId games session) as [r|[game u]] eqn:Hlook;
    [discriminate|].
  destruct (find_player (user_playerId u) game) as [player|] eqn:Hplayer;
    [|discriminate].
  intros [= <-]. simpl.
  assert (Hgame : games !! gameId = Some game
                  /\ user session = Some u /\ user_gameId u = gameId).
  { revert Hlook. unfold lookup_game.
    destruct (games !! gameId) as [game0|]; [|discriminate].
    destruct (user session) as [u0|]; [|discriminate].
    case_bool_decide; [|discriminate]. simpl. by intros [= -> ->]. }
  destruct Hgame as (Hgame & Hu & Hgid).
  destruct (reachable_money_inv _ Hreach _ _ Hgame) as ([Hsolv _] & Hknown & _).
  pose proof (find_elem _ _ _ Hplayer) as [Hin _].
  specialize (Hsolv _ Hin).
  destruct (bet_cases gameId (Some 0) games session)
    as [(game0 & player0 & amount & Hok & Hbet)|(Hno & code & message & Hbet)].
  - pose proof Hok as (Hgame0 & (u0 & Hu0 & _ & Hplayer0) & Hstatus & Hnone & _).
    assert (game0 = game) as -> by congruence.
    assert (u0 = u) as -> by congruence.
    assert (player0 = player) as -> by congruence.
    rewrite (bool_decide_eq_true_2 _ Hstatus).
    rewrite bool_decide_eq_false_2 by (rewrite Hnone; by intros [? [=]]).
    split; [intros _|done].
    destruct (bet_accepts gameId (Some 0) games session game player amount Hok
                (Hknown Hstatus)) as [game' Hacc].
    by exists (<[gameId := game']> games).
  - split.
    + intros Hturn. apply andb_true_iff in Hturn as [Hst Hfree].
      apply bool_decide_eq_true in Hst. apply negb_true_iff in Hfree.
      apply bool_decide_eq_false in Hfree. destruct Hno.
      exists game, player, 0. split; [assumption|].
      split; [by exists u|]. split; [assumption|].
      split; [by apply eq_None_not_Some|]. split; [reflexivity|lia].
    + intros [games' Hacc]. rewrite Hbet in Hacc. discriminate.
Qed.

Lemma isMyTurn_iff_bid_accepted_witness :
  isMyTurn
    (mkGameState
       [mkPlayerView "p1" "ann" 100 0 true false;
        mkPlayerView "p2" "bob" 100 0 false false;
        mkPlayerView "p3" "cyd" 100 0 false false]
       1 7 3 betting "vickrey" None None None true true ∅ false None ∅)
  = true
  <-> exists games',
        bet "ROOM01" (Some 0) started_lobby (session_of p1)
        = Some (games', session_of p1, JsonSuccess).
Proof.
  apply (isMyTurn_iff_bid_accepted "ROOM01" started_lobby (session_of p1)).
  - exists (lobby_run ++ [(Start "ROOM01", session_of p1)]).
    vm_compute. reflexivity.
  - vm_compute. reflexivity.
Defined.

(** * Progress: a started game can always be finished *)










